(** * particles.js -- the particle effects system, embedded in Rocq

    The development follows the source file class by class:
    [Particle], [GeometricParticle], [ParticleSystem],
    [GeometricParticleSystem], [ParticleManager] and [PerformanceManager].

    Conventions of the embedding.
    - JavaScript numbers are real numbers ([R]); rounding, infinities and
      NaN are outside the model.  The one arithmetic operation that leaves
      the finite numbers on finite inputs, a division by zero, is checked:
      [JS.div] fails there, and every function that divides lives in an
      error monad.  A result [None] therefore reads "a non-finite number
      was produced", or, at page level, "a method was called on an
      address that holds no object".
    - [Math.random] reads an entropy stream held by the host.
    - The 2D context is a writer: drawing functions return the commands
      they issue.
    - Objects with identity (particle systems) live in a heap and are
      referred to by index; closures handed to the host
      ([requestAnimationFrame]) are first-order callbacks naming that
      index. *)

From Stdlib Require Import Reals Lra Lia ZArith List String Ascii Bool.
From Stdlib Require Import DecimalString DecimalNat DecimalFacts.
From stdpp Require Import base list option.

(** ** JavaScript primitives *)

Module JS.
Local Open Scope R_scope.

(** [a < b] and [a > b] on numbers. *)
Definition lt (a b : R) : bool := if Rlt_dec a b then true else false.
Definition gt (a b : R) : bool := lt b a.
Definition ge (a b : R) : bool := if Rle_dec b a then true else false.

(** [a / b]; [None] when the quotient is not a finite number. *)
Definition div (a b : R) : option R :=
  if Req_dec_T b 0 then None else Some (a / b).

(** [Math.floor], [Math.min], [Math.sqrt]. *)
Definition floor (r : R) : Z := Int_part r.
Definition min (a b : R) : R := Rmin a b.

(** [Math.atan2(y, x)] on finite arguments. *)
Definition atan2 (y x : R) : R :=
  if Rlt_dec 0 x then atan (y / x)
  else if Rlt_dec x 0 then
         (if Rle_dec 0 y then atan (y / x) + PI else atan (y / x) - PI)
  else if Rlt_dec 0 y then PI / 2
  else if Rlt_dec y 0 then - (PI / 2)
  else 0.

(** Truthiness of a number. *)
Definition truthy (r : R) : bool := if Req_dec_T r 0 then false else true.

(** [o.k || d] for a numeric option key: absent and [0] are falsy. *)
Definition orR (o : option R) (d : R) : R :=
  match o with
  | Some v => if Req_dec_T v 0 then d else v
  | None => d
  end.
Definition orZ (o : option Z) (d : Z) : Z :=
  match o with
  | Some v => if Z.eqb v 0 then d else v
  | None => d
  end.

(** [o.k || d] for a string key: absent and the empty string are falsy. *)
Definition orS (o : option string) (d : string) : string :=
  match o with
  | Some EmptyString | None => d
  | Some v => v
  end.

(** [o.k !== false]. *)
Definition not_false (o : option bool) : bool :=
  match o with
  | Some false => false
  | _ => true
  end.

(** A key [k] of a spread [{ k: d, ...o }]: the spread value wins. *)
Definition spread {A} (o : option A) (d : A) : A :=
  match o with
  | Some v => v
  | None => d
  end.

(** Assignment of a number to an [unsigned long] attribute (WebIDL):
    truncate towards zero, then reduce modulo [2^32]. *)
Definition trunc (r : R) : Z :=
  if Rle_dec 0 r then Int_part r else (- Int_part (- r))%Z.
Definition to_unsigned_long (r : R) : N := Z.to_N (trunc r mod 2 ^ 32).

(** Assignment to an [unsigned long] attribute that reflects a content
    attribute (the [width] and [height] of a canvas): a value above
    [2^31 - 1] is replaced by the attribute's default. *)
Definition reflect_unsigned_long (default : N) (r : R) : N :=
  let n := to_unsigned_long r in
  if (n <=? 2147483647)%N then n else default.
End JS.

(** ** Strings with embedded numbers

    [String.prototype.replace(pattern, n)] with a string pattern replaces
    the first occurrence of [pattern] by the decimal rendering of [n].  The
    rendering itself is left symbolic: a result is a sequence of literal
    pieces and numbers. *)

Module JSString.
Inductive piece : Type :=
| Lit (s : string)
| Num (r : R).

Definition t := list piece.

(** [strip pat s]: the rest of [s] after the prefix [pat], if any. *)
Fixpoint strip (pat s : string) : option string :=
  match pat, s with
  | EmptyString, _ => Some s
  | String a pat', String b s' =>
      if Ascii.eqb a b then strip pat' s' else None
  | String _ _, EmptyString => None
  end.

(** [split_first pat s]: the text before and after the first occurrence
    of [pat] in [s]. *)
Fixpoint split_first (pat s : string) : option (string * string) :=
  match strip pat s with
  | Some rest => Some (EmptyString, rest)
  | None =>
      match s with
      | EmptyString => None
      | String c s' =>
          match split_first pat s' with
          | Some (before, after) => Some (String c before, after)
          | None => None
          end
      end
  end.

(** [s.replace(pat, n)] for a number [n]. *)
Definition replace (s pat : string) (n : R) : t :=
  match split_first pat s with
  | Some (before, after) => [Lit before; Num n; Lit after]
  | None => [Lit s]
  end.
End JSString.

(** ** The 2D drawing context *)

Module Ctx.
Inductive cmd : Type :=
| beginPath
| closePath
| arc (x y radius startAngle endAngle : R)
| rect (x y w h : R)
| moveTo (x y : R)
| lineTo (x y : R)
| fillStyle (s : JSString.t)
| strokeStyle (s : JSString.t)
| lineWidth (w : R)
| fill
| stroke
| save
| restore
| translate (x y : R)
| rotate (a : R).
End Ctx.

(** ** Data *)

(** The [options] argument of the constructors: every key may be absent. *)
Module Options.
Record t : Type := mk {
  particleCount : option Z;
  particleSize : option R;
  particleSpeed : option R;
  connectionDistance : option R;
  particleColor : option string;
  connectionColor : option string;
  mouseInteraction : option bool;
  mouseRadius : option R;
  responsive : option bool;
  shapes : option (list string);
  rotationSpeed : option R
}.

Definition empty : t :=
  mk None None None None None None None None None None None.
End Options.

(** [this.config].  The keys [shapes] and [rotationSpeed] are absent from a
    plain system's configuration unless the caller passes them; the plain
    classes never read them, and they are [[]] and [0] there. *)
Module Config.
Record t : Type := mk {
  particleCount : Z;
  particleSize : R;
  particleSpeed : R;
  connectionDistance : R;
  particleColor : string;
  connectionColor : string;
  mouseInteraction : bool;
  mouseRadius : R;
  responsive : bool;
  shapes : list string;
  rotationSpeed : R
}.

Definition set_particleCount (n : Z) (c : t) : t :=
  mk n (particleSize c) (particleSpeed c) (connectionDistance c)
     (particleColor c) (connectionColor c) (mouseInteraction c)
     (mouseRadius c) (responsive c) (shapes c) (rotationSpeed c).
Definition set_mouseInteraction (b : bool) (c : t) : t :=
  mk (particleCount c) (particleSize c) (particleSpeed c)
     (connectionDistance c) (particleColor c) (connectionColor c) b
     (mouseRadius c) (responsive c) (shapes c) (rotationSpeed c).
End Config.

(** [this.mouse]. *)
Module Mouse.
Record t : Type := mk { x : R; y : R }.
End Mouse.

(** A [DOMRect] as returned by [getBoundingClientRect]. *)
Module Rect.
Record t : Type := mk { left : R; top : R; width : R; height : R }.
End Rect.

(** The canvas element: its [unsigned long] size, whether it has a parent
    node, and what has been painted on it since it was last cleared. *)
Module Canvas.
Record t : Type := mk {
  width : N;
  height : N;
  attached : bool;
  painted : list Ctx.cmd
}.

Definition w (c : t) : R := IZR (Z.of_N (width c)).
Definition h (c : t) : R := IZR (Z.of_N (height c)).
End Canvas.

(** ** The host environment and the monad of the embedding *)

(** A closure passed to [requestAnimationFrame]: either
    [() => this.animate()] of the system at heap index [self], or the
    governor's [checkFrameRate]. *)
Inductive Callback : Type :=
| Animate (self : nat)
| CheckFrameRate.

Module Host.
Record t : Type := mk {
  entropy : nat -> R;       (* the values [Math.random] will return *)
  cursor : nat;             (* how many of them were consumed *)
  layout : nat -> Rect.t;   (* bounding rectangle of each container *)
  rafSeq : positive;        (* the next animation frame handle *)
  rafQueue : list (positive * Callback)   (* pending frame requests *)
}.

(** [k] more random numbers were consumed. *)
Definition advance (k : nat) (h : t) : t :=
  mk (entropy h) (cursor h + k) (layout h) (rafSeq h) (rafQueue h).

(** A frame request was added under the next handle. *)
Definition enqueue (cb : Callback) (h : t) : t :=
  mk (entropy h) (cursor h) (layout h) (Pos.succ (rafSeq h))
     (rafQueue h ++ [(rafSeq h, cb)]).

(** The frame request with handle [id], if any, was removed. *)
Definition cancel (id : positive) (h : t) : t :=
  mk (entropy h) (cursor h) (layout h) (rafSeq h)
     (List.filter (fun e => negb (Pos.eqb (fst e) id)) (rafQueue h)).

Definition set_layout (l : nat -> Rect.t) (h : t) : t :=
  mk (entropy h) (cursor h) l (rafSeq h) (rafQueue h).

Definition set_rafQueue (q : list (positive * Callback)) (h : t) : t :=
  mk (entropy h) (cursor h) (layout h) (rafSeq h) q.
End Host.

(** State and failure: a computation reads and writes a state [S] and may
    stop without a result. *)
Definition M (S A : Type) : Type := S -> option (A * S).

Definition ret {S A} (a : A) : M S A := fun s => Some (a, s).

Definition bind {S A B} (m : M S A) (k : A -> M S B) : M S B :=
  fun s => match m s with
           | Some (a, s') => k a s'
           | None => None
           end.

Definition lift {S A} (o : option A) : M S A :=
  fun s => match o with
           | Some a => Some (a, s)
           | None => None
           end.

Declare Scope js_scope.
Delimit Scope js_scope with js.
Notation "'let*' x ':=' m 'in' k" := (bind m (fun x => k))
  (at level 10, x pattern, m at level 100, k at level 200) : js_scope.

(** Host services. *)
Module Env.
Local Open Scope R_scope.

(** [Math.random()]. *)
Definition random : M Host.t R :=
  fun h => Some (Host.entropy h (Host.cursor h), Host.advance 1 h).

(** [container.getBoundingClientRect()]. *)
Definition getBoundingClientRect (container : nat) : M Host.t Rect.t :=
  fun h => Some (Host.layout h container, h).

(** [requestAnimationFrame(cb)]: a fresh non-zero handle. *)
Definition requestAnimationFrame (cb : Callback) : M Host.t positive :=
  fun h => Some (Host.rafSeq h, Host.enqueue cb h).

(** [cancelAnimationFrame(id)]. *)
Definition cancelAnimationFrame (id : positive) : M Host.t unit :=
  fun h => Some (tt, Host.cancel id h).
End Env.

(** ** 2. Particle *)

Module Particle.
Local Open Scope R_scope.
Local Open Scope js_scope.

Record t : Type := mk {
  x : R;
  y : R;
  originalX : R;
  originalY : R;
  vx : R;
  vy : R;
  size : R;
  opacity : R;
  angle : R;
  amplitude : R;
  frequency : R
}.

(** [new Particle(x, y, config)]. *)
Definition new (x y : R) (config : Config.t) : M Host.t t :=
  let* r1 := Env.random in
  let vx := (r1 - 0.5) * Config.particleSpeed config in
  let* r2 := Env.random in
  let vy := (r2 - 0.5) * Config.particleSpeed config in
  let* r3 := Env.random in
  let size := r3 * Config.particleSize config + 1 in
  let* r4 := Env.random in
  let opacity := r4 * 0.5 + 0.5 in
  let* r5 := Env.random in
  let angle := r5 * PI * 2 in
  let* r6 := Env.random in
  let amplitude := r6 * 20 + 10 in
  let* r7 := Env.random in
  let frequency := r7 * 0.02 + 0.01 in
  ret (mk x y x y vx vy size opacity angle amplitude frequency).

(** The boundary check of [update] on one axis:
    [if (v < 0) v = limit; if (v > limit) v = 0;]. *)
Definition wrap (limit v : R) : R :=
  let v := if JS.lt v 0 then limit else v in
  if JS.gt v limit then 0 else v.

(** The mouse interaction block of [update]: the velocity after the
    repulsion, given the wrapped position. *)
Definition repel (x y vx vy : R) (mouse : Mouse.t) (config : Config.t)
  : option (R * R) :=
  if Config.mouseInteraction config && JS.gt (Mouse.x mouse) (-500) then
    let dx := Mouse.x mouse - x in
    let dy := Mouse.y mouse - y in
    let distance := sqrt (dx * dx + dy * dy) in
    if JS.lt distance (Config.mouseRadius config) then
      force ← JS.div (Config.mouseRadius config - distance)
                     (Config.mouseRadius config);
      let angle := JS.atan2 dy dx in
      Some (vx - cos angle * force * 0.5, vy - sin angle * force * 0.5)
    else Some (vx, vy)
  else Some (vx, vy).

(** [update(canvas, mouse, config)]. *)
Definition update (p : t) (canvas : Canvas.t) (mouse : Mouse.t)
    (config : Config.t) : option t :=
  (* Basic movement *)
  let x := x p + vx p in
  let y := y p + vy p in
  (* Floating effect *)
  let angle := angle p + frequency p in
  let y := y + sin angle * 0.5 in
  (* Boundary checking with wrapping *)
  let x := wrap (Canvas.w canvas) x in
  let y := wrap (Canvas.h canvas) y in
  (* Mouse interaction *)
  v ← repel x y (vx p) (vy p) mouse config;
  (* Apply friction *)
  let vx := fst v * 0.99 in
  let vy := snd v * 0.99 in
  (* Gentle return to original position *)
  let returnForce := 0.001 in
  let vx := vx + (originalX p - x) * returnForce in
  let vy := vy + (originalY p - y) * returnForce in
  Some (mk x y (originalX p) (originalY p) vx vy (size p) (opacity p)
           angle (amplitude p) (frequency p)).

(** [draw(ctx, config)]. *)
Definition draw (p : t) (config : Config.t) : list Ctx.cmd :=
  [ Ctx.beginPath;
    Ctx.arc (x p) (y p) (size p) 0 (PI * 2);
    Ctx.fillStyle
      (JSString.replace (Config.particleColor config) "0.6" (opacity p));
    Ctx.fill;
    (* Add glow effect *)
    Ctx.beginPath;
    Ctx.arc (x p) (y p) (size p * 2) 0 (PI * 2);
    Ctx.fillStyle
      (JSString.replace (Config.particleColor config) "0.6"
                        (opacity p * 0.1));
    Ctx.fill ].
End Particle.

(** ** 3. Geometric particles *)

Module GeometricParticle.
Local Open Scope R_scope.
Local Open Scope js_scope.

Record t : Type := mk {
  base : Particle.t;
  shape : option string;   (* [undefined] when the index is out of range *)
  rotation : R;
  rotationSpeed : R
}.

(** [new GeometricParticle(x, y, config)]. *)
Definition new (x y : R) (config : Config.t) : M Host.t t :=
  let* super := Particle.new x y config in
  let* r1 := Env.random in
  let shape :=
    Config.shapes config
      !! Z.to_nat (JS.floor (r1 * INR (length (Config.shapes config)))) in
  let* r2 := Env.random in
  let rotation := r2 * PI * 2 in
  let* r3 := Env.random in
  let rotationSpeed := (r3 - 0.5) * Config.rotationSpeed config in
  ret (mk super shape rotation rotationSpeed).

(** [update(canvas, mouse, config)]. *)
Definition update (g : t) (canvas : Canvas.t) (mouse : Mouse.t)
    (config : Config.t) : option t :=
  super ← Particle.update (base g) canvas mouse config;
  Some (mk super (shape g) (rotation g + rotationSpeed g) (rotationSpeed g)).

Definition drawTriangle (g : t) : list Ctx.cmd :=
  let size := Particle.size (base g) * 3 in
  [ Ctx.beginPath;
    Ctx.moveTo 0 (- size);
    Ctx.lineTo (- size) size;
    Ctx.lineTo size size;
    Ctx.closePath;
    Ctx.stroke ].

Definition drawSquare (g : t) : list Ctx.cmd :=
  let size := Particle.size (base g) * 2 in
  [ Ctx.beginPath;
    Ctx.rect (- size) (- size) (size * 2) (size * 2);
    Ctx.stroke ].

Definition drawHexagon (g : t) : list Ctx.cmd :=
  let size := Particle.size (base g) * 2.5 in
  let vertex (i : nat) :=
    let angle := INR i * PI / 3 in
    let x := cos angle * size in
    let y := sin angle * size in
    if Nat.eqb i 0 then Ctx.moveTo x y else Ctx.lineTo x y in
  [Ctx.beginPath] ++ List.map vertex (seq 0 6)
    ++ [Ctx.closePath; Ctx.stroke].

(** [draw(ctx, config)]. *)
Definition draw (g : t) (config : Config.t) : list Ctx.cmd :=
  [ Ctx.save;
    Ctx.translate (Particle.x (base g)) (Particle.y (base g));
    Ctx.rotate (rotation g);
    Ctx.strokeStyle
      (JSString.replace (Config.particleColor config) "0.6"
                        (Particle.opacity (base g)));
    Ctx.lineWidth 1 ]
  ++ (match shape g with
      | Some "triangle"%string => drawTriangle g
      | Some "square"%string => drawSquare g
      | Some "hexagon"%string => drawHexagon g
      | _ => []
      end)
  ++ [Ctx.restore].
End GeometricParticle.

(** ** 1. Particle system *)

Module ParticleSystem.
Local Open Scope R_scope.
Local Open Scope js_scope.

(** The class of the object decides which [createParticles] runs. *)
Inductive Class : Type := Plain | Geometric.

(** An element of [this.particles]. *)
Inductive particle : Type :=
| plain (p : Particle.t)
| geometric (g : GeometricParticle.t).

(** The fields every particle has. *)
Definition body (q : particle) : Particle.t :=
  match q with
  | plain p => p
  | geometric g => GeometricParticle.base g
  end.

Record t : Type := mk {
  class : Class;
  self : nat;                      (* the object's address in the heap *)
  container : nat;                 (* the container element *)
  canvas : Canvas.t;
  particles : list particle;
  mouse : Mouse.t;
  animationId : option positive;   (* [null] or a frame handle *)
  config : Config.t;
  mouseListeners : bool            (* mousemove and mouseleave are bound *)
}.

Definition set_canvas (c : Canvas.t) (s : t) : t :=
  mk (class s) (self s) (container s) c (particles s) (mouse s)
     (animationId s) (config s) (mouseListeners s).
Definition set_particles (ps : list particle) (s : t) : t :=
  mk (class s) (self s) (container s) (canvas s) ps (mouse s)
     (animationId s) (config s) (mouseListeners s).
Definition set_mouse (m : Mouse.t) (s : t) : t :=
  mk (class s) (self s) (container s) (canvas s) (particles s) m
     (animationId s) (config s) (mouseListeners s).
Definition set_animationId (a : option positive) (s : t) : t :=
  mk (class s) (self s) (container s) (canvas s) (particles s) (mouse s)
     a (config s) (mouseListeners s).
Definition set_config (c : Config.t) (s : t) : t :=
  mk (class s) (self s) (container s) (canvas s) (particles s) (mouse s)
     (animationId s) c (mouseListeners s).
Definition set_mouseListeners (b : bool) (s : t) : t :=
  mk (class s) (self s) (container s) (canvas s) (particles s) (mouse s)
     (animationId s) (config s) b.

(** The object literal assigned to [this.config] in the constructor:
    defaults first, then the spread of [options] over them. *)
Definition make_config (options : Options.t) : Config.t :=
  Config.mk
    (JS.spread (Options.particleCount options)
               (JS.orZ (Options.particleCount options) 50))
    (JS.spread (Options.particleSize options)
               (JS.orR (Options.particleSize options) 2))
    (JS.spread (Options.particleSpeed options)
               (JS.orR (Options.particleSpeed options) 0.5))
    (JS.spread (Options.connectionDistance options)
               (JS.orR (Options.connectionDistance options) 150))
    (JS.spread (Options.particleColor options)
               (JS.orS (Options.particleColor options)
                       "rgba(46, 204, 113, 0.6)"))
    (JS.spread (Options.connectionColor options)
               (JS.orS (Options.connectionColor options)
                       "rgba(46, 204, 113, 0.2)"))
    (JS.spread (Options.mouseInteraction options)
               (JS.not_false (Options.mouseInteraction options)))
    (JS.spread (Options.mouseRadius options)
               (JS.orR (Options.mouseRadius options) 100))
    (JS.spread (Options.responsive options)
               (JS.not_false (Options.responsive options)))
    (JS.spread (Options.shapes options) [])
    (JS.spread (Options.rotationSpeed options) 0).

(** [resizeCanvas()].  Assigning the size of a canvas clears it. *)
Definition resizeCanvas (s : t) : M Host.t t :=
  let* rect := Env.getBoundingClientRect (container s) in
  let s :=
    set_canvas (Canvas.mk (JS.reflect_unsigned_long 300 (Rect.width rect))
                          (JS.reflect_unsigned_long 150 (Rect.height rect))
                          (Canvas.attached (canvas s)) []) s in
  (* Adjust particle count based on screen size *)
  if Config.responsive (config s) then
    let screenArea := Rect.width rect * Rect.height rect in
    let baseArea := 1920 * 1080 in
    let* q := lift (JS.div screenArea baseArea) in
    let ratio := JS.min q 1 in
    ret (set_config
           (Config.set_particleCount
              (JS.floor (IZR (Config.particleCount (config s)) * ratio))
              (config s)) s)
  else ret s.

(** [createCanvas()]: a fresh canvas element (300 by 150 by default),
    appended to the container, then sized. *)
Definition createCanvas (s : t) : M Host.t t :=
  resizeCanvas (set_canvas (Canvas.mk 300 150 true []) s).

(** The loop of [createParticles]: [n] particles built by [make]. *)
Fixpoint spawn (n : nat) (make : R -> R -> Config.t -> M Host.t particle)
    (canvas : Canvas.t) (config : Config.t) : M Host.t (list particle) :=
  match n with
  | O => ret []
  | S n' =>
      let* rx := Env.random in
      let* ry := Env.random in
      let* p := make (rx * Canvas.w canvas) (ry * Canvas.h canvas) config in
      let* rest := spawn n' make canvas config in
      ret (p :: rest)
  end.

Definition new_particle (c : Class) (x y : R) (config : Config.t)
  : M Host.t particle :=
  match c with
  | Plain => let* p := Particle.new x y config in ret (plain p)
  | Geometric =>
      let* g := GeometricParticle.new x y config in ret (geometric g)
  end.

(** [createParticles()], of [ParticleSystem] and of
    [GeometricParticleSystem]. *)
Definition createParticles (s : t) : M Host.t t :=
  let* ps := spawn (Z.to_nat (Config.particleCount (config s)))
                   (new_particle (class s)) (canvas s) (config s) in
  ret (set_particles ps s).

(** [bindEvents()].  The resize and visibility listeners are always
    bound; the pointer listeners only with [mouseInteraction]. *)
Definition bindEvents (s : t) : M Host.t t :=
  ret (set_mouseListeners (Config.mouseInteraction (config s)) s).

(** One pair of the double loop of [drawConnections]. *)
Definition connect (config : Config.t) (a b : Particle.t)
  : option (list Ctx.cmd) :=
  let dx := Particle.x a - Particle.x b in
  let dy := Particle.y a - Particle.y b in
  let distance := sqrt (dx * dx + dy * dy) in
  if JS.lt distance (Config.connectionDistance config) then
    opacity ← JS.div (Config.connectionDistance config - distance)
                     (Config.connectionDistance config);
    Some [ Ctx.beginPath;
           Ctx.strokeStyle
             (JSString.replace (Config.connectionColor config) "0.2"
                               (opacity * 0.2));
           Ctx.lineWidth 1;
           Ctx.moveTo (Particle.x a) (Particle.y a);
           Ctx.lineTo (Particle.x b) (Particle.y b);
           Ctx.stroke ]
  else Some [].

(** The inner loop: particle [a] against every later particle. *)
Fixpoint connect_from (config : Config.t) (a : Particle.t)
    (later : list particle) : option (list Ctx.cmd) :=
  match later with
  | [] => Some []
  | b :: later' =>
      c ← connect config a (body b);
      cs ← connect_from config a later';
      Some (c ++ cs)
  end.

(** [drawConnections()]. *)
Fixpoint drawConnections (config : Config.t) (ps : list particle)
  : option (list Ctx.cmd) :=
  match ps with
  | [] => Some []
  | a :: later =>
      c ← connect_from config (body a) later;
      cs ← drawConnections config later;
      Some (c ++ cs)
  end.

(** [particle.update(...)] and [particle.draw(...)], dispatched on the
    particle's class. *)
Definition update (q : particle) (canvas : Canvas.t) (mouse : Mouse.t)
    (config : Config.t) : option particle :=
  match q with
  | plain p => plain <$> Particle.update p canvas mouse config
  | geometric g => geometric <$> GeometricParticle.update g canvas mouse config
  end.

Definition draw (q : particle) (config : Config.t) : list Ctx.cmd :=
  match q with
  | plain p => Particle.draw p config
  | geometric g => GeometricParticle.draw g config
  end.

(** The [forEach] of [animate]: update then draw, particle by particle. *)
Fixpoint update_and_draw (ps : list particle) (canvas : Canvas.t)
    (mouse : Mouse.t) (config : Config.t)
  : option (list particle * list Ctx.cmd) :=
  match ps with
  | [] => Some ([], [])
  | q :: ps' =>
      q' ← update q canvas mouse config;
      r ← update_and_draw ps' canvas mouse config;
      Some (q' :: fst r, draw q' config ++ snd r)
  end.

(** [animate()]: clear, update and draw, connect, request the next
    frame. *)
Definition animate (s : t) : M Host.t t :=
  let* r := lift (update_and_draw (particles s) (canvas s) (mouse s)
                                  (config s)) in
  let* lines := lift (drawConnections (config s) (fst r)) in
  let* id := Env.requestAnimationFrame (Animate (self s)) in
  ret (set_animationId (Some id)
         (set_canvas (Canvas.mk (Canvas.width (canvas s))
                                (Canvas.height (canvas s))
                                (Canvas.attached (canvas s))
                                (snd r ++ lines))
            (set_particles (fst r) s))).

(** [pause()]. *)
Definition pause (s : t) : M Host.t t :=
  match animationId s with
  | Some id =>
      let* _ := Env.cancelAnimationFrame id in
      ret (set_animationId None s)
  | None => ret s
  end.

(** [resume()]. *)
Definition resume (s : t) : M Host.t t :=
  match animationId s with
  | None => animate s
  | Some _ => ret s
  end.

(** [destroy()]. *)
Definition destroy (s : t) : M Host.t t :=
  let* s := pause s in
  if Canvas.attached (canvas s) then
    ret (set_canvas (Canvas.mk (Canvas.width (canvas s))
                               (Canvas.height (canvas s)) false
                               (Canvas.painted (canvas s))) s)
  else ret s.

(** [init()]. *)
Definition init (s : t) : M Host.t t :=
  let* s := createCanvas s in
  let* s := createParticles s in
  let* s := bindEvents s in
  animate s.

(** [new ParticleSystem(container, options)], allocated at [self]. *)
Definition new (self container : nat) (options : Options.t) : M Host.t t :=
  init (mk Plain self container (Canvas.mk 0 0 false []) []
           (Mouse.mk 0 0) None (make_config options) false).

(** The listeners of [bindEvents]. *)
Definition on_mousemove (clientX clientY : R) (s : t) : M Host.t t :=
  let* rect := Env.getBoundingClientRect (container s) in
  ret (set_mouse (Mouse.mk (clientX - Rect.left rect)
                           (clientY - Rect.top rect)) s).

Definition on_mouseleave (s : t) : M Host.t t :=
  ret (set_mouse (Mouse.mk (-1000) (-1000)) s).

Definition on_resize (s : t) : M Host.t t :=
  let* s := resizeCanvas s in
  createParticles s.

Definition on_visibilitychange (hidden : bool) (s : t) : M Host.t t :=
  if hidden then pause s else resume s.
End ParticleSystem.

Module GeometricParticleSystem.
Local Open Scope R_scope.

(** The object literal passed to [super]:
    [{ particleCount: 30, shapes: [...], rotationSpeed: 0.02, ...options }]. *)
Definition super_options (options : Options.t) : Options.t :=
  Options.mk
    (Some (JS.spread (Options.particleCount options) 30%Z))
    (Options.particleSize options)
    (Options.particleSpeed options)
    (Options.connectionDistance options)
    (Options.particleColor options)
    (Options.connectionColor options)
    (Options.mouseInteraction options)
    (Options.mouseRadius options)
    (Options.responsive options)
    (Some (JS.spread (Options.shapes options)
                     ["triangle"; "square"; "hexagon"]%string))
    (Some (JS.spread (Options.rotationSpeed options) 0.02)).

(** [new GeometricParticleSystem(container, options)]. *)
Definition new (self container : nat) (options : Options.t)
  : M Host.t ParticleSystem.t :=
  ParticleSystem.init
    (ParticleSystem.mk ParticleSystem.Geometric self container
       (Canvas.mk 0 0 false []) [] (Mouse.mk 0 0) None
       (ParticleSystem.make_config (super_options options)) false).
End GeometricParticleSystem.

(** ** The page: heap, registry and governor state *)

(** What the document and the navigator report when the page has loaded. *)
Module Document.
Record t : Type := mk {
  reducedMotion : bool;            (* prefers-reduced-motion: reduce *)
  context2d : bool;                (* [getContext('2d')] is not null *)
  innerWidth : R;
  deviceMemory : option R;
  effectiveType : option string;   (* of [navigator.connection] *)
  heroSections : list nat;         (* .hero-section, .hero-banner *)
  particleSections : list (nat * string)   (* [data-particles] and value *)
}.
End Document.

Module Page.
Record t : Type := mk {
  host : Host.t;
  heap : list ParticleSystem.t;        (* every system constructed *)
  systems : list (string * nat);       (* [ParticleManager.systems] *)
  isHighPerformance : bool;            (* of [PerformanceManager] *)
  frames : Z;                          (* closure of [monitorFrameRate] *)
  lastTime : R
}.

Definition set_host (h : Host.t) (w : t) : t :=
  mk h (heap w) (systems w) (isHighPerformance w) (frames w) (lastTime w).
Definition set_heap (l : list ParticleSystem.t) (w : t) : t :=
  mk (host w) l (systems w) (isHighPerformance w) (frames w) (lastTime w).
Definition set_systems (m : list (string * nat)) (w : t) : t :=
  mk (host w) (heap w) m (isHighPerformance w) (frames w) (lastTime w).
Definition set_isHighPerformance (b : bool) (w : t) : t :=
  mk (host w) (heap w) (systems w) b (frames w) (lastTime w).
Definition set_monitor (n : Z) (time : R) (w : t) : t :=
  mk (host w) (heap w) (systems w) (isHighPerformance w) n time.

Definition get : M t t := fun w => Some (w, w).
Definition modify (f : t -> t) : M t unit := fun w => Some (tt, f w).

(** A host service called from page level. *)
Definition on_host {A} (m : M Host.t A) : M t A :=
  fun w => match m (host w) with
           | Some (a, h) => Some (a, set_host h w)
           | None => None
           end.

(** A method [f] called on the object at address [i]. *)
Definition at_ (i : nat) (f : ParticleSystem.t -> M Host.t ParticleSystem.t)
  : M t unit :=
  fun w => match heap w !! i with
           | Some s =>
               match f s (host w) with
               | Some (s', h) => Some (tt, set_heap (<[i := s']> (heap w))
                                                     (set_host h w))
               | None => None
               end
           | None => None
           end.

(** [new C(...)]: the object is allocated at the end of the heap. *)
Definition alloc (ctor : nat -> M Host.t ParticleSystem.t) : M t nat :=
  fun w => match ctor (length (heap w)) (host w) with
           | Some (s, h) => Some (length (heap w),
                                  set_heap (heap w ++ [s]) (set_host h w))
           | None => None
           end.

Local Open Scope js_scope.

(** [forEach]. *)
Fixpoint for_each {A} (l : list A) (f : A -> M t unit) : M t unit :=
  match l with
  | [] => ret tt
  | a :: l' => let* _ := f a in for_each l' f
  end.

(** Every object of the heap, in order of construction: the order in
    which listeners of one event were registered. *)
Definition every (f : ParticleSystem.t -> M Host.t ParticleSystem.t)
  : M t unit :=
  let* w := get in
  for_each (seq 0 (length (heap w))) (fun i => at_ i f).
End Page.

(** ** 4. Particle manager *)

Module ParticleManager.
Local Open Scope R_scope.
Local Open Scope js_scope.

(** [Map.prototype.set]: insertion order is kept, an existing key keeps
    its place. *)
Fixpoint set (key : string) (v : nat) (m : list (string * nat))
  : list (string * nat) :=
  match m with
  | [] => [(key, v)]
  | (k, v') :: m' =>
      if String.eqb k key then (key, v) :: m' else (k, v') :: set key v m'
  end.

(** The template literals [`hero-${index}`] and [`section-${index}`]. *)
Definition numbered (prefix : string) (index : nat) : string :=
  (prefix ++ DecimalString.NilZero.string_of_uint (Nat.to_uint index))%string.

Definition hero_options (innerWidth : R) : Options.t :=
  Options.mk
    (Some (if JS.gt innerWidth 768 then 60%Z else 30%Z))
    (Some 3) (Some 0.3) (Some 120)
    (Some "rgba(46, 204, 113, 0.8)"%string)
    (Some "rgba(46, 204, 113, 0.15)"%string)
    None (Some 120) None None None.

(** [initHeroParticles()]. *)
Definition initHeroParticles (doc : Document.t) : M Page.t unit :=
  Page.for_each
    (combine (seq 0 (length (Document.heroSections doc)))
             (Document.heroSections doc))
    (fun '(index, section) =>
       let options := hero_options (Document.innerWidth doc) in
       let* system :=
         Page.alloc (fun self => ParticleSystem.new self section options) in
       Page.modify (fun w => Page.set_systems
                               (set (numbered "hero-" index) system
                                    (Page.systems w)) w)).

(** [getOptionsForType(type)]. *)
Definition getOptionsForType (innerWidth : R) (type : string) : Options.t :=
  let baseCount := if JS.gt innerWidth 768 then 40%Z else 20%Z in
  match type with
  | "subtle"%string =>
      Options.mk (Some 25%Z) None (Some 0.2) None
                 (Some "rgba(148, 163, 184, 0.4)"%string)
                 (Some "rgba(148, 163, 184, 0.1)"%string)
                 (Some true) None None None None
  | "geometric"%string =>
      Options.mk (Some 20%Z) None None None
                 (Some "rgba(46, 204, 113, 0.6)"%string) None
                 (Some true) None None
                 (Some ["triangle"; "square"; "hexagon"]%string)
                 (Some 0.01)
  | "floating"%string =>
      Options.mk (Some baseCount) None (Some 0.1) (Some 80)
                 (Some "rgba(255, 255, 255, 0.6)"%string) None
                 (Some true) (Some 80) None None None
  | _ =>
      Options.mk (Some baseCount) None None None None None
                 (Some true) None None None None
  end.

(** [initSectionParticles()]. *)
Definition initSectionParticles (doc : Document.t) : M Page.t unit :=
  Page.for_each
    (combine (seq 0 (length (Document.particleSections doc)))
             (Document.particleSections doc))
    (fun '(index, (section, attribute)) =>
       let type := JS.orS (Some attribute) "default" in
       let options := getOptionsForType (Document.innerWidth doc) type in
       let* system :=
         (if String.eqb type "geometric"
          then Page.alloc (fun self =>
                 GeometricParticleSystem.new self section options)
          else Page.alloc (fun self =>
                 ParticleSystem.new self section options)) in
       Page.modify (fun w => Page.set_systems
                               (set (numbered "section-" index) system
                                    (Page.systems w)) w)).

(** [init()]. *)
Definition init (doc : Document.t) : M Page.t unit :=
  let* _ := initHeroParticles doc in
  initSectionParticles doc.

(** [systems.forEach(system => f(system))]. *)
Definition forEach (f : ParticleSystem.t -> M Host.t ParticleSystem.t)
  : M Page.t unit :=
  let* w := Page.get in
  Page.for_each (Page.systems w) (fun e => Page.at_ (snd e) f).

Definition pauseAll : M Page.t unit := forEach ParticleSystem.pause.
Definition resumeAll : M Page.t unit := forEach ParticleSystem.resume.
Definition destroyAll : M Page.t unit :=
  let* _ := forEach ParticleSystem.destroy in
  Page.modify (Page.set_systems []).
End ParticleManager.

(** ** 5. Performance utilities *)

Module PerformanceManager.
Local Open Scope R_scope.
Local Open Scope js_scope.

(** [detectPerformance()]: the value it leaves in [isHighPerformance]. *)
Definition detectPerformance (doc : Document.t) (flag : bool) : bool :=
  if negb (Document.context2d doc) || JS.lt (Document.innerWidth doc) 768
  then false
  else
    (* Check device memory if available *)
    let flag :=
      match Document.deviceMemory doc with
      | Some m => if JS.truthy m && JS.lt m 4 then false else flag
      | None => flag
      end in
    (* Check connection speed *)
    let flag :=
      match Document.effectiveType doc with
      | Some e => if String.eqb e "slow-2g" then false else flag
      | None => flag
      end in
    flag.

(** The arrow function of [optimizeParticles], applied to one system. *)
Definition shrink (system : ParticleSystem.t) : M Host.t ParticleSystem.t :=
  let system :=
    ParticleSystem.set_config
      (Config.set_particleCount
         (JS.floor
            (IZR (Config.particleCount (ParticleSystem.config system))
             * 0.6))
         (ParticleSystem.config system)) system in
  ParticleSystem.createParticles system.

(** [optimizeParticles()]. *)
Definition optimizeParticles : M Page.t unit :=
  ParticleManager.forEach shrink.

(** The closure [checkFrameRate], run at time [currentTime]. *)
Definition checkFrameRate (currentTime : R) : M Page.t unit :=
  let* _ := Page.modify (fun w =>
              Page.set_monitor (Page.frames w + 1) (Page.lastTime w) w) in
  let* w := Page.get in
  let* _ :=
    (if JS.ge (currentTime - Page.lastTime w) 1000 then
       let fps := Page.frames w in
       let* _ := Page.modify (Page.set_monitor 0 currentTime) in
       (* Adjust particle systems based on FPS *)
       if (fps <? 30)%Z && Page.isHighPerformance w then
         let* _ := Page.modify (Page.set_isHighPerformance false) in
         optimizeParticles
       else ret tt
     else ret tt) in
  let* _ := Page.on_host (Env.requestAnimationFrame CheckFrameRate) in
  ret tt.

(** [monitorFrameRate()], called at time [now]. *)
Definition monitorFrameRate (now : R) : M Page.t unit :=
  let* _ := Page.modify (Page.set_monitor 0 now) in
  let* _ := Page.on_host (Env.requestAnimationFrame CheckFrameRate) in
  ret tt.

(** [init()]. *)
Definition init (doc : Document.t) (now : R) : M Page.t unit :=
  let* _ := Page.modify (fun w =>
              Page.set_isHighPerformance
                (detectPerformance doc (Page.isHighPerformance w)) w) in
  monitorFrameRate now.
End PerformanceManager.

(** ** 6. Initialization and the events of the page *)

Module Events.
Local Open Scope R_scope.
Local Open Scope js_scope.

(** The state when the script has been evaluated: nothing constructed,
    no frame requested. *)
Definition loaded (entropy : nat -> R) (layout : nat -> Rect.t) : Page.t :=
  Page.mk (Host.mk entropy 0 layout 1 []) [] [] true 0 0.

(** The [DOMContentLoaded] listener. *)
Definition DOMContentLoaded (doc : Document.t) (now : R) : M Page.t unit :=
  (* Check for reduced motion preference *)
  if Document.reducedMotion doc then ret tt
  else
    (* Initialize performance manager *)
    let* _ := PerformanceManager.init doc now in
    (* Initialize particles only if performance allows *)
    let* w := Page.get in
    if Page.isHighPerformance w then ParticleManager.init doc else ret tt.

Inductive event : Type :=
(* delivered by the host *)
| frame (now : R)                         (* one animation frame *)
| resize (layout : nat -> Rect.t)         (* the window was resized *)
| visibilitychange (hidden : bool)
| mousemove (target : nat) (clientX clientY : R)
| mouseleave (target : nat)
| beforeunload
(* calls of other scripts through the names exported on [window] *)
| call_new (container : nat) (options : Options.t)
| call_pause (system : nat)
| call_resume (system : nat)
| call_destroy (system : nat)
| call_pauseAll
| call_resumeAll
| call_destroyAll.

(** One callback of the frame. *)
Definition run_callback (now : R) (cb : Callback) : M Page.t unit :=
  match cb with
  | Animate self => Page.at_ self ParticleSystem.animate
  | CheckFrameRate => PerformanceManager.checkFrameRate now
  end.

(** An animation frame: the requests pending when it starts are taken
    off the queue and run in the order they were made. *)
Definition run_frame (now : R) : M Page.t unit :=
  let* w := Page.get in
  let* _ := Page.modify (Page.set_host
                           (Host.set_rafQueue [] (Page.host w))) in
  Page.for_each (Host.rafQueue (Page.host w))
                (fun e => run_callback now (snd e)).

(** The pointer listeners exist on the systems that bound them, and
    hear the events of their own container. *)
Definition hears (target : nat) (s : ParticleSystem.t) : bool :=
  ParticleSystem.mouseListeners s
  && Nat.eqb (ParticleSystem.container s) target.

Definition pointer_moved (target : nat) (clientX clientY : R)
    (s : ParticleSystem.t) : M Host.t ParticleSystem.t :=
  if hears target s then ParticleSystem.on_mousemove clientX clientY s
  else ret s.

Definition pointer_left (target : nat) (s : ParticleSystem.t)
  : M Host.t ParticleSystem.t :=
  if hears target s then ParticleSystem.on_mouseleave s else ret s.

(** The listeners of an event, in order of registration. *)
Definition step (e : event) : M Page.t unit :=
  match e with
  | frame now => run_frame now
  | resize layout =>
      let* _ := Page.modify (fun w =>
                  Page.set_host (Host.set_layout layout (Page.host w)) w) in
      Page.every ParticleSystem.on_resize
  | visibilitychange hidden =>
      (* Handle page visibility *)
      let* _ := (if hidden then ParticleManager.pauseAll
                 else ParticleManager.resumeAll) in
      (* Pause animation when page is not visible *)
      Page.every (ParticleSystem.on_visibilitychange hidden)
  | mousemove target clientX clientY =>
      Page.every (pointer_moved target clientX clientY)
  | mouseleave target => Page.every (pointer_left target)
  | beforeunload => ParticleManager.destroyAll
  | call_new container options =>
      let* _ := Page.alloc (fun self =>
                  ParticleSystem.new self container options) in
      ret tt
  | call_pause i => Page.at_ i ParticleSystem.pause
  | call_resume i => Page.at_ i ParticleSystem.resume
  | call_destroy i => Page.at_ i ParticleSystem.destroy
  | call_pauseAll => ParticleManager.pauseAll
  | call_resumeAll => ParticleManager.resumeAll
  | call_destroyAll => ParticleManager.destroyAll
  end.

(** The states the page can be in. *)
Inductive reachable : Page.t -> Prop :=
| reach_loaded entropy layout :
    reachable (loaded entropy layout)
| reach_ready entropy layout doc now w' :
    DOMContentLoaded doc now (loaded entropy layout) = Some (tt, w') ->
    reachable w'
| reach_step w e w' :
    reachable w ->
    step e w = Some (tt, w') ->
    reachable w'.
End Events.

(** * Vocabulary of the properties, and sample inputs *)

Module Sample.
Local Open Scope R_scope.

(** A CSS colour [rgba(<channels>, <alpha>)] whose alpha is the number
    [alpha]. *)
Definition rgba (channels : string) (alpha : R) : JSString.t :=
  [ JSString.Lit ("rgba(" ++ channels ++ ", ")%string;
    JSString.Num alpha;
    JSString.Lit ")"%string ].

(** The configuration of a hero section on a wide window. *)
Definition hero_config : Config.t :=
  ParticleSystem.make_config (ParticleManager.hero_options 1920).

(** The scaling of [resizeCanvas], applied to a count:
    [Math.floor(count * Math.min(screenArea / baseArea, 1))]. *)
Definition rescaled (count : Z) (rect : Rect.t) : Z :=
  JS.floor (IZR count
            * JS.min (Rect.width rect * Rect.height rect / (1920 * 1080)) 1).

(** The count [resizeCanvas] leaves in a configuration. *)
Definition resized_count (config : Config.t) (rect : Rect.t) : Z :=
  if Config.responsive config
  then rescaled (Config.particleCount config) rect
  else Config.particleCount config.

(** The canvas after [resizeCanvas]. *)
Definition resized_canvas (canvas : Canvas.t) (rect : Rect.t) : Canvas.t :=
  Canvas.mk (JS.reflect_unsigned_long 300 (Rect.width rect))
            (JS.reflect_unsigned_long 150 (Rect.height rect))
            (Canvas.attached canvas) [].

(** A host whose containers all measure [width] by [height], with no
    frame requested. *)
Definition host (width height : R) : Host.t :=
  Host.mk (fun _ => 0) 0 (fun _ => Rect.mk 0 0 width height) 1 [].

(** The options [{ particleCount: n }]. *)
Definition count_only (n : Z) : Options.t :=
  Options.mk (Some n) None None None None None None None None None None.

(** A particle resting at [(x, y)] with the given opacity. *)
Definition still (x y opacity : R) : Particle.t :=
  Particle.mk x y x y 0 0 1 opacity 0 10 0.01.
End Sample.

(** Frame requests, and the states in which they are accounted for. *)
Module Frames.

(** The handles of the pending requests that will run [animate] of the
    system at address [i]. *)
Fixpoint outstanding (i : nat) (q : list (positive * Callback))
  : list positive :=
  match q with
  | [] => []
  | (id, Animate j) :: q' =>
      if Nat.eqb j i then id :: outstanding i q' else outstanding i q'
  | (_, CheckFrameRate) :: q' => outstanding i q'
  end.

(** The object at address [i] knows its address, and the handle it holds
    is the one request pending for it. *)
Definition tracked (q : list (positive * Callback)) (i : nat)
    (s : ParticleSystem.t) : Prop :=
  ParticleSystem.self s = i /\
  outstanding i q = option_list (ParticleSystem.animationId s).

(** The requests [q] account for the page [w]: every object is tracked,
    handles are distinct and older than the next one, and callbacks and
    registry entries point into the heap. *)
Record accounted (q : list (positive * Callback)) (w : Page.t) : Prop := {
  acc_objects : forall i s, Page.heap w !! i = Some s -> tracked q i s;
  acc_fresh :
    Forall (fun e => (fst e < Host.rafSeq (Page.host w))%positive) q;
  acc_nodup : NoDup (fst <$> q);
  acc_targets : forall id i,
    (id, Animate i) ∈ q -> (i < length (Page.heap w))%nat;
  acc_registry : forall e,
    e ∈ Page.systems w -> (snd e < length (Page.heap w))%nat;
  acc_registry_nodup : NoDup (snd <$> Page.systems w)
}.

(** A page in the middle of a frame, with the callbacks [rest] of the
    frame still to run. *)
Definition wf_with (rest : list (positive * Callback)) (w : Page.t) : Prop :=
  accounted (rest ++ Host.rafQueue (Page.host w)) w.

(** The requests [q] account for the page while its own queue is [q0]. *)
Definition settled (q q0 : list (positive * Callback)) (w : Page.t) : Prop :=
  accounted q w /\ Host.rafQueue (Page.host w) = q0.

(** An event whose target exists. *)
Definition enabled (e : Events.event) (w : Page.t) : Prop :=
  match e with
  | Events.call_pause i | Events.call_resume i | Events.call_destroy i =>
      (i < length (Page.heap w))%nat
  | _ => True
  end.

(** A page between two events. *)
Definition wf (w : Page.t) : Prop :=
  accounted (Host.rafQueue (Page.host w)) w.

(** Every object of [w] is still there in [w'], related by [R]. *)
Definition heap_rel (R : ParticleSystem.t -> ParticleSystem.t -> Prop)
    (w w' : Page.t) : Prop :=
  forall i s, Page.heap w !! i = Some s ->
              exists s', Page.heap w' !! i = Some s' /\ R s s'.

(** A method relates the object it is called on to the object it
    leaves by [R]. *)
Definition respects (R : ParticleSystem.t -> ParticleSystem.t -> Prop)
    (f : ParticleSystem.t -> M Host.t ParticleSystem.t) : Prop :=
  forall s h s' h', f s h = Some (s', h') -> R s s'.

(** A method that always returns, and touches neither the identity of
    the object, nor its frame handle, nor the frame requests. *)
Definition quiet (f : ParticleSystem.t -> M Host.t ParticleSystem.t) : Prop :=
  forall s h, exists s' k,
    f s h = Some (s', Host.advance k h) /\
    ParticleSystem.self s' = ParticleSystem.self s /\
    ParticleSystem.animationId s' = ParticleSystem.animationId s.

(** [w'] has the objects of [w] at the same addresses, and the same
    registry. *)
Definition same_shape (w w' : Page.t) : Prop :=
  length (Page.heap w') = length (Page.heap w) /\
  Page.systems w' = Page.systems w.

(** The page [w] has evolved into [w']: its objects are still there,
    related by [R], and a lowered performance flag has stayed low. *)
Definition evolves (R : ParticleSystem.t -> ParticleSystem.t -> Prop)
    (w w' : Page.t) : Prop :=
  heap_rel R w w' /\
  (Page.isHighPerformance w = false -> Page.isHighPerformance w' = false).

(** A page computation under which pages only evolve. *)
Definition steady {A} (R : ParticleSystem.t -> ParticleSystem.t -> Prop)
    (m : M Page.t A) : Prop :=
  forall w0 w a w', evolves R w0 w -> m w = Some (a, w') -> evolves R w0 w'.

(** The methods the listeners of an event may call on a system. *)
Definition methods_of (e : Events.event)
  : list (ParticleSystem.t -> M Host.t ParticleSystem.t) :=
  match e with
  | Events.frame _ => [ParticleSystem.animate; PerformanceManager.shrink]
  | Events.resize _ => [ParticleSystem.on_resize]
  | Events.visibilitychange hidden =>
      [ParticleSystem.pause; ParticleSystem.resume;
       ParticleSystem.on_visibilitychange hidden]
  | Events.mousemove target clientX clientY =>
      [Events.pointer_moved target clientX clientY]
  | Events.mouseleave target => [Events.pointer_left target]
  | Events.beforeunload | Events.call_destroyAll => [ParticleSystem.destroy]
  | Events.call_new _ _ => []
  | Events.call_pause _ | Events.call_pauseAll => [ParticleSystem.pause]
  | Events.call_resume _ | Events.call_resumeAll => [ParticleSystem.resume]
  | Events.call_destroy _ => [ParticleSystem.destroy]
  end.

(** The configuration [c'] is [c] up to the particle count. *)
Definition frozen (c c' : Config.t) : Prop :=
  c' = Config.set_particleCount (Config.particleCount c') c.

Definition config_frozen (s s' : ParticleSystem.t) : Prop :=
  frozen (ParticleSystem.config s) (ParticleSystem.config s').

Definition mouse_kept (s s' : ParticleSystem.t) : Prop :=
  ParticleSystem.mouse s' = ParticleSystem.mouse s.

(** What no method but the pointer listeners changes. *)
Definition kept (s s' : ParticleSystem.t) : Prop :=
  mouse_kept s s' /\ config_frozen s s'.

(** The events that are not pointer events. *)
Definition pointerless (e : Events.event) : Prop :=
  match e with
  | Events.mousemove _ _ _ | Events.mouseleave _ => False
  | _ => True
  end.

(** A run of events. *)
Fixpoint run (es : list Events.event) : M Page.t unit :=
  match es with
  | [] => ret tt
  | e :: es' => bind (Events.step e) (fun _ => run es')
  end.

(** The configuration after the mitigation of the governor:
    [config.particleCount = Math.floor(config.particleCount * 0.6)]. *)
Definition mitigated (c : Config.t) : Config.t :=
  Config.set_particleCount (JS.floor (IZR (Config.particleCount c) * 0.6)) c.

(** The configuration was left as it is, or only mitigated, or left as
    it is where responsive scaling is off. *)
Definition config_same (s s' : ParticleSystem.t) : Prop :=
  ParticleSystem.config s' = ParticleSystem.config s.

Definition config_mitigated (s s' : ParticleSystem.t) : Prop :=
  exists n : nat,
    ParticleSystem.config s' = Nat.iter n mitigated (ParticleSystem.config s).

Definition config_fixed (s s' : ParticleSystem.t) : Prop :=
  Config.responsive (ParticleSystem.config s) = false ->
  ParticleSystem.config s' = ParticleSystem.config s.

(** The events that are not a resize, those that are not an animation
    frame, and those that are neither. *)
Definition resizeless (e : Events.event) : Prop :=
  match e with
  | Events.resize _ => False
  | _ => True
  end.

Definition frameless (e : Events.event) : Prop :=
  match e with
  | Events.frame _ => False
  | _ => True
  end.

Definition still (e : Events.event) : Prop :=
  match e with
  | Events.frame _ | Events.resize _ => False
  | _ => True
  end.
End Frames.

(** Sample pages. *)
Module SamplePage.
Local Open Scope R_scope.

(** The default configuration with ten particles. *)
Definition idle_config : Config.t :=
  Config.mk 10 2 0.5 150 "rgba(46, 204, 113, 0.6)"
            "rgba(46, 204, 113, 0.2)" true 100 true [] 0.

(** A paused system with no particle built yet. *)
Definition idle_system : ParticleSystem.t :=
  ParticleSystem.mk ParticleSystem.Plain 0 0 (Canvas.mk 960 540 true []) []
                    (Mouse.mk 0 0) None idle_config true.

(** A page holding that system, registered as the first hero section;
    the governor has counted no frame yet. *)
Definition idle_page : Page.t :=
  Page.mk (Sample.host 960 540) [idle_system] [("hero-0"%string, 0%nat)]
          true 0 0.

(** The options [{ particleCount: 0, responsive: false }]. *)
Definition fixed_options : Options.t :=
  Options.mk (Some 0%Z) None None None None None None None (Some false)
             None None.

(** The system and the page after
    [new ParticleSystem(container, fixed_options)] on a freshly loaded
    page. *)
Definition started_system : ParticleSystem.t :=
  ParticleSystem.mk ParticleSystem.Plain 0 0
    (Canvas.mk (JS.reflect_unsigned_long 300 960)
               (JS.reflect_unsigned_long 150 540) true [])
    [] (Mouse.mk 0 0) (Some 1%positive)
    (ParticleSystem.make_config fixed_options) true.

Definition started : Page.t :=
  Page.mk
    (Host.mk (fun _ => 0) 0 (fun _ => Rect.mk 0 0 960 540) 2
             [(1%positive, Animate 0)])
    [started_system] [] true 0 0.

(** A configuration whose two thresholds are zero. *)
Definition zero_config : Config.t :=
  Config.mk 10 2 0.5 0 "rgba(46, 204, 113, 0.6)"
            "rgba(46, 204, 113, 0.2)" true 0 true [] 0.
End SamplePage.

(** Properties of the objects of a page, and the pages on which they hold
    of every object. *)
Module Invariants.
Local Open Scope R_scope.

(** The values [Math.random] returns lie in [[0, 1)]. *)
Definition fair (entropy : nat -> R) : Prop :=
  forall n, 0 <= entropy n < 1.

(** A position inside the canvas. *)
Definition inside (c : Canvas.t) (p : Particle.t) : Prop :=
  0 <= Particle.x p <= Canvas.w c /\ 0 <= Particle.y p <= Canvas.h c.

(** The system holds as many particles as its configuration counts. *)
Definition stocked (s : ParticleSystem.t) : Prop :=
  length (ParticleSystem.particles s)
  = Z.to_nat (Config.particleCount (ParticleSystem.config s)).

(** Every particle of the system is inside its canvas. *)
Definition contained (s : ParticleSystem.t) : Prop :=
  Forall (fun q => inside (ParticleSystem.canvas s) (ParticleSystem.body q))
         (ParticleSystem.particles s).

(** The pointer listeners are bound exactly with [mouseInteraction], and
    without them the pointer is where the constructor left it. *)
Definition listening (s : ParticleSystem.t) : Prop :=
  ParticleSystem.mouseListeners s
  = Config.mouseInteraction (ParticleSystem.config s) /\
  (Config.mouseInteraction (ParticleSystem.config s) = false ->
   ParticleSystem.mouse s = Mouse.mk 0 0).

(** A method keeps [P] of the object, and [G] of the random stream. *)
Definition sound (G : (nat -> R) -> Prop) (P : ParticleSystem.t -> Prop)
    (f : ParticleSystem.t -> M Host.t ParticleSystem.t) : Prop :=
  forall s h s' h',
    G (Host.entropy h) -> P s -> f s h = Some (s', h') ->
    P s' /\ G (Host.entropy h').

(** A constructor builds an object with [P]. *)
Definition founding (G : (nat -> R) -> Prop) (P : ParticleSystem.t -> Prop)
    (ctor : nat -> M Host.t ParticleSystem.t) : Prop :=
  forall self h s' h',
    G (Host.entropy h) -> ctor self h = Some (s', h') ->
    P s' /\ G (Host.entropy h').

(** [P] holds of every object of the page. *)
Definition holds (G : (nat -> R) -> Prop) (P : ParticleSystem.t -> Prop)
    (w : Page.t) : Prop :=
  G (Host.entropy (Page.host w)) /\ Forall P (Page.heap w).

(** A page computation that keeps it so. *)
Definition maintains {A} (G : (nat -> R) -> Prop)
    (P : ParticleSystem.t -> Prop) (m : M Page.t A) : Prop :=
  forall w a w', holds G P w -> m w = Some (a, w') -> holds G P w'.

(** The object a constructor hands to [init]. *)
Definition blank (c : ParticleSystem.Class) (self container : nat)
    (config : Config.t) : ParticleSystem.t :=
  ParticleSystem.mk c self container (Canvas.mk 0 0 false []) []
                    (Mouse.mk 0 0) None config false.

(** A method that leaves the random stream as it is. *)
Definition conserving (f : ParticleSystem.t -> M Host.t ParticleSystem.t)
  : Prop :=
  forall s h s' h', f s h = Some (s', h') -> Host.entropy h' = Host.entropy h.

(** A method that keeps [P] of the object, from a random stream with
    [G]. *)
Definition keeps (G : (nat -> R) -> Prop) (P : ParticleSystem.t -> Prop)
    (f : ParticleSystem.t -> M Host.t ParticleSystem.t) : Prop :=
  forall s h s' h',
    G (Host.entropy h) -> P s -> f s h = Some (s', h') -> P s'.

(** Nothing is asked of the random stream. *)
Definition any_stream (entropy : nat -> R) : Prop := True.

(** The methods of the model. *)
Inductive method : (ParticleSystem.t -> M Host.t ParticleSystem.t) -> Prop :=
| m_animate : method ParticleSystem.animate
| m_pause : method ParticleSystem.pause
| m_resume : method ParticleSystem.resume
| m_destroy : method ParticleSystem.destroy
| m_on_resize : method ParticleSystem.on_resize
| m_on_visibilitychange hidden :
    method (ParticleSystem.on_visibilitychange hidden)
| m_shrink : method PerformanceManager.shrink
| m_pointer_moved target clientX clientY :
    method (Events.pointer_moved target clientX clientY)
| m_pointer_left target : method (Events.pointer_left target).

(** The particles an instance will build: its count, or none if the
    count is negative. *)
Definition density (s : ParticleSystem.t) : Z :=
  Z.max 0 (Config.particleCount (ParticleSystem.config s)).

Definition thinner (s s' : ParticleSystem.t) : Prop :=
  (density s' <= density s)%Z.

(** How often a command occurs in what was drawn. *)
Definition is_stroke (c : Ctx.cmd) : bool :=
  match c with Ctx.stroke => true | _ => false end.
Definition is_fill (c : Ctx.cmd) : bool :=
  match c with Ctx.fill => true | _ => false end.
Definition is_save (c : Ctx.cmd) : bool :=
  match c with Ctx.save => true | _ => false end.
Definition is_restore (c : Ctx.cmd) : bool :=
  match c with Ctx.restore => true | _ => false end.
Definition count_cmd (f : Ctx.cmd -> bool) (cmds : list Ctx.cmd) : nat :=
  length (List.filter f cmds).

(** The distance [drawConnections] computes for two particles. *)
Definition distance (a b : Particle.t) : R :=
  sqrt ((Particle.x a - Particle.x b) * (Particle.x a - Particle.x b)
        + (Particle.y a - Particle.y b) * (Particle.y a - Particle.y b)).

(** Whether two particles are closer than the connection distance. *)
Definition close (config : Config.t) (a b : Particle.t) : bool :=
  JS.lt (distance a b) (Config.connectionDistance config).

(** The unordered pairs of a list, each once, the earlier element
    first. *)
Fixpoint pairs {A} (l : list A) : list (A * A) :=
  match l with
  | [] => []
  | a :: l' => List.map (fun b => (a, b)) l' ++ pairs l'
  end.

(** No request of the queue will run [animate]. *)
Definition no_animation (q : list (positive * Callback)) : Prop :=
  forall id i, (id, Animate i) ∉ q.

(** A geometric particle's shape is one of the configured shapes, and
    is absent only when none is configured. *)
Definition shaped (config : Config.t) (g : GeometricParticle.t) : Prop :=
  match GeometricParticle.shape g with
  | Some sh => sh ∈ Config.shapes config
  | None => Config.shapes config = []
  end.

(** A particle of the class [c] of systems. *)
Definition of_class (c : ParticleSystem.Class) (config : Config.t)
    (q : ParticleSystem.particle) : Prop :=
  match c, q with
  | ParticleSystem.Plain, ParticleSystem.plain _ => True
  | ParticleSystem.Geometric, ParticleSystem.geometric g => shaped config g
  | _, _ => False
  end.

Definition typed (s : ParticleSystem.t) : Prop :=
  Forall (of_class (ParticleSystem.class s) (ParticleSystem.config s))
         (ParticleSystem.particles s).

(** The class [initSectionParticles] instantiates for a value of
    [data-particles]. *)
Definition class_of (attribute : string) : ParticleSystem.Class :=
  if String.eqb attribute "geometric" then ParticleSystem.Geometric
  else ParticleSystem.Plain.

(** Whether the [DOMContentLoaded] listener builds the systems. *)
Definition builds_systems (doc : Document.t) : bool :=
  negb (Document.reducedMotion doc)
  && PerformanceManager.detectPerformance doc true.

(** The entries a loop of constructor calls leaves in the registry. *)
Definition entries (prefix : string) (k base n : nat) : list (string * nat) :=
  (fun j => (ParticleManager.numbered prefix (k + j), (base + j)%nat))
    <$> seq 0 n.

(** What a particle draws in a frame: the fills of a plain particle,
    the saved and restored state of a geometric one, and the outline of
    a geometric particle whose shape [draw] knows. *)
Definition fills (q : ParticleSystem.particle) : nat :=
  match q with
  | ParticleSystem.plain _ => 2
  | ParticleSystem.geometric _ => 0
  end.

Definition saves (q : ParticleSystem.particle) : nat :=
  match q with
  | ParticleSystem.plain _ => 0
  | ParticleSystem.geometric _ => 1
  end.

Definition outlines (q : ParticleSystem.particle) : nat :=
  match q with
  | ParticleSystem.plain _ => 0
  | ParticleSystem.geometric g =>
      match GeometricParticle.shape g with
      | Some "triangle"%string | Some "square"%string
      | Some "hexagon"%string => 1
      | _ => 0
      end
  end.

(** The ranges the constructor draws a particle's look from, bounds
    included. *)
Definition vital (q : ParticleSystem.particle) : Prop :=
  let p := ParticleSystem.body q in
  0.5 <= Particle.opacity p <= 1 /\
  10 <= Particle.amplitude p <= 30 /\
  0.01 <= Particle.frequency p <= 0.03.

(** The pending requests that will run the frame-rate monitor. *)
Definition is_check (e : positive * Callback) : bool :=
  match snd e with
  | CheckFrameRate => true
  | Animate _ => false
  end.

Definition monitors (q : list (positive * Callback)) : nat :=
  length (List.filter is_check q).

(** A method, and a page computation, that leaves as many of them as it
    finds. *)
Definition gentle (f : ParticleSystem.t -> M Host.t ParticleSystem.t)
  : Prop :=
  forall s h s' h',
    f s h = Some (s', h') ->
    monitors (Host.rafQueue h') = monitors (Host.rafQueue h).

Definition calm {A} (m : M Page.t A) : Prop :=
  forall w a w',
    m w = Some (a, w') ->
    monitors (Host.rafQueue (Page.host w'))
    = monitors (Host.rafQueue (Page.host w)).

(** A page between two events with [n] monitor requests pending. *)
Definition monitored (n : nat) (w : Page.t) : Prop :=
  Frames.wf w /\ monitors (Host.rafQueue (Page.host w)) = n.

(** A layout in which no container measures less than nothing, and the
    events that bring such a layout. *)
Definition measurable (layout : nat -> Rect.t) : Prop :=
  forall c, 0 <= Rect.width (layout c) /\ 0 <= Rect.height (layout c).

Definition measurable_event (e : Events.event) : Prop :=
  match e with
  | Events.resize layout => measurable layout
  | _ => True
  end.
End Invariants.

(** A page with one moving particle. *)
Module SampleRun.
Import ParticleSystem.
Local Open Scope R_scope.

(** The options [{ particleCount: 1, particleSpeed: 2,
    mouseInteraction: false, responsive: false }]. *)
Definition lone_options : Options.t :=
  Options.mk (Some 1%Z) None (Some 2) None None None (Some false) None
             (Some false) None None.

Definition lone_canvas : Canvas.t :=
  Canvas.mk (JS.reflect_unsigned_long 300 960)
            (JS.reflect_unsigned_long 150 540) true [].

(** The particle the constructor builds when [Math.random] returns 0. *)
Definition born : Particle.t :=
  Particle.mk (0 * Canvas.w lone_canvas) (0 * Canvas.h lone_canvas)
              (0 * Canvas.w lone_canvas) (0 * Canvas.h lone_canvas)
              ((0 - 0.5) * 2) ((0 - 0.5) * 2) (0 * 2 + 1) (0 * 0.5 + 0.5)
              (0 * PI * 2) (0 * 20 + 10) (0 * 0.02 + 0.01).

(** The same particle after the first frame. *)
Definition moved : Particle.t :=
  default born (Particle.update born lone_canvas (Mouse.mk 0 0)
                  (make_config lone_options)).

(** The system and the page after
    [new ParticleSystem(container, lone_options)] on a freshly loaded
    page. *)
Definition lone_system : t :=
  mk Plain 0 0
     (Canvas.mk (JS.reflect_unsigned_long 300 960)
                (JS.reflect_unsigned_long 150 540) true
                (Particle.draw moved (make_config lone_options)))
     [plain moved] (Mouse.mk 0 0) (Some 1%positive)
     (make_config lone_options) false.

Definition lone : Page.t :=
  Page.mk
    (Host.mk (fun _ => 0) 9 (fun _ => Rect.mk 0 0 960 540) 2
             [(1%positive, Animate 0)])
    [lone_system] [] true 0 0.

(** The page [lone] once it is hidden. *)
Definition lone_hidden : Page.t :=
  Page.mk
    (Host.mk (fun _ => 0) 9 (fun _ => Rect.mk 0 0 960 540) 2 [])
    [set_animationId None lone_system] [] true 0 0.

(** The page [SamplePage.started] after [destroy()] on its system and a
    return to the foreground. *)
Definition revived_system : t :=
  mk Plain 0 0
     (Canvas.mk (JS.reflect_unsigned_long 300 960)
                (JS.reflect_unsigned_long 150 540) false [])
     [] (Mouse.mk 0 0) (Some 2%positive)
     (make_config SamplePage.fixed_options) true.

Definition revived : Page.t :=
  Page.mk
    (Host.mk (fun _ => 0) 0 (fun _ => Rect.mk 0 0 960 540) 3
             [(2%positive, Animate 0)])
    [revived_system] [] true 0 0.

(** The system of [lone] before its first frame. *)
Definition lone_born_system : t :=
  mk Plain 0 0 lone_canvas [plain born] (Mouse.mk 0 0) None
     (make_config lone_options) false.

(** A document without a 2D context, and the page its
    [DOMContentLoaded] listener leaves at time 0: no system, and the
    monitor's first request. *)
Definition plain_document : Document.t :=
  Document.mk false false 1920 None None [] [].

Definition watched : Page.t :=
  Page.mk
    (Host.mk (fun _ => 0) 0 (fun _ => Rect.mk 0 0 960 540) 2
             [(1%positive, CheckFrameRate)])
    [] [] false 0 0.

(** The page [SamplePage.started] after its window was resized to 480
    by 270. *)
Definition narrowed : Page.t :=
  Page.mk
    (Host.mk (fun _ => 0) 0 (fun _ => Rect.mk 0 0 480 270) 2
             [(1%positive, Animate 0)])
    [set_canvas (Canvas.mk (JS.reflect_unsigned_long 300 480)
                           (JS.reflect_unsigned_long 150 270) true [])
                SamplePage.started_system]
    [] true 0 0.

(** A document 1024 wide with one hero section, on a device that
    reports nothing about its memory or its connection. *)
Definition wide_document : Document.t :=
  Document.mk false true 1024 None None [0%nat] [].

(** The page a computation leaves. *)
Definition after (m : M Page.t unit) (w : Page.t) : Page.t :=
  match m w with
  | Some (_, w') => w'
  | None => w
  end.

(** The page the [DOMContentLoaded] listener leaves at time 0 for
    [wide_document], in a window where every container measures 1920 by
    1080. *)
Definition discovered : Page.t :=
  after (Events.DOMContentLoaded wide_document 0)
        (Events.loaded (fun _ => 0) (fun _ => Rect.mk 0 0 1920 1080)).

(** The particle of [lone] after a second frame, and the page [lone]
    after an animation frame at time 16 and a change to hidden. *)
Definition moved_twice : Particle.t :=
  default moved (Particle.update moved lone_canvas (Mouse.mk 0 0)
                   (make_config lone_options)).

Definition lone_later : Page.t :=
  Page.mk
    (Host.mk (fun _ => 0) 9 (fun _ => Rect.mk 0 0 960 540) 3 [])
    [mk Plain 0 0
        (Canvas.mk (JS.reflect_unsigned_long 300 960)
                   (JS.reflect_unsigned_long 150 540) true
                   (Particle.draw moved_twice (make_config lone_options)))
        [plain moved_twice] (Mouse.mk 0 0) None
        (make_config lone_options) false]
    [] true 0 0.

(** The system of [lone] after [destroy()]. *)
Definition lone_destroyed : t :=
  mk Plain 0 0
     (Canvas.mk (JS.reflect_unsigned_long 300 960)
                (JS.reflect_unsigned_long 150 540) false
                (Particle.draw moved (make_config lone_options)))
     [plain moved] (Mouse.mk 0 0) None
     (make_config lone_options) false.

(** The page [watched] after another script has called
    [new ParticleSystem(container, lone_options)]: the monitor's request
    and the system's are pending. *)
Definition watched_lone : Page.t :=
  Page.mk
    (Host.mk (fun _ => 0) 9 (fun _ => Rect.mk 0 0 960 540) 3
             [(1%positive, CheckFrameRate); (2%positive, Animate 0)])
    [set_animationId (Some 2%positive) lone_system] [] false 0 0.

(** That page once it is hidden: the system's request is cancelled. *)
Definition watched_hidden : Page.t :=
  Page.mk
    (Host.mk (fun _ => 0) 9 (fun _ => Rect.mk 0 0 960 540) 3
             [(1%positive, CheckFrameRate)])
    [set_animationId None lone_system] [] false 0 0.

(** And once it is shown again: the system has run [animate] and
    requested its next frame. *)
Definition watched_shown : Page.t :=
  Page.mk
    (Host.mk (fun _ => 0) 9 (fun _ => Rect.mk 0 0 960 540) 4
             [(1%positive, CheckFrameRate); (3%positive, Animate 0)])
    [mk Plain 0 0
        (Canvas.mk (JS.reflect_unsigned_long 300 960)
                   (JS.reflect_unsigned_long 150 540) true
                   (Particle.draw moved_twice (make_config lone_options)))
        [plain moved_twice] (Mouse.mk 0 0) (Some 3%positive)
        (make_config lone_options) false]
    [] false 0 0.

(** The page [discovered] after [beforeunload]. *)
Definition unloaded : Page.t :=
  after (Events.step Events.beforeunload) discovered.

(** A document 1024 wide whose one section matches the hero selector
    and carries [data-particles="geometric"]. *)
Definition twice_matched : Document.t :=
  Document.mk false true 1024 None None [0%nat] [(0%nat, "geometric"%string)].
End SampleRun.

(** * Properties *)

(** ** Numbers *)

Section Numbers.
Local Open Scope R_scope.

Lemma lt_true (a b : R) : JS.lt a b = true <-> a < b.
Proof. unfold JS.lt. destruct (Rlt_dec a b); intuition discriminate. Qed.

Lemma lt_false (a b : R) : JS.lt a b = false <-> b <= a.
Proof.
  unfold JS.lt. destruct (Rlt_dec a b); split; intros;
    solve [lra | discriminate | reflexivity].
Qed.

Lemma gt_true (a b : R) : JS.gt a b = true <-> b < a.
Proof. apply lt_true. Qed.

Lemma gt_false (a b : R) : JS.gt a b = false <-> a <= b.
Proof. apply lt_false. Qed.

Lemma ge_true (a b : R) : JS.ge a b = true <-> b <= a.
Proof. unfold JS.ge. destruct (Rle_dec b a); intuition discriminate. Qed.

Lemma div_nonzero (a b : R) : b <> 0 -> JS.div a b = Some (a / b).
Proof. intros Hb. unfold JS.div. destruct (Req_dec_T b 0); congruence. Qed.

(** [Math.floor] is the integer just below. *)
Lemma floor_unique (r : R) (z : Z) :
  IZR z <= r < IZR z + 1 -> JS.floor r = z.
Proof.
  intros [Hlo Hhi]. unfold JS.floor. symmetry.
  apply Int_part_spec. lra.
Qed.

Lemma floor_IZR (z : Z) : JS.floor (IZR z) = z.
Proof. apply floor_unique. lra. Qed.

Lemma canvas_w_nonneg (c : Canvas.t) : 0 <= Canvas.w c.
Proof. unfold Canvas.w. apply IZR_le. lia. Qed.

Lemma canvas_h_nonneg (c : Canvas.t) : 0 <= Canvas.h c.
Proof. unfold Canvas.h. apply IZR_le. lia. Qed.
End Numbers.

(** ** The particle step *)

Section ParticleStep.
Local Open Scope R_scope.

Lemma wrap_in_range (limit v : R) :
  0 <= limit -> 0 <= Particle.wrap limit v <= limit.
Proof.
  intros Hl. unfold Particle.wrap.
  destruct (JS.lt v 0) eqn:E1.
  - destruct (JS.gt limit limit) eqn:E2.
    + apply gt_true in E2. lra.
    + lra.
  - apply lt_false in E1.
    destruct (JS.gt v limit) eqn:E2.
    + lra.
    + apply gt_false in E2. lra.
Qed.

(** The mouse block never divides by zero: the division is reached only
    below a distance that is itself non-negative. *)
Lemma repel_total (x y vx vy : R) (mouse : Mouse.t) (config : Config.t) :
  is_Some (Particle.repel x y vx vy mouse config).
Proof.
  unfold Particle.repel.
  destruct (Config.mouseInteraction config && JS.gt (Mouse.x mouse) (-500));
    [|eexists; reflexivity].
  set (d := sqrt _).
  destruct (JS.lt d (Config.mouseRadius config)) eqn:E;
    [|eexists; reflexivity].
  apply lt_true in E.
  assert (0 <= d) by apply sqrt_pos.
  rewrite div_nonzero by lra. simpl. eexists; reflexivity.
Qed.

Lemma update_total (p : Particle.t) canvas mouse config :
  is_Some (Particle.update p canvas mouse config).
Proof.
  unfold Particle.update.
  match goal with
  | |- context [Particle.repel ?a ?b ?c ?d ?m ?cf] =>
      destruct (repel_total a b c d m cf) as [v ->]
  end.
  simpl. eexists; reflexivity.
Qed.

Lemma update_position (p p' : Particle.t) canvas mouse config :
  Particle.update p canvas mouse config = Some p' ->
  Particle.x p' =
    Particle.wrap (Canvas.w canvas) (Particle.x p + Particle.vx p) /\
  Particle.y p' =
    Particle.wrap (Canvas.h canvas)
         (Particle.y p + Particle.vy p
          + sin (Particle.angle p + Particle.frequency p) * 0.5).
Proof.
  unfold Particle.update. intros H.
  match type of H with
  | context [Particle.repel ?a ?b ?c ?d ?m ?cf] =>
      destruct (repel_total a b c d m cf) as [v Hv]; rewrite Hv in H
  end.
  simpl in H. injection H as <-. simpl. split; reflexivity.
Qed.

Lemma system_update_total (q : ParticleSystem.particle) canvas mouse config :
  is_Some (ParticleSystem.update q canvas mouse config).
Proof.
  destruct q as [p|g]; simpl.
  - destruct (update_total p canvas mouse config) as [p' ->].
    eexists; reflexivity.
  - unfold GeometricParticle.update.
    destruct (update_total (GeometricParticle.base g) canvas mouse config)
      as [p' ->].
    eexists; reflexivity.
Qed.

Lemma system_update_body (q q' : ParticleSystem.particle) canvas mouse config :
  ParticleSystem.update q canvas mouse config = Some q' ->
  Particle.update (ParticleSystem.body q) canvas mouse config
  = Some (ParticleSystem.body q').
Proof.
  destruct q as [p|g]; simpl.
  - destruct (Particle.update p canvas mouse config); simpl; [|discriminate].
    intros [= <-]. reflexivity.
  - unfold GeometricParticle.update.
    destruct (Particle.update (GeometricParticle.base g) canvas mouse config);
      simpl; [|discriminate].
    intros [= <-]. reflexivity.
Qed.

(** C3. Wrap invariant: for every particle, plain or shape variant, in
    any prior state, [update] returns, and the position it leaves lies
    within [[0, width] x [0, height]] of the canvas it was given. *)
Theorem update_keeps_position_in_bounds
    (q : ParticleSystem.particle) (canvas : Canvas.t) (mouse : Mouse.t)
    (config : Config.t) :
  exists q',
    ParticleSystem.update q canvas mouse config = Some q' /\
    0 <= Particle.x (ParticleSystem.body q') <= Canvas.w canvas /\
    0 <= Particle.y (ParticleSystem.body q') <= Canvas.h canvas.
Proof.
  destruct (system_update_total q canvas mouse config) as [q' Hq].
  exists q'. split; [exact Hq|].
  apply system_update_body, update_position in Hq as [-> ->].
  split; apply wrap_in_range;
    [apply canvas_w_nonneg | apply canvas_h_nonneg].
Qed.
End ParticleStep.

(** ** Thresholds and divisions *)

Section Thresholds.
Local Open Scope R_scope.

(** A pair is connected exactly below the threshold, and the division
    is then by a positive number. *)
Lemma connect_below (config : Config.t) (a b : Particle.t) :
  let dx := Particle.x a - Particle.x b in
  let dy := Particle.y a - Particle.y b in
  let d := sqrt (dx * dx + dy * dy) in
  let t := Config.connectionDistance config in
  d < t ->
  ParticleSystem.connect config a b
  = Some [ Ctx.beginPath;
           Ctx.strokeStyle
             (JSString.replace (Config.connectionColor config) "0.2"
                               ((t - d) / t * 0.2));
           Ctx.lineWidth 1;
           Ctx.moveTo (Particle.x a) (Particle.y a);
           Ctx.lineTo (Particle.x b) (Particle.y b);
           Ctx.stroke ].
Proof.
  intros dx dy d t Hd. unfold ParticleSystem.connect.
  fold dx dy. fold d. fold t.
  apply lt_true in Hd as Hlt. rewrite Hlt.
  assert (0 <= d) by apply sqrt_pos.
  rewrite div_nonzero by lra. reflexivity.
Qed.

Lemma connect_beyond (config : Config.t) (a b : Particle.t) :
  let dx := Particle.x a - Particle.x b in
  let dy := Particle.y a - Particle.y b in
  Config.connectionDistance config <= sqrt (dx * dx + dy * dy) ->
  ParticleSystem.connect config a b = Some [].
Proof.
  intros dx dy Hd. unfold ParticleSystem.connect. fold dx dy.
  apply lt_false in Hd. rewrite Hd. reflexivity.
Qed.

Lemma connect_total (config : Config.t) (a b : Particle.t) :
  is_Some (ParticleSystem.connect config a b).
Proof.
  destruct (Rlt_dec
              (sqrt ((Particle.x a - Particle.x b) * (Particle.x a - Particle.x b)
                     + (Particle.y a - Particle.y b) * (Particle.y a - Particle.y b)))
              (Config.connectionDistance config)) as [Hlt|Hge].
  - rewrite connect_below by exact Hlt. eexists; reflexivity.
  - rewrite connect_beyond by lra. eexists; reflexivity.
Qed.

Lemma connect_from_total config a later :
  is_Some (ParticleSystem.connect_from config a later).
Proof.
  induction later as [|b later [cs IH]]; simpl.
  - eexists; reflexivity.
  - destruct (connect_total config a (ParticleSystem.body b)) as [c ->].
    rewrite IH. simpl. eexists; reflexivity.
Qed.

Lemma drawConnections_total config ps :
  is_Some (ParticleSystem.drawConnections config ps).
Proof.
  induction ps as [|a later [cs IH]]; simpl.
  - eexists; reflexivity.
  - destruct (connect_from_total config (ParticleSystem.body a) later)
      as [c ->].
    rewrite IH. simpl. eexists; reflexivity.
Qed.

Lemma connect_from_zero config a later :
  Config.connectionDistance config = 0 ->
  ParticleSystem.connect_from config a later = Some [].
Proof.
  intros Hz. induction later as [|b later IH]; simpl; [reflexivity|].
  rewrite connect_beyond, IH; [reflexivity|].
  rewrite Hz. apply sqrt_pos.
Qed.

Lemma drawConnections_zero config ps :
  Config.connectionDistance config = 0 ->
  ParticleSystem.drawConnections config ps = Some [].
Proof.
  intros Hz. induction ps as [|a later IH]; simpl; [reflexivity|].
  rewrite connect_from_zero, IH by exact Hz. reflexivity.
Qed.

Lemma repel_zero_radius x y vx vy mouse config :
  Config.mouseRadius config = 0 ->
  Particle.repel x y vx vy mouse config = Some (vx, vy).
Proof.
  intros Hz. unfold Particle.repel.
  destruct (Config.mouseInteraction config && JS.gt (Mouse.x mouse) (-500));
    [|reflexivity].
  set (d := sqrt _).
  assert (JS.lt d (Config.mouseRadius config) = false) as ->; [|reflexivity].
  apply lt_false. rewrite Hz. apply sqrt_pos.
Qed.

Lemma repel_disabled x y vx vy mouse config :
  Config.mouseInteraction config = false ->
  Particle.repel x y vx vy mouse config = Some (vx, vy).
Proof. intros Hz. unfold Particle.repel. rewrite Hz. reflexivity. Qed.

Lemma update_zero_radius (p : Particle.t) canvas mouse config :
  Config.mouseRadius config = 0 ->
  Particle.update p canvas mouse config
  = Particle.update p canvas mouse (Config.set_mouseInteraction false config).
Proof.
  intros Hz. unfold Particle.update.
  rewrite repel_zero_radius by exact Hz.
  rewrite repel_disabled by reflexivity. reflexivity.
Qed.

(** C8. A connection threshold of zero draws nothing, and a mouse radius
    of zero leaves every particle as an update without mouse interaction
    would; both computations produce their result, that is, neither
    divides by zero. *)
Theorem zero_threshold_is_no_effect
    (connecting repelling : Config.t)
    (ps : list ParticleSystem.particle) (q : ParticleSystem.particle)
    (canvas : Canvas.t) (mouse : Mouse.t) :
  Config.connectionDistance connecting = 0 ->
  Config.mouseRadius repelling = 0 ->
  ParticleSystem.drawConnections connecting ps = Some [] /\
  exists q',
    ParticleSystem.update q canvas mouse repelling = Some q' /\
    ParticleSystem.update q canvas mouse
      (Config.set_mouseInteraction false repelling) = Some q'.
Proof.
  intros Hc Hm. split; [apply drawConnections_zero, Hc|].
  destruct (system_update_total q canvas mouse repelling) as [q' Hq].
  exists q'. split; [exact Hq|]. rewrite <- Hq.
  destruct q as [p|g]; simpl; unfold GeometricParticle.update;
    rewrite update_zero_radius by exact Hm; reflexivity.
Qed.
End Thresholds.

(** ** Colours *)

Section Colours.
Local Open Scope R_scope.

(** On the default connection colour the alpha is the faded one. *)
Lemma connect_default_colour (config : Config.t) (a b : Particle.t) :
  let dx := Particle.x a - Particle.x b in
  let dy := Particle.y a - Particle.y b in
  let d := sqrt (dx * dx + dy * dy) in
  let t := Config.connectionDistance config in
  Config.connectionColor config = "rgba(46, 204, 113, 0.2)"%string ->
  d < t ->
  ParticleSystem.connect config a b
  = Some [ Ctx.beginPath;
           Ctx.strokeStyle (Sample.rgba "46, 204, 113" ((t - d) / t * 0.2));
           Ctx.lineWidth 1;
           Ctx.moveTo (Particle.x a) (Particle.y a);
           Ctx.lineTo (Particle.x b) (Particle.y b);
           Ctx.stroke ].
Proof.
  intros dx dy d t Hc Hd.
  rewrite connect_below by exact Hd. rewrite Hc. reflexivity.
Qed.

(** On the default particle colour the fill carries the particle's own
    opacity, and the glow a tenth of it. *)
Lemma draw_default_colour (config : Config.t) (p : Particle.t) :
  Config.particleColor config = "rgba(46, 204, 113, 0.6)"%string ->
  Particle.draw p config
  = [ Ctx.beginPath;
      Ctx.arc (Particle.x p) (Particle.y p) (Particle.size p) 0 (PI * 2);
      Ctx.fillStyle (Sample.rgba "46, 204, 113" (Particle.opacity p));
      Ctx.fill;
      Ctx.beginPath;
      Ctx.arc (Particle.x p) (Particle.y p) (Particle.size p * 2) 0 (PI * 2);
      Ctx.fillStyle (Sample.rgba "46, 204, 113" (Particle.opacity p * 0.1));
      Ctx.fill ].
Proof. intros Hc. unfold Particle.draw. rewrite Hc. reflexivity. Qed.

(** C2, at the hero preset (threshold 120, connection colour
    [rgba(46, 204, 113, 0.15)]): two particles 60 apart are joined by a
    line whose stroke style is the configured colour as it stands, alpha
    0.15, and not the colour with alpha [(120 - 60) / 120 * 0.15]. *)
Theorem hero_connection_keeps_base_alpha :
  ParticleSystem.connect Sample.hero_config
    (Sample.still 0 0 1) (Sample.still 60 0 1)
  = Some [ Ctx.beginPath;
           Ctx.strokeStyle [JSString.Lit "rgba(46, 204, 113, 0.15)"];
           Ctx.lineWidth 1;
           Ctx.moveTo 0 0;
           Ctx.lineTo 60 0;
           Ctx.stroke ]
  /\ [JSString.Lit "rgba(46, 204, 113, 0.15)"]
     <> Sample.rgba "46, 204, 113" ((120 - 60) / 120 * 0.15).
Proof.
  split; [|discriminate].
  rewrite connect_below; [reflexivity|].
  cbn.
  replace ((0 - 60) * (0 - 60) + (0 - 0) * (0 - 0)) with (60 * 60) by ring.
  rewrite sqrt_square by lra. lra.
Qed.

(** C6, at the hero preset (particle colour [rgba(46, 204, 113, 0.8)]):
    whatever the particle's opacity, both discs are filled with the
    configured colour as it stands, alpha 0.8; so two particles of
    different opacity are painted alike. *)
Theorem hero_fill_ignores_opacity (p : Particle.t) :
  Particle.draw p Sample.hero_config
  = [ Ctx.beginPath;
      Ctx.arc (Particle.x p) (Particle.y p) (Particle.size p) 0 (PI * 2);
      Ctx.fillStyle [JSString.Lit "rgba(46, 204, 113, 0.8)"];
      Ctx.fill;
      Ctx.beginPath;
      Ctx.arc (Particle.x p) (Particle.y p) (Particle.size p * 2) 0 (PI * 2);
      Ctx.fillStyle [JSString.Lit "rgba(46, 204, 113, 0.8)"];
      Ctx.fill ]
  /\ [JSString.Lit "rgba(46, 204, 113, 0.8)"]
     <> Sample.rgba "46, 204, 113" (Particle.opacity p).
Proof. split; [reflexivity|discriminate]. Qed.
End Colours.

(** ** The monad *)

Section Monad.
Context {S A B : Type}.

Lemma bind_Some (m : M S A) (k : A -> M S B) (s : S) (r : B * S) :
  bind m k s = Some r <->
  exists a s', m s = Some (a, s') /\ k a s' = Some r.
Proof.
  unfold bind. split.
  - destruct (m s) as [[a s']|]; [|discriminate].
    intros H. exists a, s'. split; [reflexivity|exact H].
  - intros (a & s' & -> & H). exact H.
Qed.

Lemma bind_step (m : M S A) (k : A -> M S B) (s s' : S) (a : A) :
  m s = Some (a, s') -> bind m k s = k a s'.
Proof. unfold bind. intros ->. reflexivity. Qed.

End Monad.

(** ** What each method does to the object and to the host *)

Section Methods.
Local Open Scope R_scope.
Import ParticleSystem.

Lemma advance_advance (a b : nat) (h : Host.t) :
  Host.advance a (Host.advance b h) = Host.advance (b + a) h.
Proof. unfold Host.advance. simpl. f_equal. lia. Qed.

Lemma advance_0 (h : Host.t) : Host.advance 0 h = h.
Proof. destruct h. unfold Host.advance. simpl. f_equal. lia. Qed.

Lemma particle_new_spec (x y : R) (config : Config.t) (h : Host.t) :
  exists p, Particle.new x y config h = Some (p, Host.advance 7 h).
Proof.
  eexists. unfold Particle.new, bind, Env.random, ret.
  rewrite !advance_advance. reflexivity.
Qed.

Lemma geometric_new_spec (x y : R) (config : Config.t) (h : Host.t) :
  exists g, GeometricParticle.new x y config h = Some (g, Host.advance 10 h).
Proof.
  destruct (particle_new_spec x y config h) as [p Hp].
  eexists. unfold GeometricParticle.new.
  rewrite (bind_step _ _ _ _ _ Hp).
  unfold bind, Env.random, ret.
  rewrite !advance_advance. reflexivity.
Qed.

Lemma new_particle_spec (c : Class) (x y : R) (config : Config.t)
    (h : Host.t) :
  exists q k, new_particle c x y config h = Some (q, Host.advance k h).
Proof.
  destruct c; simpl.
  - destruct (particle_new_spec x y config h) as [p Hp].
    rewrite (bind_step _ _ _ _ _ Hp). eexists _, _. reflexivity.
  - destruct (geometric_new_spec x y config h) as [g Hg].
    rewrite (bind_step _ _ _ _ _ Hg). eexists _, _. reflexivity.
Qed.

(** The loop of [createParticles] builds exactly [n] particles. *)
Lemma spawn_spec (n : nat) (c : Class) canvas config (h : Host.t) :
  exists ps k,
    spawn n (new_particle c) canvas config h = Some (ps, Host.advance k h) /\
    length ps = n.
Proof.
  revert h. induction n as [|n IH]; intros h; simpl.
  - exists [], 0%nat. rewrite advance_0. split; reflexivity.
  - unfold bind at 1. unfold Env.random at 1.
    unfold bind at 1. unfold Env.random at 1.
    match goal with
    | |- context [bind (new_particle c ?x ?y config) _ ?h'] =>
        destruct (new_particle_spec c x y config h') as (q & k & Hq)
    end.
    rewrite (bind_step _ _ _ _ _ Hq).
    destruct (IH (Host.advance k (Host.advance 1 (Host.advance 1 h))))
      as (ps & k' & Hps & Hlen).
    rewrite (bind_step _ _ _ _ _ Hps).
    exists (q :: ps), (1 + 1 + k + k')%nat.
    unfold ret. rewrite !advance_advance. simpl. split; [reflexivity|].
    f_equal. exact Hlen.
Qed.

Lemma createParticles_spec (s : t) (h : Host.t) :
  exists ps k,
    createParticles s h = Some (set_particles ps s, Host.advance k h) /\
    length ps = Z.to_nat (Config.particleCount (config s)).
Proof.
  unfold createParticles.
  destruct (spawn_spec (Z.to_nat (Config.particleCount (config s)))
                       (class s) (canvas s) (config s) h)
    as (ps & k & Hps & Hlen).
  exists ps, k. rewrite (bind_step _ _ _ _ _ Hps). split; [reflexivity|].
  exact Hlen.
Qed.

(** What [resizeCanvas] leaves in the object. *)
Lemma resizeCanvas_spec (s : t) (h : Host.t) :
  let rect := Host.layout h (container s) in
  resizeCanvas s h
  = Some (set_config
            (Config.set_particleCount (Sample.resized_count (config s) rect)
                                      (config s))
            (set_canvas (Sample.resized_canvas (canvas s) rect) s),
          h).
Proof.
  intros rect. unfold resizeCanvas, bind, Env.getBoundingClientRect.
  fold rect. simpl. unfold Sample.resized_count, Sample.rescaled.
  destruct (Config.responsive (config s)).
  - unfold lift. rewrite div_nonzero by lra. reflexivity.
  - unfold ret. destruct s as [? ? ? ? ? ? ? [] ?]. reflexivity.
Qed.

Lemma update_and_draw_total ps canvas mouse config :
  exists ps' cmds,
    update_and_draw ps canvas mouse config = Some (ps', cmds) /\
    length ps' = length ps.
Proof.
  induction ps as [|q ps (ps' & cmds & IH & Hlen)]; simpl.
  - exists [], []. split; reflexivity.
  - destruct (system_update_total q canvas mouse config) as [q' ->].
    rewrite IH. simpl. eexists _, _. split; [reflexivity|].
    simpl. f_equal. exact Hlen.
Qed.

(** A frame of [animate] always completes, and leaves exactly one new
    request, under the handle it stores. *)
Lemma animate_spec (s : t) (h : Host.t) :
  exists ps cmds,
    animate s h
    = Some (set_animationId (Some (Host.rafSeq h))
              (set_canvas (Canvas.mk (Canvas.width (canvas s))
                                     (Canvas.height (canvas s))
                                     (Canvas.attached (canvas s)) cmds)
                 (set_particles ps s)),
            Host.enqueue (Animate (self s)) h) /\
    length ps = length (particles s).
Proof.
  unfold animate.
  destruct (update_and_draw_total (particles s) (canvas s) (mouse s)
                                  (config s)) as (ps & cmds & Hu & Hlen).
  destruct (drawConnections_total (config s) ps) as [lines Hl].
  exists ps, (cmds ++ lines). split; [|exact Hlen].
  unfold bind, lift. rewrite Hu. simpl. rewrite Hl. reflexivity.
Qed.

Lemma pause_spec (s : t) (h : Host.t) :
  pause s h
  = Some (match animationId s with
          | Some id => (set_animationId None s, Host.cancel id h)
          | None => (s, h)
          end).
Proof. unfold pause. destruct (animationId s); reflexivity. Qed.

Lemma resume_running (s : t) (h : Host.t) (id : positive) :
  animationId s = Some id -> resume s h = Some (s, h).
Proof. unfold resume. intros ->. reflexivity. Qed.

Lemma resume_paused (s : t) (h : Host.t) :
  animationId s = None -> resume s h = animate s h.
Proof. unfold resume. intros ->. reflexivity. Qed.

Lemma destroy_spec (s : t) (h : Host.t) :
  destroy s h
  = Some (match animationId s with
          | Some id =>
              (set_animationId None
                 (set_canvas (Canvas.mk (Canvas.width (canvas s))
                                        (Canvas.height (canvas s)) false
                                        (Canvas.painted (canvas s))) s),
               Host.cancel id h)
          | None =>
              (set_canvas (Canvas.mk (Canvas.width (canvas s))
                                     (Canvas.height (canvas s)) false
                                     (Canvas.painted (canvas s))) s, h)
          end).
Proof.
  unfold destroy, bind. rewrite pause_spec.
  destruct s as [? ? ? [? ? [] ?] ? ? [id|] ? ?]; reflexivity.
Qed.

(** The resize listener: [resizeCanvas] then [createParticles]. *)
Lemma on_resize_spec (s : t) (h : Host.t) :
  let rect := Host.layout h (container s) in
  let count := Sample.resized_count (config s) rect in
  exists ps k,
    on_resize s h
    = Some (set_particles ps
              (set_config (Config.set_particleCount count (config s))
                 (set_canvas (Sample.resized_canvas (canvas s) rect) s)),
            Host.advance k h) /\
    length ps = Z.to_nat count.
Proof.
  intros rect count. unfold on_resize.
  rewrite (bind_step _ _ _ _ _ (resizeCanvas_spec s h)).
  match goal with
  | |- context [createParticles ?s1 h] =>
      destruct (createParticles_spec s1 h) as (ps & k & Hc & Hlen)
  end.
  exists ps, k. split; [exact Hc|exact Hlen].
Qed.

(** [init()] on the object the constructors build. *)
Lemma init_spec (s : t) (h : Host.t) :
  let rect := Host.layout h (container s) in
  let count := Sample.resized_count (config s) rect in
  exists ps cmds k,
    init s h
    = Some (mk (class s) (self s) (container s)
               (Canvas.mk (JS.reflect_unsigned_long 300 (Rect.width rect))
                          (JS.reflect_unsigned_long 150 (Rect.height rect)) true cmds)
               ps (mouse s) (Some (Host.rafSeq h))
               (Config.set_particleCount count (config s))
               (Config.mouseInteraction (config s)),
            Host.enqueue (Animate (self s)) (Host.advance k h)) /\
    length ps = Z.to_nat count.
Proof.
  intros rect count. unfold init, createCanvas.
  rewrite (bind_step _ _ _ _ _ (resizeCanvas_spec _ h)).
  match goal with
  | |- context [bind (createParticles ?s1) _ h] =>
      destruct (createParticles_spec s1 h) as (ps & k & Hc & Hlen)
  end.
  rewrite (bind_step _ _ _ _ _ Hc).
  unfold bindEvents. unfold bind at 1. unfold ret at 1.
  match goal with
  | |- context [animate ?s2 ?h2] =>
      destruct (animate_spec s2 h2) as (ps' & cmds & Ha & Hlen')
  end.
  exists ps', cmds, k. split; [exact Ha|].
  rewrite Hlen'. exact Hlen.
Qed.

(** What the mitigation does to one system. *)
Lemma shrink_spec (s s' : ParticleSystem.t) (h h' : Host.t) :
  PerformanceManager.shrink s h = Some (s', h') ->
  Config.particleCount (ParticleSystem.config s')
  = JS.floor (IZR (Config.particleCount (ParticleSystem.config s)) * 0.6) /\
  length (ParticleSystem.particles s')
  = Z.to_nat (Config.particleCount (ParticleSystem.config s')).
Proof.
  unfold PerformanceManager.shrink. intros H.
  match type of H with
  | ParticleSystem.createParticles ?s1 h = _ =>
      destruct (createParticles_spec s1 h) as (ps & k & E & Hlen)
  end.
  rewrite E in H. injection H as <- _. simpl in *. auto.
Qed.
End Methods.

(** ** Resizing *)

Section Resizing.
Local Open Scope R_scope.
Import ParticleSystem.

(** On a quarter of the reference area the count is divided by four,
    rounding down. *)
Lemma rescaled_quarter (count q : Z) :
  (4 * q <= count < 4 * q + 4)%Z ->
  Sample.rescaled count (Rect.mk 0 0 960 540) = q.
Proof.
  intros [Hlo Hhi]. unfold Sample.rescaled, JS.min, Rmin. simpl.
  apply IZR_le in Hlo. apply IZR_lt in Hhi.
  rewrite mult_IZR in Hlo. rewrite plus_IZR, mult_IZR in Hhi.
  destruct (Rle_dec (960 * 540 / (1920 * 1080)) 1) as [_|Hn];
    [|exfalso; lra].
  apply floor_unique. lra.
Qed.

(** On a sixteenth of the reference area it is divided by sixteen. *)
Lemma rescaled_sixteenth (count q : Z) :
  (16 * q <= count < 16 * q + 16)%Z ->
  Sample.rescaled count (Rect.mk 0 0 480 270) = q.
Proof.
  intros [Hlo Hhi]. unfold Sample.rescaled, JS.min, Rmin. simpl.
  apply IZR_le in Hlo. apply IZR_lt in Hhi.
  rewrite mult_IZR in Hlo. rewrite plus_IZR, mult_IZR in Hhi.
  destruct (Rle_dec (480 * 270 / (1920 * 1080)) 1) as [_|Hn];
    [|exfalso; lra].
  apply floor_unique. lra.
Qed.

(** At the reference area and above the count is kept. *)
Lemma rescaled_full (count : Z) (rect : Rect.t) :
  1920 * 1080 <= Rect.width rect * Rect.height rect ->
  Sample.rescaled count rect = count.
Proof.
  intros Ha. unfold Sample.rescaled, JS.min.
  rewrite Rmin_right.
  - rewrite Rmult_1_r. apply floor_IZR.
  - apply Rmult_le_reg_r with (r := 1920 * 1080); [lra|].
    unfold Rdiv. rewrite Rmult_assoc, Rinv_l by lra. lra.
Qed.

(** A system built with [{ particleCount: 60 }] in a container of 960
    by 540, then resized with the bounds unchanged. *)
Lemma construct_then_resize :
  exists s1 h1 s2 h2,
    ParticleSystem.new 0 0 (Sample.count_only 60) (Sample.host 960 540)
    = Some (s1, h1) /\
    on_resize s1 h1 = Some (s2, h2) /\
    Config.particleCount (config s1) = 15%Z /\
    Config.particleCount (config s2) = 3%Z /\
    Sample.rescaled 60 (Host.layout h2 (container s2)) = 15%Z /\
    length (particles s1) = 15%nat /\
    length (particles s2) = 3%nat.
Proof.
  unfold ParticleSystem.new.
  match goal with
  | |- context [init ?s0 ?h0] =>
      destruct (init_spec s0 h0) as (ps & cmds & k & Hi & Hlen)
  end.
  match type of Hi with
  | _ = Some (?s1, ?h1) =>
      destruct (on_resize_spec s1 h1) as (ps' & k' & Hr & Hlen');
      exists s1, h1
  end.
  eexists _, _. split; [exact Hi|]. split; [exact Hr|].
  cbn -[Sample.rescaled] in *.
  rewrite !(rescaled_quarter 60 15) in * by lia.
  rewrite (rescaled_quarter 15 3) in * by lia.
  repeat split; assumption || reflexivity.
Qed.

(** C1, at base count 60 in a container of 960 by 540: construction
    leaves the count [floor(60 * 0.25) = 15]; a resize with the bounds
    unchanged leaves [floor(15 * 0.25) = 3], where the count computed
    from the base count and the current bounds is still 15. *)
Theorem resize_compounds_the_count :
  exists s1 h1 s2 h2,
    ParticleSystem.new 0 0 (Sample.count_only 60) (Sample.host 960 540)
    = Some (s1, h1) /\
    on_resize s1 h1 = Some (s2, h2) /\
    Config.particleCount (config s1) = 15%Z /\
    Config.particleCount (config s2) = 3%Z /\
    Sample.rescaled 60 (Host.layout h2 (container s2)) = 15%Z.
Proof.
  destruct construct_then_resize
    as (s1 & h1 & s2 & h2 & H1 & H2 & H3 & H4 & H5 & _).
  exists s1, h1, s2, h2. auto.
Qed.
End Resizing.

(** ** Frame requests *)

Section Outstanding.
Import Frames.

Lemma outstanding_app i q1 q2 :
  outstanding i (q1 ++ q2) = outstanding i q1 ++ outstanding i q2.
Proof.
  induction q1 as [|[id [j|]] q1 IH]; simpl; [reflexivity| |exact IH].
  destruct (Nat.eqb j i); simpl; rewrite IH; reflexivity.
Qed.

Lemma outstanding_elem i q id :
  id ∈ outstanding i q <-> (id, Animate i) ∈ q.
Proof.
  induction q as [|[id' [j|]] q IH]; simpl.
  - split; intros H; inversion H.
  - destruct (Nat.eqb_spec j i) as [->|Hne].
    + rewrite !elem_of_cons, IH. split; intros [H|H]; auto.
      * left. congruence.
      * left. congruence.
    + rewrite elem_of_cons, IH. split; [auto|].
      intros [H|H]; [congruence|exact H].
  - rewrite elem_of_cons, IH. split; [auto|].
    intros [H|H]; [congruence|exact H].
Qed.

Lemma outstanding_other i j id :
  i <> j -> outstanding i [(id, Animate j)] = [].
Proof.
  intros Hne. simpl. destruct (Nat.eqb_spec j i); congruence.
Qed.

Lemma outstanding_self i id : outstanding i [(id, Animate i)] = [id].
Proof. simpl. rewrite Nat.eqb_refl. reflexivity. Qed.

(** A handle belongs to one callback only. *)
Lemma handle_unique (q : list (positive * Callback)) id cb1 cb2 :
  NoDup (fst <$> q) -> (id, cb1) ∈ q -> (id, cb2) ∈ q -> cb1 = cb2.
Proof.
  induction q as [|[id' cb] q IH]; simpl; intros Hnd H1 H2.
  - inversion H1.
  - apply list.NoDup_cons in Hnd as [Hnotin Hnd].
    apply elem_of_cons in H1 as [H1|H1], H2 as [H2|H2].
    + congruence.
    + exfalso. apply Hnotin. injection H1 as <- <-.
      apply list_elem_of_fmap. exists (id, cb2). split; [reflexivity|exact H2].
    + exfalso. apply Hnotin. injection H2 as <- <-.
      apply list_elem_of_fmap. exists (id, cb1). split; [reflexivity|exact H1].
    + exact (IH Hnd H1 H2).
Qed.

(** Cancelling a handle removes it from the requests of every system. *)
Lemma outstanding_cancel i id q :
  outstanding i (List.filter (fun e => negb (Pos.eqb (fst e) id)) q)
  = List.filter (fun x => negb (Pos.eqb x id)) (outstanding i q).
Proof.
  induction q as [|[id' [j|]] q IH]; simpl; [reflexivity| |].
  - destruct (Pos.eqb id' id) eqn:E; simpl.
    + destruct (Nat.eqb j i); simpl; [rewrite E; simpl|]; exact IH.
    + destruct (Nat.eqb j i); simpl; [rewrite E; simpl; f_equal|]; exact IH.
  - destruct (Pos.eqb id' id); simpl; exact IH.
Qed.

Lemma filter_absent (id : positive) (l : list positive) :
  id ∉ l -> List.filter (fun x => negb (Pos.eqb x id)) l = l.
Proof.
  induction l as [|x l IH]; simpl; intros Hn; [reflexivity|].
  apply not_elem_of_cons in Hn as [Hne Hn].
  destruct (Pos.eqb_spec x id); [congruence|]. simpl. f_equal. exact (IH Hn).
Qed.

Lemma filter_only (id : positive) :
  List.filter (fun x => negb (Pos.eqb x id)) [id] = [].
Proof. simpl. rewrite Pos.eqb_refl. reflexivity. Qed.
End Outstanding.

(** ** Pages whose frame requests are accounted for *)

Section Accounted.
Import Frames.
Implicit Types (q : list (positive * Callback)) (w : Page.t).

Lemma filter_elem {A} (f : A -> bool) (l : list A) (x : A) :
  x ∈ List.filter f l -> x ∈ l.
Proof.
  rewrite !list_elem_of_In. intros H. apply filter_In in H. tauto.
Qed.

Lemma filter_Forall {A} (P : A -> Prop) (f : A -> bool) (l : list A) :
  Forall P l -> Forall P (List.filter f l).
Proof.
  rewrite !list.Forall_forall. intros H x Hx. apply H.
  exact (filter_elem _ _ _ Hx).
Qed.

Lemma filter_NoDup_fst q (f : positive * Callback -> bool) :
  NoDup (fst <$> q) -> NoDup (fst <$> List.filter f q).
Proof.
  induction q as [|e q IH]; simpl; intros Hnd; [exact Hnd|].
  apply list.NoDup_cons in Hnd as [Hnotin Hnd].
  destruct (f e); simpl; [|exact (IH Hnd)].
  apply list.NoDup_cons. split; [|exact (IH Hnd)].
  intros Hin. apply Hnotin.
  apply list_elem_of_fmap in Hin as (e' & -> & He').
  apply list_elem_of_fmap. exists e'. split; [reflexivity|].
  exact (filter_elem _ _ _ He').
Qed.

(** A method that touches neither the handle nor the queue. *)
Lemma accounted_quiet q w w' i s' :
  accounted q w ->
  Page.heap w' = <[i := s']> (Page.heap w) ->
  (forall s, Page.heap w !! i = Some s ->
             ParticleSystem.self s' = ParticleSystem.self s /\
             ParticleSystem.animationId s' = ParticleSystem.animationId s) ->
  Host.rafSeq (Page.host w') = Host.rafSeq (Page.host w) ->
  Page.systems w' = Page.systems w ->
  accounted q w'.
Proof.
  intros [Ho Hf Hn Ht Hr Hrn] Hheap Hs Hseq Hsys.
  split; rewrite ?Hheap, ?Hseq, ?Hsys, ?length_insert; try assumption.
  intros j sj Hj. apply list_lookup_insert_Some in Hj as [(<- & <- & Hlt)|[Hne Hj]].
  - apply lookup_lt_is_Some in Hlt as [s Hs0].
    destruct (Hs s Hs0) as [Hself Hid]. destruct (Ho i s Hs0) as [H1 H2].
    split; congruence.
  - exact (Ho j sj Hj).
Qed.

(** [animate] on an object with no request pending in [q]. *)
Lemma accounted_enqueue q w w' i s' :
  (forall j sj, Page.heap w !! j = Some sj ->
                ParticleSystem.self sj = j /\
                (j <> i ->
                 outstanding j q = option_list (ParticleSystem.animationId sj))) ->
  outstanding i q = [] ->
  Forall (fun e => (fst e < Host.rafSeq (Page.host w))%positive) q ->
  NoDup (fst <$> q) ->
  (forall id j, (id, Animate j) ∈ q -> (j < length (Page.heap w))%nat) ->
  (forall e, e ∈ Page.systems w -> (snd e < length (Page.heap w))%nat) ->
  NoDup (snd <$> Page.systems w) ->
  (i < length (Page.heap w))%nat ->
  Page.heap w' = <[i := s']> (Page.heap w) ->
  ParticleSystem.self s' = i ->
  ParticleSystem.animationId s' = Some (Host.rafSeq (Page.host w)) ->
  Host.rafSeq (Page.host w') = Pos.succ (Host.rafSeq (Page.host w)) ->
  Page.systems w' = Page.systems w ->
  accounted (q ++ [(Host.rafSeq (Page.host w), Animate i)]) w'.
Proof.
  intros Ho Hi Hf Hn Ht Hr Hrn Hlt Hheap Hself Hid Hseq Hsys.
  split; rewrite ?Hheap, ?Hseq, ?Hsys, ?length_insert; try assumption.
  - intros j sj Hj. unfold tracked. rewrite outstanding_app.
    apply list_lookup_insert_Some in Hj as [(<- & <- & _)|[Hne Hj]].
    + split; [exact Hself|].
      rewrite Hi, outstanding_self, Hid. reflexivity.
    + destruct (Ho j sj Hj) as [H1 H2]. split; [exact H1|].
      rewrite outstanding_other, app_nil_r by congruence.
      apply H2. congruence.
  - apply Forall_app. split.
    + eapply list.Forall_impl; [exact Hf|]. simpl. intros e He. lia.
    + apply Forall_singleton. simpl. lia.
  - rewrite fmap_app. apply list.NoDup_app. split; [exact Hn|]. split.
    + intros x Hx Hx'. simpl in Hx'. apply list_elem_of_singleton in Hx'.
      subst x. apply list_elem_of_fmap in Hx as (e & He1 & He2).
      rewrite list.Forall_forall in Hf. specialize (Hf e He2). lia.
    + simpl. apply NoDup_singleton.
  - intros id j Hj. apply elem_of_app in Hj as [Hj|Hj]; [exact (Ht id j Hj)|].
    apply list_elem_of_singleton in Hj. congruence.
Qed.

(** [animate] called from the frame whose head is its own request. *)
Lemma accounted_run_animate q w w' i id s' :
  accounted ((id, Animate i) :: q) w ->
  Page.heap w' = <[i := s']> (Page.heap w) ->
  ParticleSystem.self s' = i ->
  ParticleSystem.animationId s' = Some (Host.rafSeq (Page.host w)) ->
  Host.rafSeq (Page.host w') = Pos.succ (Host.rafSeq (Page.host w)) ->
  Page.systems w' = Page.systems w ->
  accounted (q ++ [(Host.rafSeq (Page.host w), Animate i)]) w'.
Proof.
  intros [Ho Hf Hn Ht Hr Hrn] Hheap Hself Hid Hseq Hsys.
  assert (Hlt : (i < length (Page.heap w))%nat).
  { apply (Ht id). apply elem_of_cons. left. reflexivity. }
  apply list.Forall_cons in Hf as [_ Hf].
  rewrite fmap_cons in Hn. apply list.NoDup_cons in Hn as [Hfresh Hn].
  apply accounted_enqueue with (w := w) (s' := s'); try assumption.
  - intros j sj Hj. destruct (Ho j sj Hj) as [H1 H2]. split; [exact H1|].
    intros Hne. rewrite <- H2. simpl.
    destruct (Nat.eqb_spec i j); [congruence|reflexivity].
  - apply lookup_lt_is_Some in Hlt as [s Hs].
    destruct (Ho i s Hs) as [_ H2]. simpl in H2.
    rewrite Nat.eqb_refl in H2.
    destruct (outstanding i q) as [|x l] eqn:E; [reflexivity|].
    exfalso. apply Hfresh.
    destruct (ParticleSystem.animationId s); simpl in H2; discriminate.
  - intros id' j Hj. apply (Ht id'). apply elem_of_cons. right. exact Hj.
Qed.

(** [animate] called on a paused object. *)
Lemma accounted_start_animate q w w' i s s' :
  accounted q w ->
  Page.heap w !! i = Some s ->
  ParticleSystem.animationId s = None ->
  Page.heap w' = <[i := s']> (Page.heap w) ->
  ParticleSystem.self s' = i ->
  ParticleSystem.animationId s' = Some (Host.rafSeq (Page.host w)) ->
  Host.rafSeq (Page.host w') = Pos.succ (Host.rafSeq (Page.host w)) ->
  Page.systems w' = Page.systems w ->
  accounted (q ++ [(Host.rafSeq (Page.host w), Animate i)]) w'.
Proof.
  intros [Ho Hf Hn Ht Hr Hrn] Hs Hnone Hheap Hself Hid Hseq Hsys.
  apply accounted_enqueue with (w := w) (s' := s'); try assumption.
  - intros j sj Hj. destruct (Ho j sj Hj) as [H1 H2]. split; [exact H1|].
    intros _. exact H2.
  - destruct (Ho i s Hs) as [_ H2]. rewrite H2, Hnone. reflexivity.
  - apply lookup_lt_is_Some. eexists. exact Hs.
Qed.

(** [pause] on a running object: its request is cancelled. *)
Lemma accounted_cancel q w w' i s s' id :
  accounted q w ->
  Page.heap w !! i = Some s ->
  ParticleSystem.animationId s = Some id ->
  Page.heap w' = <[i := s']> (Page.heap w) ->
  ParticleSystem.self s' = ParticleSystem.self s ->
  ParticleSystem.animationId s' = None ->
  Host.rafSeq (Page.host w') = Host.rafSeq (Page.host w) ->
  Page.systems w' = Page.systems w ->
  accounted (List.filter (fun e => negb (Pos.eqb (fst e) id)) q) w'.
Proof.
  intros [Ho Hf Hn Ht Hr Hrn] Hs Hsome Hheap Hself Hid Hseq Hsys.
  destruct (Ho i s Hs) as [Hi1 Hi2]. rewrite Hsome in Hi2. simpl in Hi2.
  split; rewrite ?Hheap, ?Hseq, ?Hsys, ?length_insert; try assumption.
  - intros j sj Hj. unfold tracked. rewrite outstanding_cancel.
    apply list_lookup_insert_Some in Hj as [(<- & <- & _)|[Hne Hj]].
    + split; [congruence|]. rewrite Hi2, filter_only, Hid. reflexivity.
    + destruct (Ho j sj Hj) as [H1 H2]. split; [exact H1|].
      rewrite filter_absent; [exact H2|].
      intros Hin. apply Hne.
      apply outstanding_elem in Hin.
      assert (Hin' : (id, Animate i) ∈ q).
      { apply outstanding_elem. rewrite Hi2. apply list_elem_of_singleton.
        reflexivity. }
      pose proof (handle_unique q id _ _ Hn Hin' Hin) as E. congruence.
  - apply filter_Forall, Hf.
  - apply filter_NoDup_fst, Hn.
  - intros id' j Hj. apply (Ht id'). exact (filter_elem _ _ _ Hj).
Qed.

(** A constructor: the new object sits at the end of the heap and holds
    the request it has just made. *)
Lemma accounted_alloc q w w' s' :
  accounted q w ->
  Page.heap w' = Page.heap w ++ [s'] ->
  ParticleSystem.self s' = length (Page.heap w) ->
  ParticleSystem.animationId s' = Some (Host.rafSeq (Page.host w)) ->
  Host.rafSeq (Page.host w') = Pos.succ (Host.rafSeq (Page.host w)) ->
  Page.systems w' = Page.systems w ->
  accounted (q ++ [(Host.rafSeq (Page.host w), Animate (length (Page.heap w)))])
            w'.
Proof.
  intros [Ho Hf Hn Ht Hr Hrn] Hheap Hself Hid Hseq Hsys.
  assert (Hnone : outstanding (length (Page.heap w)) q = []).
  { destruct (outstanding (length (Page.heap w)) q) as [|x l] eqn:E;
      [reflexivity|].
    assert (Hx : x ∈ outstanding (length (Page.heap w)) q).
    { rewrite E. apply elem_of_cons. left. reflexivity. }
    apply outstanding_elem, Ht in Hx. lia. }
  split; rewrite ?Hheap, ?Hseq, ?Hsys, ?length_app; simpl; try assumption.
  - intros j sj Hj. unfold tracked. rewrite outstanding_app.
    apply lookup_app_Some in Hj as [Hj|[Hge Hj]].
    + destruct (Ho j sj Hj) as [H1 H2]. split; [exact H1|].
      apply lookup_lt_Some in Hj.
      rewrite outstanding_other, app_nil_r by lia. exact H2.
    + apply list_lookup_singleton_Some in Hj as [Hz <-].
      assert (j = length (Page.heap w)) as -> by lia.
      split; [exact Hself|].
      rewrite Hnone, outstanding_self, Hid. reflexivity.
  - apply Forall_app. split.
    + eapply list.Forall_impl; [exact Hf|]. simpl. intros e He. lia.
    + apply Forall_singleton. simpl. lia.
  - rewrite fmap_app. apply list.NoDup_app. split; [exact Hn|]. split.
    + intros x Hx Hx'. simpl in Hx'. apply list_elem_of_singleton in Hx'.
      subst x. apply list_elem_of_fmap in Hx as (e & He1 & He2).
      rewrite list.Forall_forall in Hf. specialize (Hf e He2). lia.
    + simpl. apply NoDup_singleton.
  - intros id j Hj. apply elem_of_app in Hj as [Hj|Hj].
    + specialize (Ht id j Hj). lia.
    + apply list_elem_of_singleton in Hj. injection Hj as _ ->. lia.
  - intros e He. specialize (Hr e He). lia.
Qed.

(** The governor's callback has left the frame. *)
Lemma accounted_tail_check q w id :
  accounted ((id, CheckFrameRate) :: q) w -> accounted q w.
Proof.
  intros [Ho Hf Hn Ht Hr Hrn].
  apply list.Forall_cons in Hf as [_ Hf].
  rewrite fmap_cons in Hn. apply list.NoDup_cons in Hn as [_ Hn].
  split; try assumption.
  intros id' j Hj. apply (Ht id'). apply elem_of_cons. right. exact Hj.
Qed.

(** The governor asks for the next frame. *)
Lemma accounted_enqueue_check q w w' :
  accounted q w ->
  Page.heap w' = Page.heap w ->
  Host.rafSeq (Page.host w') = Pos.succ (Host.rafSeq (Page.host w)) ->
  Page.systems w' = Page.systems w ->
  accounted (q ++ [(Host.rafSeq (Page.host w), CheckFrameRate)]) w'.
Proof.
  intros [Ho Hf Hn Ht Hr Hrn] Hheap Hseq Hsys.
  split; rewrite ?Hheap, ?Hseq, ?Hsys; try assumption.
  - intros j sj Hj. unfold tracked. rewrite outstanding_app. simpl.
    rewrite app_nil_r. exact (Ho j sj Hj).
  - apply Forall_app. split.
    + eapply list.Forall_impl; [exact Hf|]. simpl. intros e He. lia.
    + apply Forall_singleton. simpl. lia.
  - rewrite fmap_app. apply list.NoDup_app. split; [exact Hn|]. split.
    + intros x Hx Hx'. simpl in Hx'. apply list_elem_of_singleton in Hx'.
      subst x. apply list_elem_of_fmap in Hx as (e & He1 & He2).
      rewrite list.Forall_forall in Hf. specialize (Hf e He2). lia.
    + simpl. apply NoDup_singleton.
  - intros id' j Hj. apply elem_of_app in Hj as [Hj|Hj].
    + exact (Ht id' j Hj).
    + apply list_elem_of_singleton in Hj. discriminate.
Qed.

(** A change of the registry. *)
Lemma accounted_registry q w w' :
  accounted q w ->
  Page.heap w' = Page.heap w ->
  Host.rafSeq (Page.host w') = Host.rafSeq (Page.host w) ->
  (forall e, e ∈ Page.systems w' -> (snd e < length (Page.heap w))%nat) ->
  NoDup (snd <$> Page.systems w') ->
  accounted q w'.
Proof.
  intros [Ho Hf Hn Ht Hr Hrn] Hheap Hseq Hr' Hrn'.
  split; rewrite ?Hheap, ?Hseq; assumption.
Qed.
End Accounted.

(** ** How pages evolve *)

Section Evolution.
Import Frames.
Variable R : ParticleSystem.t -> ParticleSystem.t -> Prop.
Hypothesis R_refl : forall s, R s s.
Hypothesis R_trans : forall s1 s2 s3, R s1 s2 -> R s2 s3 -> R s1 s3.

Lemma evolves_refl w : evolves R w w.
Proof. split; [|auto]. intros i s Hs. exists s. auto. Qed.

Lemma steady_ret {A} (a : A) : steady R (ret a).
Proof. intros w0 w a' w' He [= <- <-]. exact He. Qed.

Lemma steady_bind {A B} (m : M Page.t A) (k : A -> M Page.t B) :
  steady R m -> (forall a, steady R (k a)) -> steady R (bind m k).
Proof.
  intros Hm Hk w0 w b w' He H.
  apply bind_Some in H as (a & w1 & H1 & H2).
  exact (Hk a w0 w1 b w' (Hm w0 w a w1 He H1) H2).
Qed.

Lemma steady_get : steady R Page.get.
Proof. intros w0 w a w' He [= <- <-]. exact He. Qed.

Lemma steady_with_get {B} (k : Page.t -> M Page.t B) :
  (forall w, steady R (k w)) -> steady R (bind Page.get k).
Proof. intros Hk. apply steady_bind; [apply steady_get|exact Hk]. Qed.

Lemma steady_modify (f : Page.t -> Page.t) :
  (forall w, Page.heap (f w) = Page.heap w) ->
  (forall w, Page.isHighPerformance w = false ->
             Page.isHighPerformance (f w) = false) ->
  steady R (Page.modify f).
Proof.
  intros Hh Hp w0 w a w' [He1 He2] [= <- <-]. split.
  - intros i s Hs. rewrite Hh. exact (He1 i s Hs).
  - intros H0. apply Hp, He2, H0.
Qed.

Lemma steady_on_host {A} (m : M Host.t A) : steady R (Page.on_host m).
Proof.
  intros w0 w a w' He H. unfold Page.on_host in H.
  destruct (m (Page.host w)) as [[a' h]|]; [|discriminate].
  injection H as <- <-. exact He.
Qed.

Lemma steady_at (i : nat) f : respects R f -> steady R (Page.at_ i f).
Proof.
  intros Hf w0 w a w' [He1 He2] H. unfold Page.at_ in H.
  destruct (Page.heap w !! i) as [s|] eqn:Hs; [|discriminate].
  destruct (f s (Page.host w)) as [[s' h]|] eqn:Hfs; [|discriminate].
  injection H as <- <-. split; [|exact He2].
  intros j sj Hj. destruct (He1 j sj Hj) as (sj' & Hj' & Hr). simpl.
  destruct (decide (i = j)) as [->|Hne].
  - exists s'. split.
    + apply list_lookup_insert_eq. apply lookup_lt_is_Some. eauto.
    + apply R_trans with (s2 := s); [|exact (Hf _ _ _ _ Hfs)]. congruence.
  - exists sj'. rewrite list_lookup_insert_ne by exact Hne. auto.
Qed.

Lemma steady_alloc ctor : steady R (Page.alloc ctor).
Proof.
  intros w0 w a w' [He1 He2] H. unfold Page.alloc in H.
  destruct (ctor _ _) as [[s h]|]; [|discriminate].
  injection H as <- <-. split; [|exact He2].
  intros j sj Hj. destruct (He1 j sj Hj) as (sj' & Hj' & Hr).
  exists sj'. split; [|exact Hr]. simpl. apply lookup_app_l_Some, Hj'.
Qed.

Lemma steady_for_each {A} (l : list A) (f : A -> M Page.t unit) :
  (forall a, steady R (f a)) -> steady R (Page.for_each l f).
Proof.
  intros Hf. induction l as [|a l IH]; simpl.
  - apply steady_ret.
  - apply steady_bind; [apply Hf|]. intros _. exact IH.
Qed.

Lemma steady_every f : respects R f -> steady R (Page.every f).
Proof.
  intros Hf. apply steady_with_get. intros w.
  apply steady_for_each. intros i. apply steady_at, Hf.
Qed.

Lemma steady_forEach f : respects R f -> steady R (ParticleManager.forEach f).
Proof.
  intros Hf. apply steady_with_get. intros w.
  apply steady_for_each. intros e. apply steady_at, Hf.
Qed.

Lemma steady_destroyAll :
  respects R ParticleSystem.destroy -> steady R ParticleManager.destroyAll.
Proof.
  intros Hd. apply steady_bind; [apply steady_forEach, Hd|].
  intros _. apply steady_modify; reflexivity || auto.
Qed.

Lemma steady_checkFrameRate now :
  respects R PerformanceManager.shrink ->
  steady R (PerformanceManager.checkFrameRate now).
Proof.
  intros Hs. unfold PerformanceManager.checkFrameRate.
  apply steady_bind; [apply steady_modify; reflexivity || auto|]. intros _.
  apply steady_with_get. intros w.
  apply steady_bind.
  - destruct (JS.ge _ _); [|apply steady_ret].
    apply steady_bind; [apply steady_modify; reflexivity || auto|].
    intros _.
    destruct ((_ <? _)%Z && _); [|apply steady_ret].
    apply steady_bind; [apply steady_modify; reflexivity || auto|].
    intros _. apply steady_forEach, Hs.
  - intros _. apply steady_bind; [apply steady_on_host|].
    intros _. apply steady_ret.
Qed.

(** An event relates every object to what it becomes by [R], as soon
    as the methods its listeners call do; and it never raises the
    performance flag. *)
Lemma step_steady (e : Events.event) :
  Forall (respects R) (methods_of e) -> steady R (Events.step e).
Proof.
  intros Hm. destruct e; simpl in Hm; simpl;
    repeat match goal with
           | H : Forall _ (_ :: _) |- _ =>
               apply list.Forall_cons in H as [? H]
           end.
  - (* frame *)
    apply steady_with_get. intros w.
    apply steady_bind; [apply steady_modify; reflexivity || auto|].
    intros _. apply steady_for_each. intros [id [self|]]; simpl.
    + apply steady_at. assumption.
    + apply steady_checkFrameRate. assumption.
  - (* resize *)
    apply steady_bind; [apply steady_modify; reflexivity || auto|].
    intros _. apply steady_every. assumption.
  - (* visibilitychange *)
    apply steady_bind.
    + destruct hidden; apply steady_forEach; assumption.
    + intros _. apply steady_every. assumption.
  - apply steady_every. assumption.
  - apply steady_every. assumption.
  - apply steady_destroyAll. assumption.
  - apply steady_bind; [apply steady_alloc|]. intros _. apply steady_ret.
  - apply steady_at. assumption.
  - apply steady_at. assumption.
  - apply steady_at. assumption.
  - apply steady_forEach. assumption.
  - apply steady_forEach. assumption.
  - apply steady_destroyAll. assumption.
Qed.

Lemma step_evolves (e : Events.event) (w w' : Page.t) :
  Forall (respects R) (methods_of e) ->
  Events.step e w = Some (tt, w') ->
  evolves R w w'.
Proof.
  intros Hm H. exact (step_steady e Hm w w tt w' (evolves_refl w) H).
Qed.
End Evolution.

(** ** Every listener returns and keeps the requests accounted for *)

Section Progress.
Import Frames.
Implicit Types (q : list (positive * Callback)) (w : Page.t).

Lemma for_each_total_rest {A} (I : list A -> Page.t -> Prop)
    (f : A -> M Page.t unit) :
  (forall a rest w, I (a :: rest) w ->
                    exists w', f a w = Some (tt, w') /\ I rest w') ->
  forall l w, I l w ->
              exists w', Page.for_each l f w = Some (tt, w') /\ I [] w'.
Proof.
  intros Hf l. induction l as [|a l IH]; intros w HI; simpl.
  - exists w. split; [reflexivity|exact HI].
  - destruct (Hf a l w HI) as (w1 & H1 & HI1).
    destruct (IH w1 HI1) as (w2 & H2 & HI2).
    exists w2. split; [|exact HI2].
    rewrite (bind_step _ _ _ _ _ H1). exact H2.
Qed.

Lemma for_each_total {A} (I : Page.t -> Prop) (l : list A)
    (f : A -> M Page.t unit) :
  (forall a w, a ∈ l -> I w -> exists w', f a w = Some (tt, w') /\ I w') ->
  forall w, I w ->
            exists w', Page.for_each l f w = Some (tt, w') /\ I w'.
Proof.
  intros Hf w HI.
  destruct (for_each_total_rest
              (fun rest w => I w /\ forall a, a ∈ rest -> a ∈ l) f)
    with (l := l) (w := w) as (w' & H & HI' & _).
  - intros a rest w0 [HI0 Hsub].
    destruct (Hf a w0) as (w1 & H1 & HI1); [|exact HI0|].
    + apply Hsub, elem_of_cons. left. reflexivity.
    + exists w1. split; [exact H1|]. split; [exact HI1|].
      intros b Hb. apply Hsub, elem_of_cons. right. exact Hb.
  - split; [exact HI|auto].
  - exists w'. split; [exact H|exact HI'].
Qed.

Lemma same_shape_refl w : same_shape w w.
Proof. split; reflexivity. Qed.

Lemma same_shape_trans w1 w2 w3 :
  same_shape w1 w2 -> same_shape w2 w3 -> same_shape w1 w3.
Proof. intros [H1 H2] [H3 H4]. split; congruence. Qed.

(** A quiet method on a valid address. *)
Lemma at_quiet q w i f :
  quiet f ->
  accounted q w ->
  (i < length (Page.heap w))%nat ->
  exists w',
    Page.at_ i f w = Some (tt, w') /\
    accounted q w' /\
    Host.rafQueue (Page.host w') = Host.rafQueue (Page.host w) /\
    same_shape w w'.
Proof.
  intros Hf Hacc Hlt. unfold Page.at_.
  apply lookup_lt_is_Some in Hlt as [s Hs]. rewrite Hs.
  destruct (Hf s (Page.host w)) as (s' & k & -> & Hself & Hid).
  eexists. split; [reflexivity|]. split; [|split; [reflexivity|]].
  - eapply accounted_quiet with (i := i) (s' := s');
      [exact Hacc|reflexivity| |reflexivity|reflexivity].
    intros s0 Hs0. rewrite Hs in Hs0. injection Hs0 as <-. auto.
  - split; simpl; [apply length_insert|reflexivity].
Qed.

(** [pause] on a valid address. *)
Lemma at_pause w i :
  wf w ->
  (i < length (Page.heap w))%nat ->
  exists w',
    Page.at_ i ParticleSystem.pause w = Some (tt, w') /\
    wf w' /\ same_shape w w'.
Proof.
  intros Hacc Hlt. unfold Page.at_.
  apply lookup_lt_is_Some in Hlt as [s Hs]. rewrite Hs.
  rewrite pause_spec.
  destruct (ParticleSystem.animationId s) as [id|] eqn:Hid.
  - eexists. split; [reflexivity|]. split.
    + unfold wf. simpl.
      eapply accounted_cancel with (i := i) (s := s);
        [exact Hacc|exact Hs|exact Hid|reflexivity..].
    + split; simpl; [apply length_insert|reflexivity].
  - eexists. split; [reflexivity|]. split.
    + unfold wf. simpl.
      eapply accounted_quiet with (i := i) (s' := s);
        [exact Hacc|reflexivity| |reflexivity|reflexivity].
      intros s0 Hs0. rewrite Hs in Hs0. injection Hs0 as <-. auto.
    + split; simpl; [apply length_insert|reflexivity].
Qed.

(** [animate] on a paused object. *)
Lemma at_animate_paused w i s :
  wf w ->
  Page.heap w !! i = Some s ->
  ParticleSystem.animationId s = None ->
  exists w',
    Page.at_ i ParticleSystem.animate w = Some (tt, w') /\
    wf w' /\ same_shape w w'.
Proof.
  intros Hacc Hs Hid. unfold Page.at_. rewrite Hs.
  destruct (animate_spec s (Page.host w)) as (ps & cmds & -> & _).
  destruct (acc_objects _ _ Hacc i s Hs) as [Hself _].
  eexists. split; [reflexivity|]. split.
  - unfold wf. simpl. rewrite Hself.
    eapply accounted_start_animate with (i := i) (s := s);
      [exact Hacc|exact Hs|exact Hid|reflexivity|exact Hself|reflexivity..].
  - split; simpl; [apply length_insert|reflexivity].
Qed.

(** [resume] on a valid address. *)
Lemma at_resume w i :
  wf w ->
  (i < length (Page.heap w))%nat ->
  exists w',
    Page.at_ i ParticleSystem.resume w = Some (tt, w') /\
    wf w' /\ same_shape w w'.
Proof.
  intros Hacc Hlt.
  apply lookup_lt_is_Some in Hlt as [s Hs].
  destruct (ParticleSystem.animationId s) as [id|] eqn:Hid.
  - unfold Page.at_. rewrite Hs, (resume_running s _ id Hid).
    eexists. split; [reflexivity|]. split.
    + unfold wf. simpl.
      eapply accounted_quiet with (i := i) (s' := s);
        [exact Hacc|reflexivity| |reflexivity|reflexivity].
      intros s0 Hs0. rewrite Hs in Hs0. injection Hs0 as <-. auto.
    + split; simpl; [apply length_insert|reflexivity].
  - destruct (at_animate_paused w i s Hacc Hs Hid) as (w' & H & Hw).
    exists w'. split; [|exact Hw].
    unfold Page.at_ in *. rewrite Hs in *.
    rewrite (resume_paused s _ Hid). exact H.
Qed.

(** [destroy] on a valid address. *)
Lemma at_destroy w i :
  wf w ->
  (i < length (Page.heap w))%nat ->
  exists w',
    Page.at_ i ParticleSystem.destroy w = Some (tt, w') /\
    wf w' /\ same_shape w w'.
Proof.
  intros Hacc Hlt. unfold Page.at_.
  apply lookup_lt_is_Some in Hlt as [s Hs]. rewrite Hs.
  rewrite destroy_spec.
  destruct (ParticleSystem.animationId s) as [id|] eqn:Hid.
  - eexists. split; [reflexivity|]. split.
    + unfold wf. simpl.
      eapply accounted_cancel with (i := i) (s := s);
        [exact Hacc|exact Hs|exact Hid|reflexivity..].
    + split; simpl; [apply length_insert|reflexivity].
  - eexists. split; [reflexivity|]. split.
    + unfold wf. simpl.
      eapply accounted_quiet with (i := i);
        [exact Hacc|reflexivity| |reflexivity|reflexivity].
      intros s0 Hs0. rewrite Hs in Hs0. injection Hs0 as <-.
      simpl. auto.
    + split; simpl; [apply length_insert|reflexivity].
Qed.

(** A method called on several valid addresses in turn. *)
Lemma for_each_at (J : Page.t -> Prop) {A} (idx : A -> nat)
    (f : ParticleSystem.t -> M Host.t ParticleSystem.t) (l : list A) w :
  (forall w i, J w -> (i < length (Page.heap w))%nat ->
               exists w', Page.at_ i f w = Some (tt, w') /\
                          J w' /\ same_shape w w') ->
  (forall a, a ∈ l -> (idx a < length (Page.heap w))%nat) ->
  J w ->
  exists w',
    Page.for_each l (fun a => Page.at_ (idx a) f) w = Some (tt, w') /\
    J w' /\ same_shape w w'.
Proof.
  intros Hf Hl HJ.
  apply (for_each_total (fun w1 => J w1 /\ same_shape w w1)).
  - intros a w1 Ha [HJ1 Hsh].
    destruct (Hf w1 (idx a) HJ1) as (w2 & H2 & HJ2 & Hsh2).
    + destruct Hsh as [-> _]. apply Hl, Ha.
    + exists w2. split; [exact H2|]. split; [exact HJ2|].
      exact (same_shape_trans _ _ _ Hsh Hsh2).
  - split; [exact HJ|apply same_shape_refl].
Qed.

Lemma every_total (J : Page.t -> Prop)
    (f : ParticleSystem.t -> M Host.t ParticleSystem.t) w :
  (forall w i, J w -> (i < length (Page.heap w))%nat ->
               exists w', Page.at_ i f w = Some (tt, w') /\
                          J w' /\ same_shape w w') ->
  J w ->
  exists w', Page.every f w = Some (tt, w') /\ J w' /\ same_shape w w'.
Proof.
  intros Hf HJ. unfold Page.every, Page.get, bind.
  apply (for_each_at J (fun i => i)); [exact Hf| |exact HJ].
  intros i Hi. apply list_elem_of_In, in_seq in Hi. lia.
Qed.

Lemma forEach_total (J : Page.t -> Prop)
    (f : ParticleSystem.t -> M Host.t ParticleSystem.t) w :
  (forall w i, J w -> (i < length (Page.heap w))%nat ->
               exists w', Page.at_ i f w = Some (tt, w') /\
                          J w' /\ same_shape w w') ->
  (forall e, e ∈ Page.systems w -> (snd e < length (Page.heap w))%nat) ->
  J w ->
  exists w',
    ParticleManager.forEach f w = Some (tt, w') /\ J w' /\ same_shape w w'.
Proof.
  intros Hf Hr HJ. unfold ParticleManager.forEach, Page.get, bind.
  apply (for_each_at J snd); [exact Hf|exact Hr|exact HJ].
Qed.

Lemma at_quiet_settled q q0 f :
  quiet f ->
  forall w i, settled q q0 w -> (i < length (Page.heap w))%nat ->
    exists w', Page.at_ i f w = Some (tt, w') /\
               settled q q0 w' /\ same_shape w w'.
Proof.
  intros Hf w i [Hacc Hq] Hlt.
  destruct (at_quiet q w i f Hf Hacc Hlt) as (w' & H & Hacc' & Hq' & Hsh).
  exists w'. split; [exact H|]. split; [|exact Hsh].
  split; [exact Hacc'|congruence].
Qed.

Lemma wf_settled w : wf w <-> settled (Host.rafQueue (Page.host w))
                                      (Host.rafQueue (Page.host w)) w.
Proof. unfold wf, settled. tauto. Qed.

(** The quiet methods. *)
Lemma quiet_on_resize : quiet ParticleSystem.on_resize.
Proof.
  intros s h. destruct (on_resize_spec s h) as (ps & k & H & _).
  eexists _, k. split; [exact H|]. split; reflexivity.
Qed.

Lemma quiet_shrink : quiet PerformanceManager.shrink.
Proof.
  intros s h. unfold PerformanceManager.shrink.
  match goal with
  | |- context [ParticleSystem.createParticles ?s1 h] =>
      destruct (createParticles_spec s1 h) as (ps & k & H & _)
  end.
  eexists _, k. split; [exact H|]. split; reflexivity.
Qed.

Lemma quiet_pointer_moved target clientX clientY :
  quiet (Events.pointer_moved target clientX clientY).
Proof.
  intros s h. unfold Events.pointer_moved.
  destruct (Events.hears target s); eexists _, 0%nat;
    rewrite advance_0; (split; [reflexivity|split; reflexivity]).
Qed.

Lemma quiet_pointer_left target : quiet (Events.pointer_left target).
Proof.
  intros s h. unfold Events.pointer_left.
  destruct (Events.hears target s); eexists _, 0%nat;
    rewrite advance_0; (split; [reflexivity|split; reflexivity]).
Qed.

Lemma every_quiet f w :
  quiet f -> wf w ->
  exists w', Page.every f w = Some (tt, w') /\ wf w' /\ same_shape w w'.
Proof.
  intros Hf Hw. apply wf_settled in Hw.
  destruct (every_total _ f w (at_quiet_settled _ _ f Hf) Hw)
    as (w' & H & Hs & Hsh).
  exists w'. split; [exact H|]. split; [|exact Hsh].
  destruct Hs as [Hacc Hq]. unfold wf. rewrite Hq. exact Hacc.
Qed.

Lemma at_visibilitychange hidden w i :
  wf w ->
  (i < length (Page.heap w))%nat ->
  exists w',
    Page.at_ i (ParticleSystem.on_visibilitychange hidden) w = Some (tt, w') /\
    wf w' /\ same_shape w w'.
Proof. destruct hidden; [apply at_pause|apply at_resume]. Qed.

Lemma accounted_same q w w' :
  accounted q w ->
  Page.heap w' = Page.heap w ->
  Host.rafSeq (Page.host w') = Host.rafSeq (Page.host w) ->
  Page.systems w' = Page.systems w ->
  accounted q w'.
Proof.
  intros Hacc Hh Hs Hr. apply (accounted_registry q w w' Hacc Hh Hs).
  - rewrite Hr. apply (acc_registry _ _ Hacc).
  - rewrite Hr. apply (acc_registry_nodup _ _ Hacc).
Qed.

(** [optimizeParticles] in the middle of a frame. *)
Lemma optimizeParticles_total q q0 w :
  settled q q0 w ->
  exists w',
    PerformanceManager.optimizeParticles w = Some (tt, w') /\
    settled q q0 w' /\ same_shape w w'.
Proof.
  intros Hs. unfold PerformanceManager.optimizeParticles.
  apply forEach_total; [|apply (acc_registry _ _ (proj1 Hs))|exact Hs].
  apply at_quiet_settled, quiet_shrink.
Qed.

(** The governor's callback, at the head of the frame. *)
Lemma checkFrameRate_total rest w id now :
  wf_with ((id, CheckFrameRate) :: rest) w ->
  exists w',
    PerformanceManager.checkFrameRate now w = Some (tt, w') /\
    wf_with rest w' /\ same_shape w w'.
Proof.
  intros Hacc. unfold wf_with in Hacc. simpl in Hacc.
  apply accounted_tail_check in Hacc.
  set (q := rest ++ Host.rafQueue (Page.host w)) in *.
  assert (Hend : forall w1,
             settled q (Host.rafQueue (Page.host w)) w1 ->
             same_shape w w1 ->
             exists w',
               bind (Page.on_host (Env.requestAnimationFrame CheckFrameRate))
                    (fun _ => ret tt) w1 = Some (tt, w') /\
               wf_with rest w' /\ same_shape w w').
  { intros w1 [Hacc1 Hq1] Hsh. eexists. split; [reflexivity|]. split.
    - unfold wf_with. simpl. rewrite Hq1, app_assoc. fold q.
      apply accounted_enqueue_check with (w := w1);
        [exact Hacc1|reflexivity..].
    - exact Hsh. }
  unfold PerformanceManager.checkFrameRate.
  unfold bind at 1. unfold Page.modify at 1.
  unfold bind at 1. unfold Page.get at 1.
  set (w1 := Page.set_monitor _ _ w).
  assert (Hs1 : settled q (Host.rafQueue (Page.host w)) w1).
  { split; [|reflexivity]. apply (accounted_same q w); auto. }
  match goal with
  | |- exists w', bind ?m _ w1 = _ /\ _ =>
      assert (Hmid : exists w2,
                 m w1 = Some (tt, w2) /\
                 settled q (Host.rafQueue (Page.host w)) w2 /\
                 same_shape w w2)
  end.
  { destruct (JS.ge (now - Page.lastTime w1) 1000);
      [|exists w1; split; [reflexivity|split; [exact Hs1|split; reflexivity]]].
    unfold bind at 1. unfold Page.modify at 1.
    set (w2 := Page.set_monitor _ _ w1).
    assert (Hs2 : settled q (Host.rafQueue (Page.host w)) w2).
    { split; [|reflexivity]. apply (accounted_same q w); auto. }
    destruct ((Page.frames w1 <? 30)%Z && Page.isHighPerformance w1);
      [|exists w2; split; [reflexivity|split; [exact Hs2|split; reflexivity]]].
    unfold bind at 1. unfold Page.modify at 1.
    set (w3 := Page.set_isHighPerformance false w2).
    assert (Hs3 : settled q (Host.rafQueue (Page.host w)) w3).
    { split; [|reflexivity]. apply (accounted_same q w); auto. }
    destruct (optimizeParticles_total _ _ w3 Hs3) as (w4 & H4 & Hs4 & Hsh4).
    exists w4. split; [exact H4|]. split; [exact Hs4|].
    apply same_shape_trans with (w2 := w3); [split; reflexivity|exact Hsh4]. }
  destruct Hmid as (w2 & H2 & Hs2 & Hsh2).
  rewrite (bind_step _ _ _ _ _ H2).
  apply Hend; assumption.
Qed.

(** [animate], at the head of the frame. *)
Lemma run_animate_total rest w id i :
  wf_with ((id, Animate i) :: rest) w ->
  exists w',
    Page.at_ i ParticleSystem.animate w = Some (tt, w') /\
    wf_with rest w' /\ same_shape w w'.
Proof.
  intros Hacc. unfold wf_with in Hacc. simpl in Hacc.
  assert (Hlt : (i < length (Page.heap w))%nat).
  { apply (acc_targets _ _ Hacc id). apply elem_of_cons. left. reflexivity. }
  apply lookup_lt_is_Some in Hlt as [s Hs].
  destruct (acc_objects _ _ Hacc i s Hs) as [Hself _].
  unfold Page.at_. rewrite Hs.
  destruct (animate_spec s (Page.host w)) as (ps & cmds & -> & _).
  eexists. split; [reflexivity|]. split.
  - unfold wf_with. simpl. rewrite Hself, app_assoc.
    eapply accounted_run_animate with (i := i) (id := id);
      [exact Hacc|reflexivity|exact Hself|reflexivity..].
  - split; simpl; [apply length_insert|reflexivity].
Qed.

(** A whole animation frame. *)
Lemma run_frame_total now w :
  wf w ->
  exists w',
    Events.run_frame now w = Some (tt, w') /\ wf w' /\ same_shape w w'.
Proof.
  intros Hw. unfold Events.run_frame.
  unfold bind at 1. unfold Page.get at 1.
  unfold bind at 1. unfold Page.modify at 1.
  set (w0 := Page.set_host _ w).
  destruct (for_each_total_rest
              (fun rest w1 => wf_with rest w1 /\ same_shape w w1)
              (fun e => Events.run_callback now (snd e)))
    with (l := Host.rafQueue (Page.host w)) (w := w0)
    as (w' & H & Hw' & Hsh).
  - intros [id cb] rest w1 [Hw1 Hsh1]. simpl.
    destruct cb as [i|]; simpl.
    + destruct (run_animate_total rest w1 id i Hw1) as (w2 & H2 & Hw2 & Hsh2).
      exists w2. split; [exact H2|]. split; [exact Hw2|].
      exact (same_shape_trans _ _ _ Hsh1 Hsh2).
    + destruct (checkFrameRate_total rest w1 id now Hw1)
        as (w2 & H2 & Hw2 & Hsh2).
      exists w2. split; [exact H2|]. split; [exact Hw2|].
      exact (same_shape_trans _ _ _ Hsh1 Hsh2).
  - split; [|split; reflexivity].
    unfold wf_with. simpl. rewrite app_nil_r.
    apply (accounted_same _ w); auto.
  - exists w'. split; [exact H|]. split; [exact Hw'|exact Hsh].
Qed.

(** A constructor call. *)
Lemma alloc_total (s0 : nat -> ParticleSystem.t) w :
  (forall n, ParticleSystem.self (s0 n) = n) ->
  wf w ->
  exists w' s',
    Page.alloc (fun self => ParticleSystem.init (s0 self)) w
    = Some (length (Page.heap w), w') /\
    wf w' /\
    Page.heap w' = Page.heap w ++ [s'] /\
    Page.systems w' = Page.systems w.
Proof.
  intros Hself Hw. unfold Page.alloc.
  destruct (init_spec (s0 (length (Page.heap w))) (Page.host w))
    as (ps & cmds & k & -> & _).
  eexists _, _. split; [reflexivity|]. split; [|split; reflexivity].
  unfold wf. simpl. rewrite Hself.
  eapply accounted_alloc with (w := w);
    [exact Hw|reflexivity|simpl; auto|reflexivity..].
Qed.

Lemma set_elem key v m e :
  e ∈ ParticleManager.set key v m -> e = (key, v) \/ e ∈ m.
Proof.
  induction m as [|[k v'] m IH]; simpl.
  - intros H. apply list_elem_of_singleton in H. auto.
  - destruct (String.eqb k key).
    + intros H. apply elem_of_cons in H as [H|H]; [auto|].
      right. apply elem_of_cons. auto.
    + intros H. apply elem_of_cons in H as [H|H].
      * right. apply elem_of_cons. auto.
      * destruct (IH H) as [H'|H']; [auto|].
        right. apply elem_of_cons. auto.
Qed.

Lemma set_NoDup key v m :
  NoDup (snd <$> m) -> v ∉ snd <$> m ->
  NoDup (snd <$> ParticleManager.set key v m).
Proof.
  induction m as [|[k v'] m IH]; simpl; intros Hnd Hv.
  - apply NoDup_singleton.
  - apply list.NoDup_cons in Hnd as [Hv' Hnd].
    apply not_elem_of_cons in Hv as [Hne Hv].
    destruct (String.eqb k key); simpl.
    + apply list.NoDup_cons. split; assumption.
    + apply list.NoDup_cons. split; [|exact (IH Hnd Hv)].
      intros Hin. apply list_elem_of_fmap in Hin as (e & He1 & He2).
      apply set_elem in He2 as [->|He2]; [simpl in He1; congruence|].
      apply Hv'. apply list_elem_of_fmap. exists e. auto.
Qed.

(** A constructor call followed by [systems.set(key, system)]. *)
Lemma register_total (s0 : nat -> ParticleSystem.t) key w :
  (forall n, ParticleSystem.self (s0 n) = n) ->
  wf w ->
  exists w',
    bind (Page.alloc (fun self => ParticleSystem.init (s0 self)))
         (fun system =>
            Page.modify (fun w => Page.set_systems
                                    (ParticleManager.set key system
                                                         (Page.systems w)) w))
         w
    = Some (tt, w') /\
    wf w'.
Proof.
  intros Hself Hw.
  destruct (alloc_total s0 w Hself Hw) as (w1 & s' & H1 & Hw1 & Hh & Hr).
  rewrite (bind_step _ _ _ _ _ H1).
  eexists. split; [reflexivity|].
  unfold wf. simpl.
  apply (accounted_registry _ w1); [exact Hw1|reflexivity|reflexivity| |].
  - simpl. intros e He. rewrite Hh, length_app. simpl.
    apply set_elem in He as [->|He]; [simpl; lia|].
    rewrite Hr in He. pose proof (acc_registry _ _ Hw e He). lia.
  - simpl. rewrite Hr. apply set_NoDup; [apply (acc_registry_nodup _ _ Hw)|].
    intros Hin. apply list_elem_of_fmap in Hin as (e & He1 & He2).
    pose proof (acc_registry _ _ Hw e He2). lia.
Qed.

Lemma init_total doc w :
  wf w -> exists w', ParticleManager.init doc w = Some (tt, w') /\ wf w'.
Proof.
  intros Hw. unfold ParticleManager.init.
  destruct (for_each_total wf
              (combine (seq 0 (length (Document.heroSections doc)))
                       (Document.heroSections doc))
              (fun '(index, section) =>
                 bind (Page.alloc (fun self =>
                         ParticleSystem.new self section
                           (ParticleManager.hero_options
                              (Document.innerWidth doc))))
                      (fun system =>
                         Page.modify (fun w =>
                           Page.set_systems
                             (ParticleManager.set
                                (ParticleManager.numbered "hero-" index)
                                system (Page.systems w)) w))))
    with (w := w) as (w1 & H1 & Hw1); [|exact Hw|].
  { intros [index section] w0 _ Hw0.
    apply (register_total
             (fun self => ParticleSystem.mk ParticleSystem.Plain self section
                            (Canvas.mk 0 0 false []) [] (Mouse.mk 0 0) None
                            (ParticleSystem.make_config
                               (ParticleManager.hero_options
                                  (Document.innerWidth doc))) false));
      [reflexivity|exact Hw0]. }
  unfold ParticleManager.initHeroParticles.
  rewrite (bind_step _ _ _ _ _ H1).
  unfold ParticleManager.initSectionParticles.
  apply (for_each_total wf); [|exact Hw1].
  intros [index [section attribute]] w0 _ Hw0.
  destruct (String.eqb _ "geometric").
  - apply (register_total
             (fun self => ParticleSystem.mk ParticleSystem.Geometric self
                            section (Canvas.mk 0 0 false []) [] (Mouse.mk 0 0)
                            None _ false)); [reflexivity|exact Hw0].
  - apply (register_total
             (fun self => ParticleSystem.mk ParticleSystem.Plain self
                            section (Canvas.mk 0 0 false []) [] (Mouse.mk 0 0)
                            None _ false)); [reflexivity|exact Hw0].
Qed.

Lemma loaded_wf entropy layout : wf (Events.loaded entropy layout).
Proof.
  split; simpl.
  - intros i s H. rewrite lookup_nil in H. discriminate.
  - constructor.
  - constructor.
  - intros id i H. inversion H.
  - intros e H. inversion H.
  - constructor.
Qed.

Lemma DOMContentLoaded_total doc now w :
  wf w ->
  exists w', Events.DOMContentLoaded doc now w = Some (tt, w') /\ wf w'.
Proof.
  intros Hw. unfold Events.DOMContentLoaded.
  destruct (Document.reducedMotion doc).
  { exists w. split; [reflexivity|exact Hw]. }
  unfold PerformanceManager.init, PerformanceManager.monitorFrameRate.
  unfold bind at 1. unfold bind at 1. unfold Page.modify at 1.
  unfold bind at 1. unfold Page.modify at 1.
  unfold bind at 1. unfold Page.on_host at 1.
  unfold Env.requestAnimationFrame at 1. unfold ret at 1.
  unfold bind at 1. unfold Page.get at 1.
  match goal with
  | |- context [Page.isHighPerformance ?w1] =>
      assert (Hw1 : wf w1);
      [|destruct (Page.isHighPerformance w1);
        [apply init_total, Hw1|exists w1; split; [reflexivity|exact Hw1]]]
  end.
  unfold wf. simpl.
  apply accounted_enqueue_check with (w := w); [exact Hw|reflexivity..].
Qed.

Lemma destroyAll_total w :
  wf w ->
  exists w', ParticleManager.destroyAll w = Some (tt, w') /\ wf w'.
Proof.
  intros Hw. unfold ParticleManager.destroyAll.
  destruct (forEach_total wf ParticleSystem.destroy w)
    as (w1 & H1 & Hw1 & Hsh); [apply at_destroy|apply Hw|exact Hw|].
  rewrite (bind_step _ _ _ _ _ H1).
  eexists. split; [reflexivity|].
  apply (accounted_registry _ w1); [exact Hw1|reflexivity|reflexivity| |].
  - intros e He. inversion He.
  - constructor.
Qed.

(** Every enabled event is handled to the end, and leaves the frame
    requests accounted for. *)
Lemma step_total (e : Events.event) w :
  wf w -> enabled e w ->
  exists w', Events.step e w = Some (tt, w') /\ wf w'.
Proof.
  intros Hw He. destruct e; simpl in *.
  - destruct (run_frame_total now w Hw) as (w' & H & Hw' & _). eauto.
  - unfold bind at 1. unfold Page.modify at 1.
    match goal with
    | |- context [Page.every _ ?w1] =>
        destruct (every_quiet ParticleSystem.on_resize w1 quiet_on_resize)
          as (w' & H & Hw' & _); [|eauto]
    end.
    apply (accounted_same _ w); auto.
  - assert (H1 : exists w1,
               (if hidden then ParticleManager.pauseAll
                else ParticleManager.resumeAll) w = Some (tt, w1) /\ wf w1).
    { destruct hidden.
      - destruct (forEach_total wf ParticleSystem.pause w)
          as (w1 & H1 & Hw1 & _); [apply at_pause|apply Hw|exact Hw|eauto].
      - destruct (forEach_total wf ParticleSystem.resume w)
          as (w1 & H1 & Hw1 & _); [apply at_resume|apply Hw|exact Hw|eauto]. }
    destruct H1 as (w1 & H1 & Hw1).
    rewrite (bind_step _ _ _ _ _ H1).
    destruct (every_total wf (ParticleSystem.on_visibilitychange hidden) w1)
      as (w' & H & Hw' & _); [apply at_visibilitychange|exact Hw1|eauto].
  - destruct (every_quiet _ w (quiet_pointer_moved target clientX clientY) Hw)
      as (w' & H & Hw' & _). eauto.
  - destruct (every_quiet _ w (quiet_pointer_left target) Hw)
      as (w' & H & Hw' & _). eauto.
  - apply destroyAll_total, Hw.
  - destruct (alloc_total
                (fun self => ParticleSystem.mk ParticleSystem.Plain self
                               container (Canvas.mk 0 0 false []) []
                               (Mouse.mk 0 0) None
                               (ParticleSystem.make_config options) false)
                w) as (w' & s' & H & Hw' & _); [reflexivity|exact Hw|].
    exists w'. split; [|exact Hw'].
    unfold ParticleSystem.new. rewrite (bind_step _ _ _ _ _ H). reflexivity.
  - destruct (at_pause w system Hw He) as (w' & H & Hw' & _). eauto.
  - destruct (at_resume w system Hw He) as (w' & H & Hw' & _). eauto.
  - destruct (at_destroy w system Hw He) as (w' & H & Hw' & _). eauto.
  - destruct (forEach_total wf ParticleSystem.pause w)
      as (w1 & H1 & Hw1 & _); [apply at_pause|apply Hw|exact Hw|eauto].
  - destruct (forEach_total wf ParticleSystem.resume w)
      as (w1 & H1 & Hw1 & _); [apply at_resume|apply Hw|exact Hw|eauto].
  - apply destroyAll_total, Hw.
Qed.

(** The frame requests of a reachable page are accounted for. *)
Lemma reachable_wf w : Events.reachable w -> wf w.
Proof.
  induction 1 as [entropy layout|entropy layout doc now w' H|w e w' _ IH H].
  - apply loaded_wf.
  - destruct (DOMContentLoaded_total doc now _ (loaded_wf entropy layout))
      as (w1 & H1 & Hw1).
    congruence.
  - assert (He : enabled e w).
    { destruct e; simpl; try exact I; simpl in H; unfold Page.at_ in H;
        destruct (Page.heap w !! system) eqn:E; try discriminate;
        apply lookup_lt_is_Some; eauto. }
    destruct (step_total e w IH He) as (w1 & H1 & Hw1). congruence.
Qed.
End Progress.

(** ** What the methods keep *)

Section Kept.
Import Frames.
Import ParticleSystem.

Lemma frozen_refl c : frozen c c.
Proof. destruct c. reflexivity. Qed.

Lemma frozen_trans c1 c2 c3 : frozen c1 c2 -> frozen c2 c3 -> frozen c1 c3.
Proof.
  unfold frozen. intros H12 H23. rewrite H23 at 1. rewrite H12 at 1.
  reflexivity.
Qed.

Lemma frozen_set n c : frozen c (Config.set_particleCount n c).
Proof. reflexivity. Qed.

Lemma kept_refl s : kept s s.
Proof. split; [reflexivity|apply frozen_refl]. Qed.

Lemma config_frozen_refl s : config_frozen s s.
Proof. apply frozen_refl. Qed.

Lemma config_frozen_trans s1 s2 s3 :
  config_frozen s1 s2 -> config_frozen s2 s3 -> config_frozen s1 s3.
Proof. apply frozen_trans. Qed.

Lemma respects_weaken (R R' : t -> t -> Prop) f :
  (forall s s', R s s' -> R' s s') -> respects R f -> respects R' f.
Proof. intros Hw Hf s h s' h' H. apply Hw, (Hf s h s' h' H). Qed.

Lemma kept_animate : respects kept animate.
Proof.
  intros s h s' h' H.
  destruct (animate_spec s h) as (ps & cmds & E & _).
  rewrite E in H. injection H as <- <-.
  split; [reflexivity|apply frozen_refl].
Qed.

Lemma kept_pause : respects kept pause.
Proof.
  intros s h s' h' H. rewrite pause_spec in H.
  destruct (animationId s); injection H as <- <-;
    (split; [reflexivity|apply frozen_refl]).
Qed.

Lemma kept_resume : respects kept resume.
Proof.
  intros s h s' h' H. destruct (animationId s) as [id|] eqn:E.
  - rewrite (resume_running s h id E) in H. injection H as <- <-.
    apply kept_refl.
  - rewrite (resume_paused s h E) in H. exact (kept_animate s h s' h' H).
Qed.

Lemma kept_visibilitychange hidden :
  respects kept (on_visibilitychange hidden).
Proof. destruct hidden; [apply kept_pause|apply kept_resume]. Qed.

Lemma kept_destroy : respects kept destroy.
Proof.
  intros s h s' h' H. rewrite destroy_spec in H.
  destruct (animationId s); injection H as <- <-;
    (split; [reflexivity|apply frozen_refl]).
Qed.

Lemma kept_on_resize : respects kept on_resize.
Proof.
  intros s h s' h' H.
  destruct (on_resize_spec s h) as (ps & k & E & _).
  rewrite E in H. injection H as <- <-.
  split; [reflexivity|apply frozen_set].
Qed.

Lemma kept_shrink : respects kept PerformanceManager.shrink.
Proof.
  intros s h s' h' H. unfold PerformanceManager.shrink in H.
  match type of H with
  | createParticles ?s1 h = _ =>
      destruct (createParticles_spec s1 h) as (ps & k & E & _)
  end.
  rewrite E in H. injection H as <- <-.
  split; [reflexivity|apply frozen_set].
Qed.

Lemma frozen_pointer_moved target clientX clientY :
  respects config_frozen (Events.pointer_moved target clientX clientY).
Proof.
  intros s h s' h' H. unfold Events.pointer_moved in H.
  destruct (Events.hears target s); injection H as <- <-; apply frozen_refl.
Qed.

Lemma frozen_pointer_left target :
  respects config_frozen (Events.pointer_left target).
Proof.
  intros s h s' h' H. unfold Events.pointer_left in H.
  destruct (Events.hears target s); injection H as <- <-; apply frozen_refl.
Qed.

(** No listener changes a field of the configuration other than the
    particle count. *)
Lemma methods_freeze_config (e : Events.event) :
  Forall (respects config_frozen) (methods_of e).
Proof.
  assert (Hk : forall f, respects kept f -> respects config_frozen f).
  { intros f. apply respects_weaken. intros s s' [_ H]. exact H. }
  destruct e; simpl; repeat constructor;
    auto using kept_animate, kept_pause, kept_resume, kept_destroy,
               kept_on_resize, kept_shrink, kept_visibilitychange,
               frozen_pointer_moved, frozen_pointer_left.
Qed.

(** No listener of an event that is not a pointer event changes the
    pointer state. *)
Lemma methods_keep_mouse (e : Events.event) :
  pointerless e -> Forall (respects mouse_kept) (methods_of e).
Proof.
  assert (Hk : forall f, respects kept f -> respects mouse_kept f).
  { intros f. apply respects_weaken. intros s s' [H _]. exact H. }
  destruct e; simpl; intros Hp; try contradiction; repeat constructor;
    auto using kept_animate, kept_pause, kept_resume, kept_destroy,
               kept_on_resize, kept_shrink, kept_visibilitychange.
Qed.
End Kept.

(** ** The configuration over the life of an instance *)

Section Configuration.
Local Open Scope R_scope.
Import Frames.
Import ParticleSystem.

Lemma run_steady R (es : list Events.event) :
  (forall s, R s s) ->
  (forall s1 s2 s3, R s1 s2 -> R s2 s3 -> R s1 s3) ->
  (forall e, e ∈ es -> Forall (respects R) (methods_of e)) ->
  steady R (run es).
Proof.
  intros Hrefl Htrans. induction es as [|e es IH]; intros Hm; simpl.
  - apply steady_ret.
  - apply steady_bind.
    + apply step_steady; [exact Htrans|].
      apply Hm, elem_of_cons. left. reflexivity.
    + intros _. apply IH. intros e' He'. apply Hm, elem_of_cons. auto.
Qed.

Lemma same_animate : respects config_same animate.
Proof.
  intros s h s' h' H.
  destruct (animate_spec s h) as (ps & cmds & E & _).
  rewrite E in H. injection H as <- _. reflexivity.
Qed.

Lemma same_pause : respects config_same pause.
Proof.
  intros s h s' h' H. rewrite pause_spec in H.
  destruct (animationId s); injection H as <- _; reflexivity.
Qed.

Lemma same_resume : respects config_same resume.
Proof.
  intros s h s' h' H. destruct (animationId s) as [id|] eqn:E.
  - rewrite (resume_running s h id E) in H. injection H as <- _. reflexivity.
  - rewrite (resume_paused s h E) in H. exact (same_animate s h s' h' H).
Qed.

Lemma same_visibilitychange hidden :
  respects config_same (on_visibilitychange hidden).
Proof. destruct hidden; [apply same_pause|apply same_resume]. Qed.

Lemma same_destroy : respects config_same destroy.
Proof.
  intros s h s' h' H. rewrite destroy_spec in H.
  destruct (animationId s); injection H as <- _; reflexivity.
Qed.

Lemma same_pointer_moved target clientX clientY :
  respects config_same (Events.pointer_moved target clientX clientY).
Proof.
  intros s h s' h' H. unfold Events.pointer_moved in H.
  destruct (Events.hears target s); injection H as <- _; reflexivity.
Qed.

Lemma same_pointer_left target :
  respects config_same (Events.pointer_left target).
Proof.
  intros s h s' h' H. unfold Events.pointer_left in H.
  destruct (Events.hears target s); injection H as <- _; reflexivity.
Qed.

(** The mitigation overwrites the count with [floor(count * 0.6)]. *)
Lemma mitigated_shrink (s s' : t) (h h' : Host.t) :
  PerformanceManager.shrink s h = Some (s', h') ->
  config s' = mitigated (config s).
Proof.
  unfold PerformanceManager.shrink. intros H.
  match type of H with
  | createParticles ?s1 h = _ =>
      destruct (createParticles_spec s1 h) as (ps & k & E & _)
  end.
  rewrite E in H. injection H as <- _. reflexivity.
Qed.

(** The resize listener of a system that does not scale. *)
Lemma fixed_on_resize : respects config_fixed on_resize.
Proof.
  intros s h s' h' H Hr.
  destruct (on_resize_spec s h) as (ps & k & E & _).
  rewrite E in H. injection H as <- _. simpl.
  unfold Sample.resized_count. rewrite Hr.
  destruct (config s). reflexivity.
Qed.

Lemma config_same_refl s : config_same s s.
Proof. reflexivity. Qed.

Lemma config_same_trans s1 s2 s3 :
  config_same s1 s2 -> config_same s2 s3 -> config_same s1 s3.
Proof. unfold config_same. congruence. Qed.

Lemma config_mitigated_refl s : config_mitigated s s.
Proof. exists 0%nat. reflexivity. Qed.

Lemma config_mitigated_trans s1 s2 s3 :
  config_mitigated s1 s2 -> config_mitigated s2 s3 -> config_mitigated s1 s3.
Proof.
  intros [n Hn] [m Hm]. exists (m + n)%nat.
  rewrite Hm, Hn. symmetry. apply Nat.iter_add.
Qed.

Lemma config_fixed_refl s : config_fixed s s.
Proof. intros _. reflexivity. Qed.

Lemma config_fixed_trans s1 s2 s3 :
  config_fixed s1 s2 -> config_fixed s2 s3 -> config_fixed s1 s3.
Proof.
  unfold config_fixed. intros H12 H23 Hr.
  rewrite H23; rewrite (H12 Hr); [reflexivity|exact Hr].
Qed.

(** The listeners of an event that is neither a frame nor a resize keep
    the configuration. *)
Lemma methods_keep_config (e : Events.event) :
  still e -> Forall (respects config_same) (methods_of e).
Proof.
  destruct e; simpl; intros He; try contradiction; repeat constructor;
    auto using same_pause, same_resume, same_destroy,
               same_visibilitychange, same_pointer_moved,
               same_pointer_left.
Qed.

(** The listeners of an event that is not a resize change the
    configuration by the mitigation only. *)
Lemma methods_mitigate_config (e : Events.event) :
  resizeless e -> Forall (respects config_mitigated) (methods_of e).
Proof.
  assert (Hk : forall f, respects config_same f ->
                         respects config_mitigated f).
  { intros f. apply respects_weaken. intros s s' H. exists 0%nat. exact H. }
  assert (Hs : respects config_mitigated PerformanceManager.shrink).
  { intros s h s' h' H. exists 1%nat. exact (mitigated_shrink s s' h h' H). }
  destruct e; simpl; intros He; try contradiction; repeat constructor;
    auto using same_animate, same_pause, same_resume, same_destroy,
               same_visibilitychange, same_pointer_moved,
               same_pointer_left.
Qed.

(** The listeners of an event that is not a frame keep the
    configuration of a system that does not scale. *)
Lemma methods_fix_config (e : Events.event) :
  frameless e -> Forall (respects config_fixed) (methods_of e).
Proof.
  assert (Hk : forall f, respects config_same f -> respects config_fixed f).
  { intros f. apply respects_weaken. intros s s' H _. exact H. }
  destruct e; simpl; intros He; try contradiction; repeat constructor;
    auto using same_pause, same_resume, same_destroy,
               same_visibilitychange, same_pointer_moved,
               same_pointer_left, fixed_on_resize.
Qed.

(** Once the flag is low the governor's callback leaves the heap alone. *)
Lemma checkFrameRate_low (now : R) (w w' : Page.t) :
  Page.isHighPerformance w = false ->
  PerformanceManager.checkFrameRate now w = Some (tt, w') ->
  Page.heap w' = Page.heap w /\ Page.isHighPerformance w' = false.
Proof.
  intros Hlow. unfold PerformanceManager.checkFrameRate.
  unfold bind at 1. unfold Page.modify at 1.
  unfold bind at 1. unfold Page.get at 1.
  simpl Page.isHighPerformance. rewrite Hlow, andb_false_r.
  destruct (JS.ge _ _); intros H; injection H as <-; simpl; auto.
Qed.

(** While the flag is low an animation frame keeps every
    configuration: its callbacks are [animate] and the governor's, which
    no longer mitigates. *)
Lemma frame_low (now : R) (w w' : Page.t) :
  Page.isHighPerformance w = false ->
  Events.run_frame now w = Some (tt, w') ->
  evolves config_same w w'.
Proof.
  intros Hlow H. unfold Events.run_frame in H.
  unfold bind at 1 in H. unfold Page.get at 1 in H.
  unfold bind at 1 in H. unfold Page.modify at 1 in H.
  match type of H with
  | Page.for_each ?l ?f ?w1 = _ =>
      assert (He : evolves config_same w w1)
        by (split; [intros i s Hs; exists s; split;
                                   [exact Hs|reflexivity]
                   |intros _; exact Hlow]);
      revert He H; generalize w1; generalize l
  end.
  intros l. induction l as [|[id cb] l IH]; simpl; intros w1 He H.
  - injection H as <-. exact He.
  - apply bind_Some in H as ([] & w2 & H1 & H2).
    apply (IH w2); [|exact H2]. destruct cb as [self|]; simpl in H1.
    + exact (steady_at config_same config_same_trans self animate
               same_animate w w1 tt w2 He H1).
    + destruct He as [He1 He2].
      destruct (checkFrameRate_low now w1 w2 (He2 Hlow) H1) as [Hh Hf].
      split; [|intros _; exact Hf].
      intros i s Hs. rewrite Hh. exact (He1 i s Hs).
Qed.

(** While the flag is low, events that are not a resize keep every
    configuration. *)
Lemma run_low (es : list Events.event) (w w' : Page.t) :
  Page.isHighPerformance w = false ->
  Forall resizeless es ->
  run es w = Some (tt, w') ->
  evolves config_same w w'.
Proof.
  revert w. induction es as [|e es IH]; simpl; intros w Hlow Hes H.
  - injection H as <-. apply evolves_refl. exact config_same_refl.
  - apply list.Forall_cons in Hes as [He Hes].
    apply bind_Some in H as ([] & w1 & H1 & H2).
    assert (E1 : evolves config_same w w1).
    { destruct e;
        try contradiction;
        try exact (frame_low _ w w1 Hlow H1);
        match type of H1 with
        | Events.step ?e _ = _ =>
            exact (step_evolves config_same config_same_refl
                     config_same_trans e w w1
                     (methods_keep_config e I) H1)
        end. }
    destruct E1 as [E1 F1].
    destruct (IH w1 (F1 Hlow) Hes H2) as [E2 F2].
    split; [|auto].
    intros i s Hs. destruct (E1 i s Hs) as (s1 & Hs1 & R1).
    destruct (E2 i s1 Hs1) as (s2 & Hs2 & R2).
    exists s2. split; [exact Hs2|]. exact (config_same_trans _ _ _ R1 R2).
Qed.

(** C5, as the code has it: whatever events a page goes through, every
    system keeps every field of its configuration except the particle
    count.  Through events that are neither an animation frame nor a
    resize (visibility changes, pointer events, unloading, and the
    calls of [pause], [resume], [destroy] and the constructors) the
    whole configuration is kept, the particle count included.  Through
    events that are not a resize the configuration changes only by the
    mitigation of the governor, which runs in an animation frame and
    overwrites the count with [floor(count * 0.6)]; once the performance
    flag is low there is no mitigation, and such events, the frames of
    the frame loop among them, keep the whole configuration.  Through
    events that are not an animation frame, a resize among them, a
    system with responsive scaling off keeps its whole configuration. *)
Theorem events_keep_configuration_but_count
    (es : list Events.event) (w w' : Page.t) (i : nat) (s : t) :
  run es w = Some (tt, w') ->
  Page.heap w !! i = Some s ->
  exists s',
    Page.heap w' !! i = Some s' /\
    config s'
    = Config.set_particleCount (Config.particleCount (config s')) (config s) /\
    (Forall still es -> config s' = config s) /\
    (Forall resizeless es ->
     exists n : nat, config s' = Nat.iter n mitigated (config s)) /\
    (Forall resizeless es ->
     Page.isHighPerformance w = false -> config s' = config s) /\
    (Forall frameless es ->
     Config.responsive (config s) = false -> config s' = config s).
Proof.
  intros H Hs.
  assert (Hrun : forall R : t -> t -> Prop,
             (forall s0, R s0 s0) ->
             (forall s1 s2 s3, R s1 s2 -> R s2 s3 -> R s1 s3) ->
             (forall e, e ∈ es -> Forall (respects R) (methods_of e)) ->
             exists s', Page.heap w' !! i = Some s' /\ R s s').
  { intros R Hrefl Htrans Hm.
    exact (proj1 (run_steady R es Hrefl Htrans Hm w w tt w'
                    (evolves_refl R Hrefl w) H) i s Hs). }
  destruct (Hrun config_frozen config_frozen_refl config_frozen_trans
              (fun e _ => methods_freeze_config e)) as (s' & Hs' & Hfrozen).
  exists s'. split; [exact Hs'|]. split; [exact Hfrozen|].
  split; [|split; [|split]].
  - intros Hes. rewrite list.Forall_forall in Hes.
    destruct (Hrun config_same config_same_refl config_same_trans
                (fun e He => methods_keep_config e (Hes e He)))
      as (s1 & Hs1 & H1).
    rewrite Hs' in Hs1. injection Hs1 as <-. exact H1.
  - intros Hes. rewrite list.Forall_forall in Hes.
    destruct (Hrun config_mitigated config_mitigated_refl
                config_mitigated_trans
                (fun e He => methods_mitigate_config e (Hes e He)))
      as (s1 & Hs1 & H1).
    rewrite Hs' in Hs1. injection Hs1 as <-. exact H1.
  - intros Hes Hlow.
    destruct (proj1 (run_low es w w' Hlow Hes H) i s Hs) as (s1 & Hs1 & H1).
    rewrite Hs' in Hs1. injection Hs1 as <-. exact H1.
  - intros Hes. rewrite list.Forall_forall in Hes.
    destruct (Hrun config_fixed config_fixed_refl config_fixed_trans
                (fun e He => methods_fix_config e (Hes e He)))
      as (s1 & Hs1 & H1).
    rewrite Hs' in Hs1. injection Hs1 as <-. exact H1.
Qed.
End Configuration.

(** ** The pointer *)

Section Pointer.
Local Open Scope R_scope.
Import Frames.

(** The unit vector at the angle [Math.atan2(y, x)] does not point away
    from [(x, y)]. *)
Lemma atan2_projection (x y : R) :
  0 <= cos (JS.atan2 y x) * x + sin (JS.atan2 y x) * y.
Proof.
  assert (Hat : forall z, 0 < cos (atan z) /\ sin (atan z) = z * cos (atan z)).
  { intros z. destruct (atan_bound z) as [Hlo Hhi].
    assert (Hc : 0 < cos (atan z)) by (apply cos_gt_0; lra).
    split; [exact Hc|].
    pose proof (tan_atan z) as Ht. unfold tan in Ht.
    rewrite <- Ht at 2. field. lra. }
  unfold JS.atan2.
  destruct (Rlt_dec 0 x) as [Hx|Hx].
  - destruct (Hat (y / x)) as [Hc ->].
    replace (cos (atan (y / x)) * x + y / x * cos (atan (y / x)) * y)
      with (cos (atan (y / x)) * ((x * x + y * y) / x)) by (field; lra).
    apply Rmult_le_pos; [lra|].
    apply Rlt_le, Rdiv_lt_0_compat; nra.
  - destruct (Rlt_dec x 0) as [Hx'|Hx'].
    + destruct (Hat (y / x)) as [Hc Hs].
      assert (Hgoal : 0 <= - cos (atan (y / x)) * x
                           + - sin (atan (y / x)) * y).
      { rewrite Hs.
        replace (- cos (atan (y / x)) * x + - (y / x * cos (atan (y / x))) * y)
          with (cos (atan (y / x)) * ((x * x + y * y) / - x)) by (field; lra).
        apply Rmult_le_pos; [lra|].
        apply Rlt_le, Rdiv_lt_0_compat; nra. }
      destruct (Rle_dec 0 y).
      * rewrite neg_cos, neg_sin. exact Hgoal.
      * rewrite cos_minus, sin_minus, cos_PI, sin_PI.
        replace (cos (atan (y / x)) * -1 + sin (atan (y / x)) * 0)
          with (- cos (atan (y / x))) by ring.
        replace (sin (atan (y / x)) * -1 - cos (atan (y / x)) * 0)
          with (- sin (atan (y / x))) by ring.
        exact Hgoal.
    + assert (x = 0) as -> by lra.
      destruct (Rlt_dec 0 y); [rewrite cos_PI2, sin_PI2; lra|].
      destruct (Rlt_dec y 0).
      * rewrite cos_neg, sin_neg, cos_PI2, sin_PI2. lra.
      * rewrite cos_0, sin_0. lra.
Qed.

(** Below the radius the mouse block subtracts the impulse
    [(cos angle, sin angle) * force * 0.5] from the velocity, with
    [force] positive and [angle] the direction of the pointer: the
    particle is pushed away from the pointer. *)
Lemma repel_within (x y vx vy : R) (mouse : Mouse.t) (config : Config.t) :
  let dx := Mouse.x mouse - x in
  let dy := Mouse.y mouse - y in
  let distance := sqrt (dx * dx + dy * dy) in
  let force := (Config.mouseRadius config - distance)
               / Config.mouseRadius config in
  let angle := JS.atan2 dy dx in
  Config.mouseInteraction config = true ->
  -500 < Mouse.x mouse ->
  distance < Config.mouseRadius config ->
  Particle.repel x y vx vy mouse config
  = Some (vx - cos angle * force * 0.5, vy - sin angle * force * 0.5) /\
  0 < force /\
  (cos angle * force * 0.5 <> 0 \/ sin angle * force * 0.5 <> 0) /\
  0 <= cos angle * force * 0.5 * dx + sin angle * force * 0.5 * dy.
Proof.
  intros dx dy d force a Hon Hx Hd.
  set (r := Config.mouseRadius config) in *.
  assert (Hd0 : 0 <= d) by apply sqrt_pos.
  assert (Hf : 0 < force).
  { unfold force. apply Rdiv_lt_0_compat; lra. }
  split; [|split; [exact Hf|split]].
  - unfold Particle.repel. rewrite Hon.
    apply gt_true in Hx. rewrite Hx. simpl.
    fold dx dy. fold d. fold r.
    rewrite (proj2 (lt_true _ _) Hd).
    rewrite div_nonzero by lra. reflexivity.
  - assert (Hnz : forall c, c <> 0 -> c * force * 0.5 <> 0).
    { intros c Hc H.
      apply Rmult_integral in H as [H|H]; [|lra].
      apply Rmult_integral in H as [H|H]; [exact (Hc H)|lra]. }
    destruct (Req_dec (cos a) 0) as [Hc|Hc]; [right|left; exact (Hnz _ Hc)].
    apply Hnz. intros Hs. pose proof (sin2_cos2 a) as H1.
    unfold Rsqr in H1. rewrite Hc, Hs in H1. lra.
  - pose proof (atan2_projection dx dy) as Hp. fold a in Hp.
    replace (cos a * force * 0.5 * dx + sin a * force * 0.5 * dy)
      with (force * 0.5 * (cos a * dx + sin a * dy)) by ring.
    apply Rmult_le_pos; lra.
Qed.

Lemma repel_guarded (x y vx vy : R) (mouse : Mouse.t) (config : Config.t) :
  Mouse.x mouse <= -500 ->
  Particle.repel x y vx vy mouse config = Some (vx, vy).
Proof.
  intros Hx. unfold Particle.repel.
  apply gt_false in Hx. rewrite Hx, andb_false_r. reflexivity.
Qed.

(** The velocity [update] leaves, given the impulse of the mouse block. *)
Lemma update_velocity (p p' : Particle.t) canvas mouse config (v : R * R) :
  Particle.update p canvas mouse config = Some p' ->
  Particle.repel (Particle.x p') (Particle.y p') (Particle.vx p)
                 (Particle.vy p) mouse config = Some v ->
  Particle.vx p'
  = fst v * 0.99 + (Particle.originalX p - Particle.x p') * 0.001 /\
  Particle.vy p'
  = snd v * 0.99 + (Particle.originalY p - Particle.y p') * 0.001.
Proof.
  intros Hu Hv. destruct (update_position p p' canvas mouse config Hu)
    as [Hx Hy].
  unfold Particle.update in Hu. rewrite <- Hx, <- Hy, Hv in Hu.
  simpl in Hu. injection Hu as <-. simpl. split; reflexivity.
Qed.

(** An update with the pointer at [mouse], to the right of the guard,
    pushes every particle it leaves within the radius away from the
    pointer. *)
Lemma update_repels (p p' : Particle.t) canvas mouse config :
  let dx := Mouse.x mouse - Particle.x p' in
  let dy := Mouse.y mouse - Particle.y p' in
  let distance := sqrt (dx * dx + dy * dy) in
  let force := (Config.mouseRadius config - distance)
               / Config.mouseRadius config in
  let angle := JS.atan2 dy dx in
  Particle.update p canvas mouse config = Some p' ->
  Config.mouseInteraction config = true ->
  -500 < Mouse.x mouse ->
  distance < Config.mouseRadius config ->
  0 < force /\
  Particle.vx p'
  = (Particle.vx p - cos angle * force * 0.5) * 0.99
    + (Particle.originalX p - Particle.x p') * 0.001 /\
  Particle.vy p'
  = (Particle.vy p - sin angle * force * 0.5) * 0.99
    + (Particle.originalY p - Particle.y p') * 0.001 /\
  (cos angle * force * 0.5 <> 0 \/ sin angle * force * 0.5 <> 0) /\
  0 <= cos angle * force * 0.5 * dx + sin angle * force * 0.5 * dy.
Proof.
  intros dx dy d force a Hu Hon Hx Hd.
  destruct (repel_within (Particle.x p') (Particle.y p') (Particle.vx p)
              (Particle.vy p) mouse config Hon Hx Hd)
    as (Hr & Hf & Hnz & Hdir).
  destruct (update_velocity p p' canvas mouse config _ Hu Hr) as [Hvx Hvy].
  split; [exact Hf|]. split; [exact Hvx|]. split; [exact Hvy|].
  split; [exact Hnz|exact Hdir].
Qed.

(** The constructors leave the pointer at the origin. *)
Lemma new_mouse (self container : nat) (options : Options.t) (h : Host.t) :
  exists s h',
    ParticleSystem.new self container options h = Some (s, h') /\
    ParticleSystem.mouse s = Mouse.mk 0 0.
Proof.
  unfold ParticleSystem.new.
  match goal with
  | |- context [ParticleSystem.init ?s0 h] =>
      destruct (init_spec s0 h) as (ps & cmds & k & H & _)
  end.
  eexists _, _. split; [exact H|reflexivity].
Qed.

Lemma geometric_new_mouse (self container : nat) (options : Options.t)
    (h : Host.t) :
  exists s h',
    GeometricParticleSystem.new self container options h = Some (s, h') /\
    ParticleSystem.mouse s = Mouse.mk 0 0.
Proof.
  unfold GeometricParticleSystem.new.
  match goal with
  | |- context [ParticleSystem.init ?s0 h] =>
      destruct (init_spec s0 h) as (ps & cmds & k & H & _)
  end.
  eexists _, _. split; [exact H|reflexivity].
Qed.

(** C10. A new system's pointer is [(0, 0)]; with the pointer there and
    mouse interaction on, an update subtracts from the velocity of every
    particle it leaves within the mouse radius of the origin the impulse
    [(cos angle, sin angle) * force * 0.5], where [force] is positive
    and [angle] is the direction from the particle to the origin, so
    that the impulse is not zero and the particle is pushed away from
    the origin; the guard of the
    mouse block lets through every pointer with [x > -500], with the
    same impulse away from the pointer, and stops the others; and the
    pointer becomes [(-1000, -1000)] on [mouseleave], while no event
    other than the two pointer events changes it. *)
Theorem initial_pointer_is_the_origin :
  (forall self container options h,
      (exists s h',
          ParticleSystem.new self container options h = Some (s, h') /\
          ParticleSystem.mouse s = Mouse.mk 0 0) /\
      (exists s h',
          GeometricParticleSystem.new self container options h
          = Some (s, h') /\
          ParticleSystem.mouse s = Mouse.mk 0 0)) /\
  (forall q q' canvas config,
      let p := ParticleSystem.body q in
      let p' := ParticleSystem.body q' in
      let dx := 0 - Particle.x p' in
      let dy := 0 - Particle.y p' in
      let distance := sqrt (dx * dx + dy * dy) in
      let force := (Config.mouseRadius config - distance)
                   / Config.mouseRadius config in
      let angle := JS.atan2 dy dx in
      ParticleSystem.update q canvas (Mouse.mk 0 0) config = Some q' ->
      Config.mouseInteraction config = true ->
      distance < Config.mouseRadius config ->
      0 < force /\
      Particle.vx p'
      = (Particle.vx p - cos angle * force * 0.5) * 0.99
        + (Particle.originalX p - Particle.x p') * 0.001 /\
      Particle.vy p'
      = (Particle.vy p - sin angle * force * 0.5) * 0.99
        + (Particle.originalY p - Particle.y p') * 0.001 /\
      (cos angle * force * 0.5 <> 0 \/ sin angle * force * 0.5 <> 0) /\
      0 <= cos angle * force * 0.5 * dx + sin angle * force * 0.5 * dy) /\
  (forall x y vx vy mouse config,
      Mouse.x mouse <= -500 ->
      Particle.repel x y vx vy mouse config = Some (vx, vy)) /\
  (forall x y vx vy mouse config,
      let dx := Mouse.x mouse - x in
      let dy := Mouse.y mouse - y in
      let distance := sqrt (dx * dx + dy * dy) in
      let force := (Config.mouseRadius config - distance)
                   / Config.mouseRadius config in
      let angle := JS.atan2 dy dx in
      Config.mouseInteraction config = true ->
      -500 < Mouse.x mouse ->
      distance < Config.mouseRadius config ->
      Particle.repel x y vx vy mouse config
      = Some (vx - cos angle * force * 0.5, vy - sin angle * force * 0.5) /\
      0 < force /\
      (cos angle * force * 0.5 <> 0 \/ sin angle * force * 0.5 <> 0) /\
      0 <= cos angle * force * 0.5 * dx + sin angle * force * 0.5 * dy) /\
  (forall s h,
      ParticleSystem.on_mouseleave s h
      = Some (ParticleSystem.set_mouse (Mouse.mk (-1000) (-1000)) s, h)) /\
  (forall e w w',
      pointerless e ->
      Events.step e w = Some (tt, w') ->
      forall i s,
        Page.heap w !! i = Some s ->
        exists s',
          Page.heap w' !! i = Some s' /\
          ParticleSystem.mouse s' = ParticleSystem.mouse s).
Proof.
  split.
  { intros self container options h.
    split; [apply new_mouse|apply geometric_new_mouse]. }
  split.
  { intros q q' canvas config p p' dx dy d force a Hu Hon Hd.
    apply system_update_body in Hu.
    apply (update_repels p p' canvas (Mouse.mk 0 0) config Hu Hon);
      [simpl; lra|exact Hd]. }
  split; [exact repel_guarded|].
  split; [exact repel_within|].
  split; [reflexivity|].
  intros e w w' Hp H.
  assert (Hrefl : forall s, mouse_kept s s) by reflexivity.
  assert (Htrans : forall s1 s2 s3,
             mouse_kept s1 s2 -> mouse_kept s2 s3 -> mouse_kept s1 s3).
  { unfold mouse_kept. intros. congruence. }
  exact (proj1 (step_evolves mouse_kept Hrefl Htrans e w w'
                  (methods_keep_mouse e Hp) H)).
Qed.
End Pointer.

(** ** Destroyed instances *)

Section Destroyed.
Local Open Scope R_scope.
Import ParticleSystem.

Lemma destroy_twice (s s1 : t) (h h1 : Host.t) :
  destroy s h = Some (s1, h1) -> destroy s1 h1 = Some (s1, h1).
Proof.
  intros H. rewrite destroy_spec in H.
  destruct s as [c sf ct cv ps m [id|] cfg ml]; simpl in H;
    injection H as <- <-; rewrite destroy_spec; reflexivity.
Qed.

Lemma destroy_leaves (s s1 : t) (h h1 : Host.t) :
  destroy s h = Some (s1, h1) ->
  animationId s1 = None /\ Canvas.attached (canvas s1) = false /\
  config s1 = config s /\ container s1 = container s /\
  particles s1 = particles s /\ Host.layout h1 = Host.layout h.
Proof.
  rewrite destroy_spec. intros H.
  destruct s as [c sf ct cv ps m [id|] cfg ml]; simpl in H;
    injection H as <- <-; repeat split.
Qed.

(** C9, as the code has it.  [destroy()] always returns and leaves the
    instance without a frame handle and with its canvas detached.  On an
    instance in that state, [destroy()] changes nothing, neither of the
    instance nor of the frame requests; the resize listener returns,
    leaving the frame handle absent, the canvas detached and the frame
    requests as they were, but it sizes and clears the canvas anew,
    rescales the particle count where responsive scaling is on, keeping
    the rest of the configuration, and builds the particle set anew to
    that count; and [resume()] starts the frame loop again on the
    detached canvas, so that the instance does not stay in that state
    for good. *)
Theorem destroyed_instance_stays_stopped (s : t) (h : Host.t) :
  let rect := Host.layout h (container s) in
  (exists s1 h1,
      destroy s h = Some (s1, h1) /\
      animationId s1 = None /\
      Canvas.attached (canvas s1) = false) /\
  (animationId s = None ->
   Canvas.attached (canvas s) = false ->
   destroy s h = Some (s, h) /\
   (exists s2 h2,
       on_resize s h = Some (s2, h2) /\
       animationId s2 = None /\
       Canvas.attached (canvas s2) = false /\
       Host.rafQueue h2 = Host.rafQueue h /\
       Canvas.width (canvas s2)
       = JS.reflect_unsigned_long 300 (Rect.width rect) /\
       Canvas.height (canvas s2)
       = JS.reflect_unsigned_long 150 (Rect.height rect) /\
       Canvas.painted (canvas s2) = [] /\
       config s2
       = Config.set_particleCount (Config.particleCount (config s2))
                                  (config s) /\
       Config.particleCount (config s2)
       = (if Config.responsive (config s)
          then JS.floor
                 (IZR (Config.particleCount (config s))
                  * JS.min (Rect.width rect * Rect.height rect
                            / (1920 * 1080)) 1)
          else Config.particleCount (config s)) /\
       spawn (Z.to_nat (Config.particleCount (config s2)))
             (new_particle (class s)) (canvas s2) (config s2) h
       = Some (particles s2, h2)) /\
   (exists s3 h3,
       resume s h = Some (s3, h3) /\
       animationId s3 = Some (Host.rafSeq h) /\
       Canvas.attached (canvas s3) = false /\
       Host.rafQueue h3
       = Host.rafQueue h ++ [(Host.rafSeq h, Animate (self s))])).
Proof.
  intros rect. split.
  { rewrite destroy_spec.
    destruct (animationId s) eqn:Hid; eexists _, _;
      (split; [reflexivity|split; [|reflexivity]]).
    - reflexivity.
    - simpl. exact Hid. }
  intros Hid Hat. split; [|split].
  - rewrite destroy_spec, Hid.
    destruct s as [c sf ct [cw ch ca cp] ps m a cfg ml].
    simpl in Hat. subst ca. reflexivity.
  - assert (H : exists ps h2,
               on_resize s h
               = Some (set_particles ps
                         (set_config
                            (Config.set_particleCount
                               (Sample.resized_count (config s) rect)
                               (config s))
                            (set_canvas
                               (Sample.resized_canvas (canvas s) rect) s)),
                       h2) /\
               Host.rafQueue h2 = Host.rafQueue h /\
               spawn (Z.to_nat (Sample.resized_count (config s) rect))
                     (new_particle (class s))
                     (Sample.resized_canvas (canvas s) rect)
                     (Config.set_particleCount
                        (Sample.resized_count (config s) rect) (config s))
                     h
               = Some (ps, h2)).
    { destruct (on_resize_spec s h) as (ps & k & E & _).
      exists ps, (Host.advance k h). split; [exact E|].
      split; [reflexivity|].
      unfold on_resize in E.
      rewrite (bind_step _ _ _ _ _ (resizeCanvas_spec s h)) in E.
      unfold createParticles in E.
      apply bind_Some in E as (ps' & h1 & Hsp & E).
      injection E as E1 E2. subst h1 ps'.
      exact Hsp. }
    destruct H as (ps & h2 & E & Hq & Hsp).
    eexists _, h2. split; [exact E|]. simpl.
    split; [exact Hid|]. split; [exact Hat|]. split; [exact Hq|].
    split; [reflexivity|]. split; [reflexivity|]. split; [reflexivity|].
    split; [reflexivity|]. split; [|exact Hsp].
    unfold Sample.resized_count, Sample.rescaled. reflexivity.
  - rewrite (resume_paused s h Hid).
    destruct (animate_spec s h) as (ps & cmds & E & _).
    eexists _, _. split; [exact E|]. simpl.
    split; [reflexivity|]. split; [exact Hat|reflexivity].
Qed.

Lemma destroyed_instance_stays_stopped_witness :
  let s := SampleRun.lone_destroyed in
  let h := Sample.host 480 270 in
  let rect := Host.layout h (container s) in
  destroy s h = Some (s, h) /\
  (exists s2 h2,
      on_resize s h = Some (s2, h2) /\
      animationId s2 = None /\
      Canvas.attached (canvas s2) = false /\
      Host.rafQueue h2 = Host.rafQueue h /\
      Canvas.width (canvas s2)
      = JS.reflect_unsigned_long 300 (Rect.width rect) /\
      Canvas.height (canvas s2)
      = JS.reflect_unsigned_long 150 (Rect.height rect) /\
      Canvas.painted (canvas s2) = [] /\
      config s2
      = Config.set_particleCount (Config.particleCount (config s2))
                                 (config s) /\
      Config.particleCount (config s2)
      = (if Config.responsive (config s)
         then JS.floor
                (IZR (Config.particleCount (config s))
                 * JS.min (Rect.width rect * Rect.height rect
                           / (1920 * 1080)) 1)
         else Config.particleCount (config s)) /\
      spawn (Z.to_nat (Config.particleCount (config s2)))
            (new_particle (class s)) (canvas s2) (config s2) h
      = Some (particles s2, h2)) /\
  (exists s3 h3,
      resume s h = Some (s3, h3) /\
      animationId s3 = Some (Host.rafSeq h) /\
      Canvas.attached (canvas s3) = false /\
      Host.rafQueue h3
      = Host.rafQueue h ++ [(Host.rafSeq h, Animate (self s))]).
Proof.
  exact (proj2 (destroyed_instance_stays_stopped SampleRun.lone_destroyed
                  (Sample.host 480 270))
               eq_refl eq_refl).
Defined.

(** C9 does not hold as stated: when the window shrinks to 480 by 270,
    the resize listener of a destroyed instance still rescales its
    particle count and rebuilds its particle set. *)
Lemma resize_changes_a_destroyed_instance :
  exists s h s1 h1 s2 h2,
    ParticleSystem.new 0 0 (Sample.count_only 60) (Sample.host 960 540)
    = Some (s, h) /\
    destroy s h = Some (s1, h1) /\
    on_resize s1 (Host.set_layout (fun _ => Rect.mk 0 0 480 270) h1)
    = Some (s2, h2) /\
    Config.particleCount (config s1) = 15%Z /\
    Config.particleCount (config s2) = 0%Z /\
    length (particles s1) = 15%nat /\
    length (particles s2) = 0%nat /\
    s2 <> s1.
Proof.
  unfold ParticleSystem.new.
  match goal with
  | |- context [init ?s0 ?h0] =>
      destruct (init_spec s0 h0) as (ps & cmds & k & Hi & Hlen)
  end.
  match type of Hi with
  | _ = Some (?s, ?h) =>
      exists s, h;
      pose proof (destroy_spec s h) as Hd; simpl in Hd
  end.
  match type of Hd with
  | _ = Some (?s1, ?h1) =>
      exists s1, h1;
      destruct (on_resize_spec s1
                  (Host.set_layout (fun _ => Rect.mk 0 0 480 270) h1))
        as (ps' & k' & Hr & Hlen')
  end.
  eexists _, _. split; [exact Hi|]. split; [exact Hd|]. split; [exact Hr|].
  cbn -[Sample.rescaled] in *.
  rewrite !(rescaled_quarter 60 15) in * by lia.
  rewrite (rescaled_sixteenth 15 0) in * by lia.
  repeat split; try assumption.
  intros E. apply (f_equal (fun s => Config.particleCount (config s))) in E.
  simpl in E. discriminate.
Qed.
End Destroyed.

(** ** One frame request per instance *)

Section FrameRequests.
Import Frames.

(** What a method call on the heap amounts to. *)
Lemma at_inv (i : nat) f (w w' : Page.t) :
  Page.at_ i f w = Some (tt, w') ->
  exists s s',
    Page.heap w !! i = Some s /\
    f s (Page.host w) = Some (s', Page.host w') /\
    Page.heap w' !! i = Some s'.
Proof.
  unfold Page.at_. intros H.
  destruct (Page.heap w !! i) as [s|] eqn:Hs; [|discriminate].
  destruct (f s (Page.host w)) as [[s' h']|] eqn:Hf; [|discriminate].
  injection H as <-. exists s, s'. split; [reflexivity|].
  split; [exact Hf|]. simpl.
  apply list_lookup_insert_eq, lookup_lt_is_Some. eauto.
Qed.

(** A method that changes nothing changes nothing on the page. *)
Lemma at_noop (i : nat) f (w : Page.t) (s : ParticleSystem.t) :
  Page.heap w !! i = Some s ->
  f s (Page.host w) = Some (s, Page.host w) ->
  Page.at_ i f w = Some (tt, w).
Proof.
  intros Hs Hf. unfold Page.at_. rewrite Hs, Hf.
  rewrite (list_insert_id _ _ _ Hs). destruct w. reflexivity.
Qed.

Lemma run_repeat_noop (e : Events.event) (w : Page.t) (n : nat) :
  Events.step e w = Some (tt, w) -> run (repeat e n) w = Some (tt, w).
Proof.
  intros H. induction n as [|n IH]; simpl; [reflexivity|].
  rewrite (bind_step _ _ _ _ _ H). exact IH.
Qed.

Lemma pending_of_tracked (w : Page.t) (i : nat) (s : ParticleSystem.t) :
  wf w ->
  Page.heap w !! i = Some s ->
  outstanding i (Host.rafQueue (Page.host w))
  = option_list (ParticleSystem.animationId s).
Proof. intros Hw Hs. exact (proj2 (acc_objects _ _ Hw i s Hs)). Qed.

(** [pause()] on any instance of a well-formed page. *)
Lemma pause_stops (w : Page.t) (i : nat) (s : ParticleSystem.t) :
  wf w ->
  Page.heap w !! i = Some s ->
  exists w1 s1,
    Events.step (Events.call_pause i) w = Some (tt, w1) /\
    wf w1 /\
    Page.heap w1 !! i = Some s1 /\
    ParticleSystem.animationId s1 = None /\
    outstanding i (Host.rafQueue (Page.host w1)) = [].
Proof.
  intros Hw Hs. simpl.
  destruct (at_pause w i Hw) as (w1 & H & Hw1 & _).
  { apply lookup_lt_is_Some. eauto. }
  destruct (at_inv _ _ _ _ H) as (s0 & s1 & Hs0 & Hp & Hs1).
  rewrite pause_spec in Hp.
  assert (Hid : ParticleSystem.animationId s1 = None).
  { destruct (ParticleSystem.animationId s0) eqn:E;
      injection Hp as <- _; [reflexivity|exact E]. }
  exists w1, s1. split; [exact H|]. split; [exact Hw1|].
  split; [exact Hs1|]. split; [exact Hid|].
  rewrite (pending_of_tracked w1 i s1 Hw1 Hs1), Hid. reflexivity.
Qed.

(** [resume()] on a paused instance. *)
Lemma resume_restarts (w : Page.t) (i : nat) (s : ParticleSystem.t) :
  wf w ->
  Page.heap w !! i = Some s ->
  ParticleSystem.animationId s = None ->
  exists w2 s2 id,
    Events.step (Events.call_resume i) w = Some (tt, w2) /\
    wf w2 /\
    Page.heap w2 !! i = Some s2 /\
    ParticleSystem.animationId s2 = Some id /\
    outstanding i (Host.rafQueue (Page.host w2)) = [id].
Proof.
  intros Hw Hs Hid. simpl.
  destruct (at_resume w i Hw) as (w2 & H & Hw2 & _).
  { apply lookup_lt_is_Some. eauto. }
  destruct (at_inv _ _ _ _ H) as (s0 & s2 & Hs0 & Hr & Hs2).
  rewrite Hs in Hs0. injection Hs0 as <-.
  rewrite (resume_paused s _ Hid) in Hr.
  destruct (animate_spec s (Page.host w)) as (ps & cmds & E & _).
  rewrite E in Hr. injection Hr as <- _.
  eexists w2, _, (Host.rafSeq (Page.host w)).
  split; [exact H|]. split; [exact Hw2|]. split; [exact Hs2|].
  split; [reflexivity|].
  rewrite (pending_of_tracked w2 i _ Hw2 Hs2). reflexivity.
Qed.

(** C7. On every page the events can lead to, an instance has at most
    one frame request outstanding, and exactly as many as it holds
    handles; [pause()] leaves none, however often it is repeated;
    [resume()] after it leaves exactly one, however often it is
    repeated; and a constructor leaves its new instance with exactly
    one. *)
Theorem one_frame_request_per_instance
    (w : Page.t) (i : nat) (s : ParticleSystem.t) :
  Events.reachable w ->
  Page.heap w !! i = Some s ->
  let pending w := outstanding i (Host.rafQueue (Page.host w)) in
  (length (pending w) <= 1)%nat /\
  pending w = option_list (ParticleSystem.animationId s) /\
  (exists w1,
      Events.step (Events.call_pause i) w = Some (tt, w1) /\
      pending w1 = [] /\
      (forall n, run (repeat (Events.call_pause i) n) w1 = Some (tt, w1)) /\
      exists w2,
        Events.step (Events.call_resume i) w1 = Some (tt, w2) /\
        length (pending w2) = 1%nat /\
        (forall n,
            run (repeat (Events.call_resume i) n) w2 = Some (tt, w2))) /\
  (forall container options,
      exists w',
        Events.step (Events.call_new container options) w = Some (tt, w') /\
        length (outstanding (length (Page.heap w))
                            (Host.rafQueue (Page.host w'))) = 1%nat).
Proof.
  intros Hreach Hs pending. apply reachable_wf in Hreach as Hw.
  assert (Hp : pending w = option_list (ParticleSystem.animationId s))
    by exact (pending_of_tracked w i s Hw Hs).
  split; [rewrite Hp; destruct (ParticleSystem.animationId s); simpl; lia|].
  split; [exact Hp|]. split.
  - destruct (pause_stops w i s Hw Hs)
      as (w1 & s1 & H1 & Hw1 & Hs1 & Hid1 & Hp1).
    exists w1. split; [exact H1|]. split; [exact Hp1|]. split.
    + intros n. apply run_repeat_noop. simpl.
      apply (at_noop i _ w1 s1 Hs1). rewrite pause_spec, Hid1. reflexivity.
    + destruct (resume_restarts w1 i s1 Hw1 Hs1 Hid1)
        as (w2 & s2 & id & H2 & Hw2 & Hs2 & Hid2 & Hp2).
      exists w2. split; [exact H2|]. split.
      * unfold pending. rewrite Hp2. reflexivity.
      * intros n. apply run_repeat_noop. simpl.
        apply (at_noop i _ w2 s2 Hs2).
        exact (resume_running s2 _ id Hid2).
  - intros container options.
    destruct (step_total (Events.call_new container options) w Hw I)
      as (w' & H & Hw').
    exists w'. split; [exact H|].
    simpl in H. apply bind_Some in H as (n & w1 & Ha & Hret).
    injection Hret as <-.
    unfold Page.alloc, ParticleSystem.new in Ha.
    match type of Ha with
    | context [ParticleSystem.init ?s0 ?h0] =>
        destruct (init_spec s0 h0) as (ps & cmds & k & E & _)
    end.
    rewrite E in Ha. injection Ha as _ <-.
    match type of Hw' with
    | wf ?w1 =>
        assert (Hl : exists s',
                   Page.heap w1 !! length (Page.heap w) = Some s' /\
                   ParticleSystem.animationId s'
                   = Some (Host.rafSeq (Page.host w)))
    end.
    { eexists. split; [simpl; apply list_lookup_middle|]; reflexivity. }
    destruct Hl as (s' & Hl & Hid).
    rewrite (pending_of_tracked _ _ s' Hw' Hl), Hid. reflexivity.
Qed.

Lemma started_reachable : Events.reachable SamplePage.started.
Proof.
  apply (Events.reach_step
           (Events.loaded (fun _ => 0%R) (fun _ => Rect.mk 0 0 960 540))
           (Events.call_new 0 SamplePage.fixed_options)).
  - apply Events.reach_loaded.
  - reflexivity.
Qed.
End FrameRequests.

(** ** The performance governor *)

Section Governor.
Local Open Scope R_scope.
Import Frames.

(** A method call changes one cell of the heap and the host. *)
Lemma at_frame (i : nat) f (w w' : Page.t) :
  Page.at_ i f w = Some (tt, w') ->
  exists s s',
    Page.heap w !! i = Some s /\
    f s (Page.host w) = Some (s', Page.host w') /\
    Page.heap w' = <[i := s']> (Page.heap w) /\
    Page.systems w' = Page.systems w /\
    Page.isHighPerformance w' = Page.isHighPerformance w.
Proof.
  unfold Page.at_. intros H.
  destruct (Page.heap w !! i) as [s|] eqn:Hs; [|discriminate].
  destruct (f s (Page.host w)) as [[s' h']|] eqn:Hf; [|discriminate].
  injection H as <-. exists s, s'. simpl. auto.
Qed.

(** A method called once on each of several distinct addresses. *)
Lemma for_each_at_effect {A} (idx : A -> nat) f (l : list A) :
  NoDup (idx <$> l) ->
  forall w w',
    Page.for_each l (fun a => Page.at_ (idx a) f) w = Some (tt, w') ->
    (forall a, a ∈ l ->
               exists s s' h h',
                 Page.heap w !! idx a = Some s /\
                 f s h = Some (s', h') /\
                 Page.heap w' !! idx a = Some s') /\
    (forall j, j ∉ idx <$> l -> Page.heap w' !! j = Page.heap w !! j) /\
    Page.isHighPerformance w' = Page.isHighPerformance w.
Proof.
  induction l as [|a l IH]; simpl; intros Hnd w w' H.
  - injection H as <-. split; [|split; [|reflexivity]].
    + intros a Ha. inversion Ha.
    + reflexivity.
  - apply list.NoDup_cons in Hnd as [Ha Hnd].
    apply bind_Some in H as ([] & w1 & H1 & H2).
    destruct (at_frame _ _ _ _ H1) as (s & s' & Hs & Hf & Hh & _ & Hp).
    destruct (IH Hnd w1 w' H2) as (IH1 & IH2 & IH3).
    split; [|split; [|congruence]].
    + intros b Hb. apply elem_of_cons in Hb as [->|Hb].
      * exists s, s', (Page.host w), (Page.host w1).
        split; [exact Hs|]. split; [exact Hf|].
        rewrite (IH2 _ Ha), Hh.
        apply list_lookup_insert_eq, lookup_lt_is_Some. eauto.
      * destruct (IH1 b Hb) as (sb & sb' & h & h' & Hsb & Hfb & Hsb').
        exists sb, sb', h, h'. split; [|auto].
        rewrite Hh in Hsb. rewrite list_lookup_insert_ne in Hsb; [exact Hsb|].
        intros E. apply Ha. rewrite E. apply list_elem_of_fmap. eauto.
    + intros j Hj. apply not_elem_of_cons in Hj as [Hne Hj].
      rewrite (IH2 j Hj), Hh. apply list_lookup_insert_ne. congruence.
Qed.

(** No run of events raises the flag. *)
Lemma run_keeps_low (es : list Events.event) (w w' : Page.t) :
  run es w = Some (tt, w') ->
  Page.isHighPerformance w = false ->
  Page.isHighPerformance w' = false.
Proof.
  intros H.
  assert (He : evolves (fun _ _ => True) w w').
  { apply (run_steady (fun _ _ => True) es) with (w := w) (a := tt).
    - auto.
    - auto.
    - intros e _. apply list.Forall_forall. intros f _ s h s' h' _. exact I.
    - apply evolves_refl. auto.
    - exact H. }
  exact (proj2 He).
Qed.

(** The mitigation reaches every registered system that exists. *)
Lemma optimizeParticles_returns (w : Page.t) :
  (forall e, e ∈ Page.systems w -> (snd e < length (Page.heap w))%nat) ->
  is_Some (PerformanceManager.optimizeParticles w).
Proof.
  intros Hr.
  destruct (forEach_total (fun _ => True) PerformanceManager.shrink w)
    as (w' & H & _);
    [|exact Hr|exact I
     |unfold PerformanceManager.optimizeParticles; rewrite H; eauto].
  intros w0 i _ Hi. apply lookup_lt_is_Some in Hi as [s Hs].
  unfold Page.at_. rewrite Hs.
  destruct (quiet_shrink s (Page.host w0)) as (s' & k & -> & _).
  eexists. split; [reflexivity|]. split; [exact I|].
  split; simpl; [apply length_insert|reflexivity].
Qed.

(** The run of the callback that finds the frame rate low. *)
Lemma checkFrameRate_degrades (w : Page.t) (now : R) :
  (forall e, e ∈ Page.systems w -> (snd e < length (Page.heap w))%nat) ->
  Page.isHighPerformance w = true ->
  now - Page.lastTime w >= 1000 ->
  (Page.frames w + 1 < 30)%Z ->
  exists w4,
    PerformanceManager.optimizeParticles
      (Page.set_isHighPerformance false
         (Page.set_monitor 0 now
            (Page.set_monitor (Page.frames w + 1) (Page.lastTime w) w)))
    = Some (tt, w4) /\
    PerformanceManager.checkFrameRate now w
    = Some (tt, Page.set_host (Host.enqueue CheckFrameRate (Page.host w4)) w4).
Proof.
  intros Hreg Hhigh Htime Hframes.
  unfold PerformanceManager.checkFrameRate.
  unfold bind at 1. unfold Page.modify at 1.
  unfold bind at 1. unfold Page.get at 1.
  set (w1 := Page.set_monitor _ _ w).
  assert (Hge : JS.ge (now - Page.lastTime w1) 1000 = true).
  { apply ge_true. simpl. lra. }
  assert (Hfps : (Page.frames w1 <? 30)%Z = true).
  { apply Z.ltb_lt. simpl. lia. }
  rewrite Hge, Hfps. simpl Page.isHighPerformance. rewrite Hhigh.
  simpl andb. cbv iota.
  set (w3 := Page.set_isHighPerformance false (Page.set_monitor 0 now w1)).
  destruct (optimizeParticles_returns w3 Hreg) as [[[] w4] H4].
  exists w4. split; [exact H4|].
  unfold bind at 1. unfold bind at 1. unfold Page.modify at 1.
  unfold bind at 1. unfold Page.modify at 1.
  fold w3. rewrite H4. reflexivity.
Qed.

(** C4. When the governor's callback counts fewer than 30 frames over a
    window of at least a second while the flag is high, it lowers the
    flag, and every registered instance ends with
    [floor(count * 0.6)] as its count and as many particles; from then
    on no event raises the flag, and the callback never touches the
    instances again.  The registry is taken as the page builds it: every
    entry names an existing instance, and no instance is named twice. *)
Theorem governor_degrades_once (w : Page.t) (now : R) :
  (forall e, e ∈ Page.systems w -> (snd e < length (Page.heap w))%nat) ->
  NoDup (snd <$> Page.systems w) ->
  Page.isHighPerformance w = true ->
  now - Page.lastTime w >= 1000 ->
  (Page.frames w + 1 < 30)%Z ->
  exists w',
    PerformanceManager.checkFrameRate now w = Some (tt, w') /\
    Page.isHighPerformance w' = false /\
    (forall key i s,
        (key, i) ∈ Page.systems w ->
        Page.heap w !! i = Some s ->
        exists s',
          Page.heap w' !! i = Some s' /\
          Config.particleCount (ParticleSystem.config s')
          = JS.floor (IZR (Config.particleCount (ParticleSystem.config s))
                      * 0.6) /\
          length (ParticleSystem.particles s')
          = Z.to_nat (Config.particleCount (ParticleSystem.config s'))) /\
    (forall es w'',
        run es w' = Some (tt, w'') ->
        Page.isHighPerformance w'' = false /\
        forall now' w''',
          PerformanceManager.checkFrameRate now' w'' = Some (tt, w''') ->
          Page.heap w''' = Page.heap w'' /\
          Page.isHighPerformance w''' = false).
Proof.
  intros Hreg Hnd Hhigh Htime Hframes.
  destruct (checkFrameRate_degrades w now Hreg Hhigh Htime Hframes)
    as (w4 & H4 & Hc).
  eexists. split; [exact Hc|].
  unfold PerformanceManager.optimizeParticles, ParticleManager.forEach in H4.
  unfold bind, Page.get in H4.
  match type of H4 with
  | Page.for_each _ _ ?w3 = _ =>
      destruct (for_each_at_effect snd PerformanceManager.shrink
                  (Page.systems w3) Hnd w3 w4 H4)
        as (Heach & _ & Hflag)
  end.
  split; [simpl; rewrite Hflag; reflexivity|]. split.
  - intros key i s Hin Hs.
    destruct (Heach (key, i) Hin) as (s0 & s' & h & h' & Hs0 & Hf & Hs').
    simpl in Hs0. rewrite Hs in Hs0. injection Hs0 as <-.
    exists s'. split; [exact Hs'|]. exact (shrink_spec s s' h h' Hf).
  - intros es w'' Hrun.
    assert (Hlow : Page.isHighPerformance w'' = false).
    { apply (run_keeps_low es _ w'' Hrun). simpl. rewrite Hflag. reflexivity. }
    split; [exact Hlow|].
    intros now' w''' Hc'. exact (checkFrameRate_low now' w'' w''' Hlow Hc').
Qed.

(** On every page the events lead to, the registry is as the theorem
    takes it. *)
Lemma reachable_registry (w : Page.t) :
  Events.reachable w ->
  (forall e, e ∈ Page.systems w -> (snd e < length (Page.heap w))%nat) /\
  NoDup (snd <$> Page.systems w).
Proof.
  intros Hr. apply reachable_wf in Hr.
  split; [apply (acc_registry _ _ Hr)|apply (acc_registry_nodup _ _ Hr)].
Qed.
End Governor.


(** ** A discovered page *)

Section Discovered.
Local Open Scope R_scope.
Import Frames Invariants.
Import ParticleSystem.

Lemma wide_detect :
  PerformanceManager.detectPerformance SampleRun.wide_document true = true.
Proof.
  unfold PerformanceManager.detectPerformance. simpl.
  rewrite (proj2 (lt_false 1024 768)) by lra. reflexivity.
Qed.

Lemma wide_hero_config :
  make_config (ParticleManager.hero_options 1024)
  = Config.mk 60 3 0.3 120 "rgba(46, 204, 113, 0.8)"
              "rgba(46, 204, 113, 0.15)" true 120 true [] 0.
Proof.
  unfold ParticleManager.hero_options.
  rewrite (proj2 (gt_true 1024 768)) by lra.
  unfold make_config, JS.spread. simpl. reflexivity.
Qed.

(** What the [DOMContentLoaded] listener builds for [wide_document]:
    the monitor's request, then one hero system of 60 particles,
    registered as [hero-0]. *)
Lemma discovered_page :
  exists s k,
    Events.DOMContentLoaded SampleRun.wide_document 0
      (Events.loaded (fun _ => 0) (fun _ => Rect.mk 0 0 1920 1080))
    = Some (tt, SampleRun.discovered) /\
    SampleRun.discovered
    = Page.mk
        (Host.mk (fun _ => 0) k
                 (fun _ => Rect.mk 0 0 1920 1080) 3
                 [(1%positive, CheckFrameRate); (2%positive, Animate 0)])
        [s] [("hero-0"%string, 0%nat)] true 0 0 /\
    Config.particleCount (config s) = 60%Z /\
    length (particles s) = 60%nat /\
    self s = 0%nat /\
    animationId s = Some 2%positive /\
    Canvas.attached (canvas s) = true.
Proof.
  set (L := Events.loaded (fun _ => 0) (fun _ => Rect.mk 0 0 1920 1080)).
  set (W1 := Page.mk (Host.mk (fun _ => 0) 0 (fun _ => Rect.mk 0 0 1920 1080)
                              2 [(1%positive, CheckFrameRate)])
                     [] [] true 0 0).
  assert (E1 : PerformanceManager.init SampleRun.wide_document 0 L
               = Some (tt, W1)).
  { unfold PerformanceManager.init, PerformanceManager.monitorFrameRate,
      bind, Page.modify, Page.on_host, Env.requestAnimationFrame, ret, L,
      Events.loaded.
    cbn -[PerformanceManager.detectPerformance].
    rewrite wide_detect. reflexivity. }
  destruct (init_spec
              (mk Plain 0 0 (Canvas.mk 0 0 false []) [] (Mouse.mk 0 0) None
                  (make_config (ParticleManager.hero_options 1024)) false)
              (Page.host W1)) as (ps & cmds & k & E2 & Hlen).
  rewrite wide_hero_config in E2, Hlen.
  cbn -[Sample.resized_count JS.reflect_unsigned_long] in E2, Hlen.
  unfold Sample.resized_count in E2, Hlen. cbn [Config.responsive] in E2, Hlen.
  rewrite (rescaled_full 60) in E2, Hlen by (simpl; lra).
  assert (E : Events.DOMContentLoaded SampleRun.wide_document 0 L
              = Some (tt,
                      Page.mk
                        (Host.mk (fun _ => 0) (0 + k)
                                 (fun _ => Rect.mk 0 0 1920 1080) 3
                                 [(1%positive, CheckFrameRate);
                                  (2%positive, Animate 0)])
                        [mk Plain 0 0
                            (Canvas.mk (JS.reflect_unsigned_long 300 1920)
                                       (JS.reflect_unsigned_long 150 1080)
                                       true cmds)
                            ps (Mouse.mk 0 0) (Some 2%positive)
                            (Config.mk 60 3 0.3 120 "rgba(46, 204, 113, 0.8)"
                               "rgba(46, 204, 113, 0.15)" true 120 true [] 0)
                            true]
                        [("hero-0"%string, 0%nat)] true 0 0)).
  { unfold Events.DOMContentLoaded. cbn [Document.reducedMotion SampleRun.wide_document].
    rewrite (bind_step _ _ _ _ _ E1).
    unfold bind at 1. unfold Page.get at 1. cbn [Page.isHighPerformance W1].
    unfold ParticleManager.init, ParticleManager.initHeroParticles,
      ParticleManager.initSectionParticles.
    cbn [Document.heroSections Document.particleSections Document.innerWidth
         SampleRun.wide_document length seq combine Page.for_each].
    unfold bind at 1. unfold bind at 1. unfold bind at 1.
    unfold Page.alloc at 1. unfold new. rewrite wide_hero_config.
    unfold W1. cbn [Page.heap Page.host length].
    rewrite E2. reflexivity. }
  eexists _, _. unfold SampleRun.discovered, SampleRun.after. fold L.
  rewrite E. split; [reflexivity|].
  split; [reflexivity|]. cbn. repeat split; auto.
Qed.

Lemma discovered_reachable : Events.reachable SampleRun.discovered.
Proof.
  destruct discovered_page as (s & k & E & _).
  exact (Events.reach_ready _ _ _ _ _ E).
Qed.

(** The frame that finds the frame rate low, on the discovered page. *)
Lemma discovered_degrades :
  exists w' s s',
    Events.step (Events.frame 2000) SampleRun.discovered = Some (tt, w') /\
    Page.heap SampleRun.discovered !! 0%nat = Some s /\
    Page.heap w' !! 0%nat = Some s' /\
    Config.particleCount (config s) = 60%Z /\
    length (particles s) = 60%nat /\
    Config.particleCount (config s') = 36%Z /\
    length (particles s') = 36%nat.
Proof.
  destruct discovered_page as (s & k & _ & Hw & Hc & Hl & _).
  destruct (step_total (Events.frame 2000) SampleRun.discovered
              (reachable_wf _ discovered_reachable) I)
    as (w' & Hstep & _).
  exists w', s.
  cut (exists s', Page.heap w' !! 0%nat = Some s' /\
                  Config.particleCount (config s') = 36%Z /\
                  length (particles s') = 36%nat).
  { intros (s' & H1 & H2 & H3). exists s'.
    split; [exact Hstep|]. split; [rewrite Hw; reflexivity|]. auto. }
  rewrite Hw in Hstep.
  unfold Events.step, Events.run_frame in Hstep.
  unfold bind at 1 in Hstep. unfold Page.get at 1 in Hstep.
  unfold bind at 1 in Hstep. unfold Page.modify at 1 in Hstep.
  cbn [Page.host Host.rafQueue Page.for_each snd Events.run_callback
       Page.set_host Host.set_rafQueue Page.heap Page.systems
       Page.isHighPerformance Page.frames Page.lastTime Host.entropy
       Host.cursor Host.layout Host.rafSeq] in Hstep.
  apply bind_Some in Hstep as ([] & w1 & Hchk & Hrest).
  match type of Hchk with
  | PerformanceManager.checkFrameRate _ ?w0 = _ =>
      destruct (checkFrameRate_degrades w0 2000) as (w4 & H4 & Hc4)
  end.
  { intros e He. apply list_elem_of_singleton in He. subst e. simpl. lia. }
  { reflexivity. }
  { simpl. lra. }
  { simpl. lia. }
  rewrite Hc4 in Hchk. injection Hchk as <-.
  unfold PerformanceManager.optimizeParticles, ParticleManager.forEach in H4.
  unfold bind, Page.get in H4.
  match type of H4 with
  | Page.for_each _ _ ?w3 = _ =>
      destruct (for_each_at_effect snd PerformanceManager.shrink
                  (Page.systems w3) (NoDup_singleton _) w3 w4 H4)
        as (Heach & _ & _)
  end.
  destruct (Heach ("hero-0"%string, 0%nat)) as (s0 & s1 & h & h' & Hs0 & Hf & Hs1).
  { simpl. apply list_elem_of_singleton. reflexivity. }
  simpl in Hs0. injection Hs0 as <-. simpl in Hs1.
  destruct (shrink_spec _ _ _ _ Hf) as [Hc1 Hl1].
  rewrite Hc in Hc1.
  assert (H36 : JS.floor (IZR 60 * 0.6) = 36%Z).
  { apply floor_unique. lra. }
  rewrite H36 in Hc1. rewrite Hc1 in Hl1.
  apply bind_Some in Hrest as ([] & w2 & Han & Hret).
  injection Hret as <-.
  destruct (at_frame _ _ _ _ Han) as (sa & sb & Hsa & Hf2 & Hh & _).
  simpl in Hsa. rewrite Hs1 in Hsa. injection Hsa as <-.
  destruct (animate_spec s1 (Page.host
              (Page.set_host (Host.enqueue CheckFrameRate (Page.host w4)) w4)))
    as (ps & cmds & Ea & Hlen).
  rewrite Ea in Hf2. injection Hf2 as <- _.
  eexists. split.
  { rewrite Hh. simpl. apply list_lookup_insert_eq.
    apply lookup_lt_is_Some. eauto. }
  simpl. rewrite Hlen. auto.
Qed.
End Discovered.

(** ** The properties at sample inputs *)

Section Witnesses.
Local Open Scope R_scope.
Import Frames.

Lemma idle_page_accounted : accounted [] SamplePage.idle_page.
Proof.
  split; simpl.
  - intros [|i] s H; simpl in H; [|rewrite lookup_nil in H; discriminate].
    injection H as <-. split; reflexivity.
  - constructor.
  - constructor.
  - intros id i H. inversion H.
  - intros e H. apply list_elem_of_singleton in H. subst e. simpl. lia.
  - apply NoDup_singleton.
Qed.

Lemma zero_threshold_is_no_effect_witness :
  Config.connectionDistance SamplePage.zero_config = 0 /\
  Config.mouseRadius SamplePage.zero_config = 0 /\
  ParticleSystem.drawConnections SamplePage.zero_config
    [ParticleSystem.plain (Sample.still 0 0 1);
     ParticleSystem.plain (Sample.still 3 4 1)] = Some [] /\
  exists q',
    ParticleSystem.update (ParticleSystem.plain (Sample.still 3 4 1))
      (Canvas.mk 960 540 true []) (Mouse.mk 0 0) SamplePage.zero_config
    = Some q' /\
    ParticleSystem.update (ParticleSystem.plain (Sample.still 3 4 1))
      (Canvas.mk 960 540 true []) (Mouse.mk 0 0)
      (Config.set_mouseInteraction false SamplePage.zero_config)
    = Some q'.
Proof.
  split; [reflexivity|]. split; [reflexivity|].
  apply zero_threshold_is_no_effect; reflexivity.
Defined.

Lemma governor_degrades_once_witness :
  (forall e, e ∈ Page.systems SamplePage.idle_page ->
             (snd e < length (Page.heap SamplePage.idle_page))%nat) /\
  NoDup (snd <$> Page.systems SamplePage.idle_page) /\
  Page.isHighPerformance SamplePage.idle_page = true /\
  1000 - Page.lastTime SamplePage.idle_page >= 1000 /\
  (Page.frames SamplePage.idle_page + 1 < 30)%Z /\
  exists w',
    PerformanceManager.checkFrameRate 1000 SamplePage.idle_page
    = Some (tt, w') /\
    Page.isHighPerformance w' = false /\
    (forall key i s,
        (key, i) ∈ Page.systems SamplePage.idle_page ->
        Page.heap SamplePage.idle_page !! i = Some s ->
        exists s',
          Page.heap w' !! i = Some s' /\
          Config.particleCount (ParticleSystem.config s')
          = JS.floor (IZR (Config.particleCount (ParticleSystem.config s))
                      * 0.6) /\
          length (ParticleSystem.particles s')
          = Z.to_nat (Config.particleCount (ParticleSystem.config s'))) /\
    (forall es w'',
        run es w' = Some (tt, w'') ->
        Page.isHighPerformance w'' = false /\
        forall now' w''',
          PerformanceManager.checkFrameRate now' w'' = Some (tt, w''') ->
          Page.heap w''' = Page.heap w'' /\
          Page.isHighPerformance w''' = false).
Proof.
  assert (H0 : forall e, e ∈ Page.systems SamplePage.idle_page ->
                         (snd e < length (Page.heap SamplePage.idle_page))%nat)
    by exact (acc_registry _ _ idle_page_accounted).
  assert (H1 : NoDup (snd <$> Page.systems SamplePage.idle_page))
    by exact (acc_registry_nodup _ _ idle_page_accounted).
  assert (H2 : Page.isHighPerformance SamplePage.idle_page = true)
    by reflexivity.
  assert (H3 : 1000 - Page.lastTime SamplePage.idle_page >= 1000)
    by (simpl; lra).
  assert (H4 : (Page.frames SamplePage.idle_page + 1 < 30)%Z)
    by (simpl; lia).
  split; [exact H0|]. split; [exact H1|]. split; [exact H2|].
  split; [exact H3|]. split; [exact H4|].
  exact (governor_degrades_once SamplePage.idle_page 1000 H0 H1 H2 H3 H4).
Defined.

Lemma one_frame_request_per_instance_witness :
  Events.reachable SamplePage.started /\
  Page.heap SamplePage.started !! 0%nat = Some SamplePage.started_system /\
  let pending w := outstanding 0 (Host.rafQueue (Page.host w)) in
  (length (pending SamplePage.started) <= 1)%nat /\
  pending SamplePage.started
  = option_list (ParticleSystem.animationId SamplePage.started_system) /\
  (exists w1,
      Events.step (Events.call_pause 0) SamplePage.started = Some (tt, w1) /\
      pending w1 = [] /\
      (forall n, run (repeat (Events.call_pause 0) n) w1 = Some (tt, w1)) /\
      exists w2,
        Events.step (Events.call_resume 0) w1 = Some (tt, w2) /\
        length (pending w2) = 1%nat /\
        (forall n,
            run (repeat (Events.call_resume 0) n) w2 = Some (tt, w2))) /\
  (forall container options,
      exists w',
        Events.step (Events.call_new container options) SamplePage.started
        = Some (tt, w') /\
        length (outstanding (length (Page.heap SamplePage.started))
                            (Host.rafQueue (Page.host w'))) = 1%nat).
Proof.
  split; [exact started_reachable|]. split; [reflexivity|].
  exact (one_frame_request_per_instance SamplePage.started 0
           SamplePage.started_system started_reachable eq_refl).
Defined.

(** A particle resting at [(30, 40)], after an update in a canvas of
    960 by 540: it has only floated, by half a pixel at most. *)
Lemma resting_update (mouse : Mouse.t) (config : Config.t) :
  exists q',
    ParticleSystem.update (ParticleSystem.plain (Sample.still 30 40 1))
      (Canvas.mk 960 540 true []) mouse config = Some q' /\
    Particle.x (ParticleSystem.body q') = 30 /\
    39.5 <= Particle.y (ParticleSystem.body q') <= 40.5.
Proof.
  destruct (system_update_total (ParticleSystem.plain (Sample.still 30 40 1))
              (Canvas.mk 960 540 true []) mouse config) as [q' Hq].
  exists q'. split; [exact Hq|].
  apply system_update_body in Hq.
  destruct (update_position _ _ _ _ _ Hq) as [Hx Hy].
  rewrite Hx, Hy. unfold Particle.wrap, Canvas.w, Canvas.h. simpl.
  pose proof (SIN_bound (0 + 0.01)) as [Hlo Hhi].
  rewrite (proj2 (lt_false (30 + 0) 0)) by lra.
  rewrite (proj2 (gt_false (30 + 0) 960)) by lra.
  rewrite (proj2 (lt_false (40 + 0 + sin (0 + 0.01) * 0.5) 0)) by lra.
  rewrite (proj2 (gt_false (40 + 0 + sin (0 + 0.01) * 0.5) 540)) by lra.
  split; lra.
Qed.

Lemma near_origin (x y : R) :
  x = 30 -> 39.5 <= y <= 40.5 ->
  sqrt ((0 - x) * (0 - x) + (0 - y) * (0 - y)) < 100.
Proof.
  intros -> Hy. rewrite <- (sqrt_square 100) at 1 by lra.
  apply sqrt_lt_1_alt. nra.
Qed.

Lemma distance_3_4 : sqrt ((0 - 30) * (0 - 30) + (0 - 40) * (0 - 40)) = 50.
Proof.
  replace ((0 - 30) * (0 - 30) + (0 - 40) * (0 - 40)) with (50 * 50) by ring.
  apply sqrt_square. lra.
Qed.

Lemma initial_pointer_is_the_origin_witness :
  (exists q',
      ParticleSystem.update (ParticleSystem.plain (Sample.still 30 40 1))
        (Canvas.mk 960 540 true []) (Mouse.mk 0 0) SamplePage.idle_config
      = Some q' /\
      let p := Sample.still 30 40 1 in
      let p' := ParticleSystem.body q' in
      let dx := 0 - Particle.x p' in
      let dy := 0 - Particle.y p' in
      let distance := sqrt (dx * dx + dy * dy) in
      let force := (Config.mouseRadius SamplePage.idle_config - distance)
                   / Config.mouseRadius SamplePage.idle_config in
      let angle := JS.atan2 dy dx in
      Config.mouseInteraction SamplePage.idle_config = true /\
      distance < Config.mouseRadius SamplePage.idle_config /\
      0 < force /\
      Particle.vx p'
      = (Particle.vx p - cos angle * force * 0.5) * 0.99
        + (Particle.originalX p - Particle.x p') * 0.001 /\
      Particle.vy p'
      = (Particle.vy p - sin angle * force * 0.5) * 0.99
        + (Particle.originalY p - Particle.y p') * 0.001 /\
      (cos angle * force * 0.5 <> 0 \/ sin angle * force * 0.5 <> 0) /\
      0 <= cos angle * force * 0.5 * dx + sin angle * force * 0.5 * dy) /\
  (-1000 <= -500 /\
   Particle.repel 30 40 0 0 (Mouse.mk (-1000) (-1000))
                  SamplePage.idle_config = Some (0, 0)) /\
  (Config.mouseInteraction SamplePage.idle_config = true /\
   -500 < 0 /\
   sqrt ((0 - 30) * (0 - 30) + (0 - 40) * (0 - 40))
   < Config.mouseRadius SamplePage.idle_config /\
   let dx := 0 - 30 in
   let dy := 0 - 40 in
   let distance := sqrt (dx * dx + dy * dy) in
   let force := (Config.mouseRadius SamplePage.idle_config - distance)
                / Config.mouseRadius SamplePage.idle_config in
   let angle := JS.atan2 dy dx in
   Particle.repel 30 40 0 0 (Mouse.mk 0 0) SamplePage.idle_config
   = Some (0 - cos angle * force * 0.5, 0 - sin angle * force * 0.5) /\
   0 < force /\
   (cos angle * force * 0.5 <> 0 \/ sin angle * force * 0.5 <> 0) /\
   0 <= cos angle * force * 0.5 * dx + sin angle * force * 0.5 * dy) /\
  (pointerless (Events.call_pause 0) /\
   Events.step (Events.call_pause 0) SamplePage.idle_page
   = Some (tt, SamplePage.idle_page) /\
   forall i s,
     Page.heap SamplePage.idle_page !! i = Some s ->
     exists s',
       Page.heap SamplePage.idle_page !! i = Some s' /\
       ParticleSystem.mouse s' = ParticleSystem.mouse s).
Proof.
  destruct initial_pointer_is_the_origin
    as (_ & Hupdate & Hguard & Hpush & _ & Hkeep).
  assert (H1 : -1000 <= -500) by lra.
  assert (H2 : Config.mouseInteraction SamplePage.idle_config = true)
    by reflexivity.
  assert (H3 : -500 < 0) by lra.
  assert (H4 : sqrt ((0 - 30) * (0 - 30) + (0 - 40) * (0 - 40))
               < Config.mouseRadius SamplePage.idle_config).
  { rewrite distance_3_4. simpl. lra. }
  assert (H5 : pointerless (Events.call_pause 0)) by exact I.
  assert (H6 : Events.step (Events.call_pause 0) SamplePage.idle_page
               = Some (tt, SamplePage.idle_page)) by reflexivity.
  split; [|split; [split; [exact H1|]
                  |split; [repeat (split; [assumption|])|]]].
  - destruct (resting_update (Mouse.mk 0 0) SamplePage.idle_config)
      as (q' & Hq & Hx & Hy).
    exists q'. split; [exact Hq|].
    assert (H7 : sqrt ((0 - Particle.x (ParticleSystem.body q'))
                       * (0 - Particle.x (ParticleSystem.body q'))
                       + (0 - Particle.y (ParticleSystem.body q'))
                         * (0 - Particle.y (ParticleSystem.body q')))
                 < Config.mouseRadius SamplePage.idle_config)
      by exact (near_origin _ _ Hx Hy).
    split; [exact H2|]. split; [exact H7|].
    exact (Hupdate (ParticleSystem.plain (Sample.still 30 40 1)) q'
             (Canvas.mk 960 540 true []) SamplePage.idle_config Hq H2 H7).
  - exact (Hguard 30 40 0 0 (Mouse.mk (-1000) (-1000))
                  SamplePage.idle_config H1).
  - exact (Hpush 30 40 0 0 (Mouse.mk 0 0) SamplePage.idle_config H2 H3 H4).
  - split; [exact H5|]. split; [exact H6|].
    exact (Hkeep _ _ _ H5 H6).
Defined.

Lemma events_keep_configuration_but_count_witness :
  (exists s',
      Page.heap SampleRun.lone_later !! 0%nat = Some s' /\
      ParticleSystem.config s'
      = Config.set_particleCount
          (Config.particleCount (ParticleSystem.config s'))
          (ParticleSystem.config SampleRun.lone_system) /\
      exists n : nat,
        ParticleSystem.config s'
        = Nat.iter n mitigated (ParticleSystem.config SampleRun.lone_system)) /\
  (exists s',
      Page.heap SampleRun.watched_shown !! 0%nat = Some s' /\
      ParticleSystem.config s'
      = ParticleSystem.config SampleRun.lone_system).
Proof.
  split.
  - destruct (events_keep_configuration_but_count
                [Events.frame 16; Events.visibilitychange true]
                SampleRun.lone SampleRun.lone_later 0 SampleRun.lone_system
                eq_refl eq_refl)
      as (s' & Hs & Hfrozen & _ & Hmitigated & _).
    exists s'. split; [exact Hs|]. split; [exact Hfrozen|].
    apply Hmitigated. repeat constructor.
  - destruct (events_keep_configuration_but_count
                [Events.visibilitychange true; Events.visibilitychange false]
                SampleRun.watched_lone SampleRun.watched_shown 0
                (ParticleSystem.set_animationId (Some 2%positive)
                   SampleRun.lone_system)
                eq_refl eq_refl)
      as (s' & Hs & _ & Hsame & _).
    exists s'. split; [exact Hs|]. apply Hsame. repeat constructor.
Defined.

(** C5 does not hold as stated: on the page that [DOMContentLoaded]
    builds for a document 1024 wide with one hero section of 1920 by
    1080, the hero system has the count 60 and 60 particles; the
    animation frame at time 2000, in which the governor counts one frame
    over two seconds, leaves it with the count 36 and 36 particles, so
    with another configuration. *)
Lemma mitigation_rewrites_the_configuration :
  exists w' s s',
    Events.reachable SampleRun.discovered /\
    Events.step (Events.frame 2000) SampleRun.discovered = Some (tt, w') /\
    Page.heap SampleRun.discovered !! 0%nat = Some s /\
    Page.heap w' !! 0%nat = Some s' /\
    Config.particleCount (ParticleSystem.config s) = 60%Z /\
    length (ParticleSystem.particles s) = 60%nat /\
    Config.particleCount (ParticleSystem.config s') = 36%Z /\
    length (ParticleSystem.particles s') = 36%nat /\
    ParticleSystem.config s' <> ParticleSystem.config s.
Proof.
  destruct discovered_degrades
    as (w' & s & s' & Hstep & Hs & Hs' & Hc & Hl & Hc' & Hl').
  exists w', s, s'.
  split; [exact discovered_reachable|].
  repeat (split; [assumption|]).
  intros E. rewrite E, Hc in Hc'. discriminate.
Qed.
End Witnesses.

(** * Further properties of the code *)

(** ** Properties every object of a page keeps *)

Section ObjectInvariants.
Import Frames Invariants.
Variable G : (nat -> R) -> Prop.
Variable P : ParticleSystem.t -> Prop.

Lemma maintains_ret {A} (a : A) : maintains G P (ret a).
Proof. intros w a' w' Hw [= <- <-]. exact Hw. Qed.

Lemma maintains_bind {A B} (m : M Page.t A) (k : A -> M Page.t B) :
  maintains G P m -> (forall a, maintains G P (k a)) ->
  maintains G P (bind m k).
Proof.
  intros Hm Hk w b w' Hw H.
  apply bind_Some in H as (a & w1 & H1 & H2).
  exact (Hk a w1 b w' (Hm w a w1 Hw H1) H2).
Qed.

Lemma maintains_with_get {B} (k : Page.t -> M Page.t B) :
  (forall w, maintains G P (k w)) -> maintains G P (bind Page.get k).
Proof.
  intros Hk. apply maintains_bind; [|exact Hk].
  intros w a w' Hw [= <- <-]. exact Hw.
Qed.

Lemma maintains_modify (f : Page.t -> Page.t) :
  (forall w, Page.heap (f w) = Page.heap w) ->
  (forall w, Host.entropy (Page.host (f w)) = Host.entropy (Page.host w)) ->
  maintains G P (Page.modify f).
Proof.
  intros Hh He w a w' [Hg Hp] [= <- <-]. split.
  - rewrite He. exact Hg.
  - rewrite Hh. exact Hp.
Qed.

Lemma maintains_request cb :
  maintains G P (Page.on_host (Env.requestAnimationFrame cb)).
Proof. intros w a w' Hw [= <- <-]. exact Hw. Qed.

Lemma maintains_at (i : nat) f : sound G P f -> maintains G P (Page.at_ i f).
Proof.
  intros Hf w a w' [Hg Hp] H. unfold Page.at_ in H.
  destruct (Page.heap w !! i) as [s|] eqn:Hs; [|discriminate].
  destruct (f s (Page.host w)) as [[s' h]|] eqn:Hfs; [|discriminate].
  injection H as <- <-.
  destruct (Hf s (Page.host w) s' h Hg) as [Hp' Hg']; [|exact Hfs|].
  { rewrite list.Forall_forall in Hp. apply Hp.
    apply list_elem_of_lookup. eauto. }
  split; [exact Hg'|]. simpl. apply Forall_insert; assumption.
Qed.

Lemma maintains_alloc ctor : founding G P ctor -> maintains G P (Page.alloc ctor).
Proof.
  intros Hc w a w' [Hg Hp] H. unfold Page.alloc in H.
  destruct (ctor _ _) as [[s h]|] eqn:E; [|discriminate].
  injection H as <- <-.
  destruct (Hc _ _ _ _ Hg E) as [Hp' Hg'].
  split; [exact Hg'|]. simpl. apply Forall_app. split; [exact Hp|].
  apply Forall_singleton. exact Hp'.
Qed.

Lemma maintains_for_each {A} (l : list A) (f : A -> M Page.t unit) :
  (forall a, maintains G P (f a)) -> maintains G P (Page.for_each l f).
Proof.
  intros Hf. induction l as [|a l IH]; simpl.
  - apply maintains_ret.
  - apply maintains_bind; [apply Hf|]. intros _. exact IH.
Qed.

Lemma maintains_every f : sound G P f -> maintains G P (Page.every f).
Proof.
  intros Hf. apply maintains_with_get. intros w.
  apply maintains_for_each. intros i. apply maintains_at, Hf.
Qed.

Lemma maintains_forEach f :
  sound G P f -> maintains G P (ParticleManager.forEach f).
Proof.
  intros Hf. apply maintains_with_get. intros w.
  apply maintains_for_each. intros e. apply maintains_at, Hf.
Qed.

Lemma maintains_destroyAll :
  sound G P ParticleSystem.destroy -> maintains G P ParticleManager.destroyAll.
Proof.
  intros Hd. apply maintains_bind; [apply maintains_forEach, Hd|].
  intros _. apply maintains_modify; reflexivity.
Qed.

Lemma maintains_checkFrameRate now :
  sound G P PerformanceManager.shrink ->
  maintains G P (PerformanceManager.checkFrameRate now).
Proof.
  intros Hs. unfold PerformanceManager.checkFrameRate.
  apply maintains_bind; [apply maintains_modify; reflexivity|]. intros _.
  apply maintains_with_get. intros w.
  apply maintains_bind.
  - destruct (JS.ge _ _); [|apply maintains_ret].
    apply maintains_bind; [apply maintains_modify; reflexivity|].
    intros _.
    destruct ((_ <? _)%Z && _); [|apply maintains_ret].
    apply maintains_bind; [apply maintains_modify; reflexivity|].
    intros _. apply maintains_forEach, Hs.
  - intros _. apply maintains_bind; [apply maintains_request|].
    intros _. apply maintains_ret.
Qed.

Hypothesis founding_plain : forall container options,
  founding G P (fun self => ParticleSystem.new self container options).
Hypothesis founding_geometric : forall container options,
  founding G P (fun self => GeometricParticleSystem.new self container options).

Lemma maintains_run_frame now :
  sound G P ParticleSystem.animate ->
  sound G P PerformanceManager.shrink ->
  maintains G P (Events.run_frame now).
Proof.
  intros Ha Hs w a w' Hw H. unfold Events.run_frame in H.
  unfold bind at 1 in H. unfold Page.get at 1 in H.
  unfold bind at 1 in H. unfold Page.modify at 1 in H.
  revert H. apply maintains_for_each.
  - intros [id [self|]]; simpl.
    + apply maintains_at, Ha.
    + apply maintains_checkFrameRate, Hs.
  - destruct Hw as [Hg Hp]. split; assumption.
Qed.

Lemma maintains_step (e : Events.event) :
  Forall (sound G P) (methods_of e) -> maintains G P (Events.step e).
Proof.
  intros Hm. destruct e; simpl in Hm; simpl;
    repeat match goal with
           | H : Forall _ (_ :: _) |- _ =>
               apply list.Forall_cons in H as [? H]
           end.
  - apply maintains_run_frame; assumption.
  - apply maintains_bind; [apply maintains_modify; reflexivity|].
    intros _. apply maintains_every. assumption.
  - apply maintains_bind.
    + destruct hidden; apply maintains_forEach; assumption.
    + intros _. apply maintains_every. assumption.
  - apply maintains_every. assumption.
  - apply maintains_every. assumption.
  - apply maintains_destroyAll. assumption.
  - apply maintains_bind; [apply maintains_alloc, founding_plain|].
    intros _. apply maintains_ret.
  - apply maintains_at. assumption.
  - apply maintains_at. assumption.
  - apply maintains_at. assumption.
  - apply maintains_forEach. assumption.
  - apply maintains_forEach. assumption.
  - apply maintains_destroyAll. assumption.
Qed.

Lemma maintains_DOMContentLoaded doc now :
  maintains G P (Events.DOMContentLoaded doc now).
Proof.
  unfold Events.DOMContentLoaded.
  destruct (Document.reducedMotion doc); [apply maintains_ret|].
  apply maintains_bind.
  { apply maintains_bind; [apply maintains_modify; reflexivity|]. intros _.
    apply maintains_bind; [apply maintains_modify; reflexivity|]. intros _.
    apply maintains_bind; [apply maintains_request|]. intros _.
    apply maintains_ret. }
  intros _. apply maintains_with_get. intros w.
  destruct (Page.isHighPerformance w); [|apply maintains_ret].
  apply maintains_bind; [|intros _]; apply maintains_for_each.
  - intros [index section]. apply maintains_bind.
    + apply maintains_alloc, founding_plain.
    + intros system. apply maintains_modify; reflexivity.
  - intros [index [section attribute]]. apply maintains_bind.
    + destruct (String.eqb _ _); apply maintains_alloc;
        [apply founding_geometric|apply founding_plain].
    + intros system. apply maintains_modify; reflexivity.
Qed.

End ObjectInvariants.

(** ** The random stream, the particle count and the bounds *)

Section Stock.
Local Open Scope R_scope.
Import Frames Invariants.
Import ParticleSystem.

Lemma methods_listed (e : Events.event) : Forall method (methods_of e).
Proof. destruct e; simpl; repeat constructor. Qed.

(** No method touches the random stream other than by reading it. *)
Lemma method_conserving f : method f -> conserving f.
Proof.
  intros Hf s h s' h' H. destruct Hf.
  - destruct (animate_spec s h) as (ps & cmds & E & _).
    rewrite E in H. injection H as _ <-. reflexivity.
  - rewrite pause_spec in H.
    destruct (animationId s); injection H as _ <-; reflexivity.
  - destruct (animationId s) as [id|] eqn:E.
    + rewrite (resume_running s h id E) in H. injection H as _ <-. reflexivity.
    + rewrite (resume_paused s h E) in H.
      destruct (animate_spec s h) as (ps & cmds & E' & _).
      rewrite E' in H. injection H as _ <-. reflexivity.
  - rewrite destroy_spec in H.
    destruct (animationId s); injection H as _ <-; reflexivity.
  - destruct (on_resize_spec s h) as (ps & k & E & _).
    rewrite E in H. injection H as _ <-. reflexivity.
  - destruct hidden; simpl in H.
    + rewrite pause_spec in H.
      destruct (animationId s); injection H as _ <-; reflexivity.
    + destruct (animationId s) as [id|] eqn:E.
      * rewrite (resume_running s h id E) in H. injection H as _ <-.
        reflexivity.
      * rewrite (resume_paused s h E) in H.
        destruct (animate_spec s h) as (ps & cmds & E' & _).
        rewrite E' in H. injection H as _ <-. reflexivity.
  - destruct (quiet_shrink s h) as (s1 & k & E & _).
    rewrite E in H. injection H as _ <-. reflexivity.
  - unfold Events.pointer_moved in H.
    destruct (Events.hears target s); injection H as _ <-; reflexivity.
  - unfold Events.pointer_left in H.
    destruct (Events.hears target s); injection H as _ <-; reflexivity.
Qed.

Lemma init_conserving (s : t) h s' h' :
  init s h = Some (s', h') -> Host.entropy h' = Host.entropy h.
Proof.
  intros H. destruct (init_spec s h) as (ps & cmds & k & E & _).
  rewrite E in H. injection H as _ <-. reflexivity.
Qed.

Lemma sound_of_keeps G P f :
  conserving f ->
  (forall s h s' h', G (Host.entropy h) -> P s -> f s h = Some (s', h') -> P s') ->
  sound G P f.
Proof.
  intros Hc Hk s h s' h' Hg Hp H. split; [exact (Hk s h s' h' Hg Hp H)|].
  rewrite (Hc s h s' h' H). exact Hg.
Qed.

Lemma founding_of_init G P :
  (forall c self container config h s' h',
      G (Host.entropy h) ->
      init (blank c self container config) h = Some (s', h') -> P s') ->
  (forall container options,
      founding G P (fun self => ParticleSystem.new self container options)) /\
  (forall container options,
      founding G P
        (fun self => GeometricParticleSystem.new self container options)).
Proof.
  intros Hinit. split; intros container options self h s' h' Hg E.
  - split; [exact (Hinit Plain self container _ h s' h' Hg E)|].
    rewrite (init_conserving _ h s' h' E). exact Hg.
  - split; [exact (Hinit Geometric self container _ h s' h' Hg E)|].
    rewrite (init_conserving _ h s' h' E). exact Hg.
Qed.

(** An event leaves the random stream as it is, but for what it reads. *)
Lemma step_entropy (e : Events.event) (w w' : Page.t) :
  Events.step e w = Some (tt, w') ->
  Host.entropy (Page.host w') = Host.entropy (Page.host w).
Proof.
  intros H.
  destruct (founding_of_init (fun x => x = Host.entropy (Page.host w))
              (fun _ => True)) as [Hp _]; [auto|].
  destruct (maintains_step (fun x => x = Host.entropy (Page.host w))
              (fun _ => True) Hp e) with (w := w) (a := tt) (w' := w')
    as [Hg _].
  - eapply list.Forall_impl; [apply methods_listed|].
    intros f Hf. apply sound_of_keeps; [apply method_conserving, Hf|auto].
  - split; [reflexivity|]. apply list.Forall_forall. auto.
  - exact H.
  - exact Hg.
Qed.

Lemma DOMContentLoaded_entropy doc now (w w' : Page.t) :
  Events.DOMContentLoaded doc now w = Some (tt, w') ->
  Host.entropy (Page.host w') = Host.entropy (Page.host w).
Proof.
  intros H.
  destruct (founding_of_init (fun x => x = Host.entropy (Page.host w))
              (fun _ => True)) as [Hp Hq]; [auto|].
  destruct (maintains_DOMContentLoaded
              (fun x => x = Host.entropy (Page.host w)) (fun _ => True)
              Hp Hq doc now) with (w := w) (a := tt) (w' := w')
    as [Hg _].
  - split; [reflexivity|]. apply list.Forall_forall. auto.
  - exact H.
  - exact Hg.
Qed.

(** What the constructors establish and the methods keep, from a random
    stream with [G], holds of every object of every reachable page. *)
Lemma reachable_keeps (G : (nat -> R) -> Prop) (P : t -> Prop) :
  (forall c self container config h s' h',
      G (Host.entropy h) ->
      init (blank c self container config) h = Some (s', h') -> P s') ->
  (forall f, method f -> keeps G P f) ->
  forall w, Events.reachable w ->
            G (Host.entropy (Page.host w)) ->
            Forall P (Page.heap w).
Proof.
  intros Hinit Hkeep.
  destruct (founding_of_init G P Hinit) as [Hp Hq].
  assert (Hsound : forall e, Forall (sound G P) (methods_of e)).
  { intros e. eapply list.Forall_impl; [apply methods_listed|].
    intros f Hf. apply sound_of_keeps; [apply method_conserving, Hf|].
    intros s h s' h' Hg Hs H. exact (Hkeep f Hf s h s' h' Hg Hs H). }
  induction 1 as [entropy layout|entropy layout doc now w' H|w e w' _ IH H];
    intros Hfair.
  - constructor.
  - rewrite (DOMContentLoaded_entropy _ _ _ _ H) in Hfair.
    refine (proj2 (maintains_DOMContentLoaded G P Hp Hq doc now _ tt w' _ H)).
    split; [exact Hfair|constructor].
  - rewrite (step_entropy _ _ _ H) in Hfair.
    refine (proj2 (maintains_step G P Hp e (Hsound e) w tt w' _ H)).
    split; [exact Hfair|exact (IH Hfair)].
Qed.

(** *** The particle count *)

Lemma lone_reachable : Events.reachable SampleRun.lone.
Proof.
  apply (Events.reach_step
           (Events.loaded (fun _ => 0%R) (fun _ => Rect.mk 0 0 960 540))
           (Events.call_new 0 SampleRun.lone_options)).
  - apply Events.reach_loaded.
  - reflexivity.
Qed.

Lemma zero_fair : fair (fun _ => 0).
Proof. intros n. lra. Qed.

Lemma init_stocked c self container config h s' h' :
  init (blank c self container config) h = Some (s', h') -> stocked s'.
Proof.
  intros H. destruct (init_spec (blank c self container config) h)
    as (ps & cmds & k & E & Hlen).
  rewrite E in H. injection H as <- _. exact Hlen.
Qed.

Lemma method_stocked f : method f -> keeps any_stream stocked f.
Proof.
  intros Hf s h s' h' _ Hs H. unfold stocked in *.
  assert (Ha : forall s1 h1,
             animate s h = Some (s1, h1) ->
             length (particles s1)
             = Z.to_nat (Config.particleCount (config s1))).
  { intros s1 h1 Ha. destruct (animate_spec s h) as (ps & cmds & E & Hlen).
    rewrite E in Ha. injection Ha as <- _. simpl. congruence. }
  assert (Hp : forall s1 h1,
             pause s h = Some (s1, h1) ->
             length (particles s1)
             = Z.to_nat (Config.particleCount (config s1))).
  { intros s1 h1 Hp. rewrite pause_spec in Hp.
    destruct (animationId s); injection Hp as <- _; exact Hs. }
  assert (Hr : forall s1 h1,
             resume s h = Some (s1, h1) ->
             length (particles s1)
             = Z.to_nat (Config.particleCount (config s1))).
  { intros s1 h1 Hr. destruct (animationId s) as [id|] eqn:E.
    - rewrite (resume_running s h id E) in Hr. injection Hr as <- _. exact Hs.
    - rewrite (resume_paused s h E) in Hr. exact (Ha s1 h1 Hr). }
  destruct Hf.
  - exact (Ha s' h' H).
  - exact (Hp s' h' H).
  - exact (Hr s' h' H).
  - rewrite destroy_spec in H.
    destruct (animationId s); injection H as <- _; exact Hs.
  - destruct (on_resize_spec s h) as (ps & k & E & Hlen).
    rewrite E in H. injection H as <- _. exact Hlen.
  - destruct hidden; [exact (Hp s' h' H)|exact (Hr s' h' H)].
  - exact (proj2 (shrink_spec s s' h h' H)).
  - unfold Events.pointer_moved in H.
    destruct (Events.hears target s); injection H as <- _; exact Hs.
  - unfold Events.pointer_left in H.
    destruct (Events.hears target s); injection H as <- _; exact Hs.
Qed.

(** X1. On every page the events lead to, every system holds exactly as
    many particles as its configuration counts (none if the count is
    negative): no listener leaves the particle set and the count out of
    step. *)
Theorem particle_set_matches_count (w : Page.t) (i : nat) (s : t) :
  Events.reachable w ->
  Page.heap w !! i = Some s ->
  length (particles s) = Z.to_nat (Config.particleCount (config s)).
Proof.
  intros Hr Hs.
  pose proof (reachable_keeps any_stream stocked
                (fun c self container config h s' h' _ =>
                   init_stocked c self container config h s' h')
                method_stocked w Hr I) as Hall.
  rewrite list.Forall_forall in Hall. apply Hall.
  apply list_elem_of_lookup. eauto.
Qed.

Lemma particle_set_matches_count_witness :
  length (particles SampleRun.lone_system)
  = Z.to_nat (Config.particleCount (config SampleRun.lone_system)).
Proof.
  exact (particle_set_matches_count SampleRun.lone 0
           SampleRun.lone_system lone_reachable eq_refl).
Defined.

(** *** The pointer listeners *)

Lemma init_listening c self container config h s' h' :
  init (blank c self container config) h = Some (s', h') -> listening s'.
Proof.
  intros H. destruct (init_spec (blank c self container config) h)
    as (ps & cmds & k & E & _).
  rewrite E in H. injection H as <- _. split; reflexivity.
Qed.

Lemma method_listening f : method f -> keeps any_stream listening f.
Proof.
  intros Hf s h s' h' _ Hs H.
  assert (Ha : forall s1 h1, animate s h = Some (s1, h1) -> listening s1).
  { intros s1 h1 Ha. destruct (animate_spec s h) as (ps & cmds & E & Hlen).
    rewrite E in Ha. injection Ha as <- _. exact Hs. }
  assert (Hp : forall s1 h1, pause s h = Some (s1, h1) -> listening s1).
  { intros s1 h1 Hp. rewrite pause_spec in Hp.
    destruct (animationId s); injection Hp as <- _; exact Hs. }
  assert (Hr : forall s1 h1, resume s h = Some (s1, h1) -> listening s1).
  { intros s1 h1 Hr. destruct (animationId s) as [id|] eqn:E.
    - rewrite (resume_running s h id E) in Hr. injection Hr as <- _. exact Hs.
    - rewrite (resume_paused s h E) in Hr. exact (Ha s1 h1 Hr). }
  destruct Hf.
  - exact (Ha s' h' H).
  - exact (Hp s' h' H).
  - exact (Hr s' h' H).
  - rewrite destroy_spec in H.
    destruct (animationId s); injection H as <- _; exact Hs.
  - destruct (on_resize_spec s h) as (ps & k & E & Hlen).
    rewrite E in H. injection H as <- _. exact Hs.
  - destruct hidden; [exact (Hp s' h' H)|exact (Hr s' h' H)].
  - destruct (quiet_shrink s h) as (s1 & k & E & _).
    unfold PerformanceManager.shrink in H, E.
    match type of H with
    | createParticles ?s0 h = _ =>
        destruct (createParticles_spec s0 h) as (ps & k' & E' & _)
    end.
    rewrite E' in H. injection H as <- _. exact Hs.
  - unfold Events.pointer_moved in H.
    destruct (Events.hears target s) eqn:Eh; injection H as <- _;
      [|exact Hs].
    destruct Hs as [Hl Hm]. split; [exact Hl|]. simpl. intros Hoff.
    unfold Events.hears in Eh. rewrite Hl, Hoff in Eh. discriminate.
  - unfold Events.pointer_left in H.
    destruct (Events.hears target s) eqn:Eh; injection H as <- _;
      [|exact Hs].
    destruct Hs as [Hl Hm]. split; [exact Hl|]. simpl. intros Hoff.
    unfold Events.hears in Eh. rewrite Hl, Hoff in Eh. discriminate.
Qed.

(** X2. On every page the events lead to, a system built with
    [mouseInteraction] off has no pointer listener and its pointer is
    still [(0, 0)], whatever pointer events were delivered; a system
    built with it on has the listeners. *)
Theorem pointer_listeners_follow_configuration
    (w : Page.t) (i : nat) (s : t) :
  Events.reachable w ->
  Page.heap w !! i = Some s ->
  mouseListeners s = Config.mouseInteraction (config s) /\
  (Config.mouseInteraction (config s) = false -> mouse s = Mouse.mk 0 0).
Proof.
  intros Hr Hs.
  pose proof (reachable_keeps any_stream listening
                (fun c self container config h s' h' _ =>
                   init_listening c self container config h s' h')
                method_listening w Hr I) as Hall.
  rewrite list.Forall_forall in Hall. apply Hall.
  apply list_elem_of_lookup. eauto.
Qed.

Lemma pointer_listeners_follow_configuration_witness :
  mouseListeners SampleRun.lone_system
  = Config.mouseInteraction (config SampleRun.lone_system) /\
  (Config.mouseInteraction (config SampleRun.lone_system) = false ->
   mouse SampleRun.lone_system = Mouse.mk 0 0).
Proof.
  exact (pointer_listeners_follow_configuration SampleRun.lone 0
           SampleRun.lone_system lone_reachable eq_refl).
Defined.

(** *** The bounds *)

Lemma inside_resized (c c' : Canvas.t) (p : Particle.t) :
  Canvas.width c' = Canvas.width c ->
  Canvas.height c' = Canvas.height c ->
  inside c p -> inside c' p.
Proof.
  unfold inside, Canvas.w, Canvas.h. intros -> ->. auto.
Qed.

Lemma update_and_draw_inside ps canvas mouse config ps' cmds :
  update_and_draw ps canvas mouse config = Some (ps', cmds) ->
  Forall (fun q => inside canvas (body q)) ps'.
Proof.
  revert ps' cmds. induction ps as [|q ps IH]; simpl; intros ps' cmds H.
  - injection H as <- _. constructor.
  - destruct (update q canvas mouse config) as [q'|] eqn:Eq;
      [|discriminate].
    simpl in H.
    destruct (update_and_draw ps canvas mouse config) as [[ps1 cmds1]|];
      [|discriminate].
    simpl in H. injection H as <- _. constructor; [|exact (IH _ _ eq_refl)].
    apply system_update_body, update_position in Eq as [Hx Hy].
    unfold inside. rewrite Hx, Hy.
    split; apply wrap_in_range;
      [apply canvas_w_nonneg|apply canvas_h_nonneg].
Qed.

(** Whatever it starts from, a frame leaves every particle inside the
    canvas. *)
Lemma animate_contained (s s' : t) (h h' : Host.t) :
  animate s h = Some (s', h') -> contained s'.
Proof.
  unfold animate. intros H.
  apply bind_Some in H as (r & h1 & H1 & H).
  apply bind_Some in H as (lines & h2 & H2 & H).
  apply bind_Some in H as (id & h3 & H3 & H).
  injection H as <- _.
  unfold lift in H1.
  destruct (update_and_draw _ _ _ _) as [[ps cmds]|] eqn:E; [|discriminate].
  injection H1 as <- _.
  unfold contained. simpl.
  eapply list.Forall_impl; [exact (update_and_draw_inside _ _ _ _ _ _ E)|].
  intros q. apply inside_resized; reflexivity.
Qed.

Lemma new_particle_position (c : Class) (x y : R) config h q h' :
  new_particle c x y config h = Some (q, h') ->
  Particle.x (body q) = x /\ Particle.y (body q) = y.
Proof.
  destruct c; unfold new_particle, GeometricParticle.new, Particle.new,
    bind, Env.random, ret; intros H; injection H as <- _; split; reflexivity.
Qed.

Lemma scaled_in_range (r limit : R) : 0 <= r < 1 -> 0 <= limit ->
  0 <= r * limit <= limit.
Proof. intros Hr Hl. split; nra. Qed.

(** The particles [createParticles] builds lie inside the canvas. *)
Lemma spawn_inside (n : nat) (c : Class) canvas config h ps h' :
  fair (Host.entropy h) ->
  spawn n (new_particle c) canvas config h = Some (ps, h') ->
  Forall (fun q => inside canvas (body q)) ps.
Proof.
  revert h ps h'. induction n as [|n IH]; simpl; intros h ps h' Hfair H.
  - injection H as <- _. constructor.
  - unfold bind at 1 in H. unfold Env.random at 1 in H.
    unfold bind at 1 in H. unfold Env.random at 1 in H.
    apply bind_Some in H as (q & h1 & Hq & H).
    apply bind_Some in H as (rest & h2 & Hrest & H).
    injection H as <- _.
    destruct (new_particle_spec c
                (Host.entropy h (Host.cursor h) * Canvas.w canvas)
                (Host.entropy (Host.advance 1 h) (Host.cursor (Host.advance 1 h))
                 * Canvas.h canvas)
                config (Host.advance 1 (Host.advance 1 h))) as (q0 & k & Hq0).
    rewrite Hq0 in Hq. injection Hq as -> <-.
    constructor.
    + apply new_particle_position in Hq0 as [Hx Hy].
      unfold inside. rewrite Hx, Hy. split.
      * apply scaled_in_range; [apply Hfair|apply canvas_w_nonneg].
      * apply scaled_in_range; [apply Hfair|apply canvas_h_nonneg].
    + refine (IH _ _ _ _ Hrest). exact Hfair.
Qed.

Lemma createParticles_contained (s s' : t) (h h' : Host.t) :
  fair (Host.entropy h) ->
  createParticles s h = Some (s', h') -> contained s'.
Proof.
  unfold createParticles. intros Hfair H.
  apply bind_Some in H as (ps & h1 & Hps & H). injection H as <- _.
  exact (spawn_inside _ _ _ _ _ _ _ Hfair Hps).
Qed.

Lemma init_contained (s s' : t) (h h' : Host.t) :
  init s h = Some (s', h') -> contained s'.
Proof.
  unfold init. intros H.
  apply bind_Some in H as (s1 & h1 & _ & H).
  apply bind_Some in H as (s2 & h2 & _ & H).
  apply bind_Some in H as (s3 & h3 & _ & H).
  exact (animate_contained _ _ _ _ H).
Qed.

Lemma method_contained f : method f -> keeps fair contained f.
Proof.
  intros Hf s h s' h' Hfair Hs H.
  assert (Hp : forall s1 h1, pause s h = Some (s1, h1) -> contained s1).
  { intros s1 h1 Hp. rewrite pause_spec in Hp.
    destruct (animationId s); injection Hp as <- _; exact Hs. }
  assert (Hr : forall s1 h1, resume s h = Some (s1, h1) -> contained s1).
  { intros s1 h1 Hr. destruct (animationId s) as [id|] eqn:E.
    - rewrite (resume_running s h id E) in Hr. injection Hr as <- _. exact Hs.
    - rewrite (resume_paused s h E) in Hr.
      exact (animate_contained _ _ _ _ Hr). }
  destruct Hf.
  - exact (animate_contained _ _ _ _ H).
  - exact (Hp s' h' H).
  - exact (Hr s' h' H).
  - rewrite destroy_spec in H.
    destruct (animationId s); injection H as <- _; exact Hs.
  - unfold on_resize in H.
    rewrite (bind_step _ _ _ _ _ (resizeCanvas_spec s h)) in H.
    exact (createParticles_contained _ _ _ _ Hfair H).
  - destruct hidden; [exact (Hp s' h' H)|exact (Hr s' h' H)].
  - exact (createParticles_contained _ _ _ _ Hfair H).
  - unfold Events.pointer_moved in H.
    destruct (Events.hears target s); injection H as <- _; exact Hs.
  - unfold Events.pointer_left in H.
    destruct (Events.hears target s); injection H as <- _; exact Hs.
Qed.

(** X3. With [Math.random] in [[0, 1)], on every page the events lead
    to, every particle of every system lies inside the system's canvas:
    the constructor, the frame loop, resizing and the governor's
    mitigation all leave the particle set within the current bounds. *)
Theorem particles_stay_inside_canvas
    (w : Page.t) (i : nat) (s : t) (q : particle) :
  Events.reachable w ->
  fair (Host.entropy (Page.host w)) ->
  Page.heap w !! i = Some s ->
  q ∈ particles s ->
  0 <= Particle.x (body q) <= Canvas.w (canvas s) /\
  0 <= Particle.y (body q) <= Canvas.h (canvas s).
Proof.
  intros Hr Hfair Hs Hq.
  pose proof (reachable_keeps fair contained
                (fun c self container config h s' h' _ =>
                   init_contained _ s' h h')
                method_contained w Hr Hfair) as Hall.
  rewrite list.Forall_forall in Hall.
  assert (Hc : contained s).
  { apply Hall. apply list_elem_of_lookup. eauto. }
  unfold contained in Hc. rewrite list.Forall_forall in Hc.
  exact (Hc q Hq).
Qed.
Lemma particles_stay_inside_canvas_witness :
  0 <= Particle.x SampleRun.moved <= Canvas.w (canvas SampleRun.lone_system) /\
  0 <= Particle.y SampleRun.moved <= Canvas.h (canvas SampleRun.lone_system).
Proof.
  exact (particles_stay_inside_canvas SampleRun.lone 0 SampleRun.lone_system
           (plain SampleRun.moved) lone_reachable zero_fair eq_refl
           (list_elem_of_here _ _)).
Defined.

End Stock.

(** ** The page as a whole *)

Section Progressing.
Import Frames.

(** X4. On every page the events lead to, the listeners of an event run
    to the end: no quotient of the frame, of the resize listener or of
    the mitigation has a zero divisor, and no method is called on a
    system that is not there.  The page they leave is again one the
    events lead to. *)
Theorem events_are_handled_to_the_end (w : Page.t) (e : Events.event) :
  Events.reachable w ->
  enabled e w ->
  exists w', Events.step e w = Some (tt, w') /\ Events.reachable w'.
Proof.
  intros Hr He.
  destruct (step_total e w (reachable_wf w Hr) He) as (w' & H & _).
  exists w'. split; [exact H|]. exact (Events.reach_step w e w' Hr H).
Qed.

Lemma events_are_handled_to_the_end_witness :
  exists w',
    Events.step (Events.frame 16) SampleRun.lone = Some (tt, w') /\
    Events.reachable w'.
Proof.
  exact (events_are_handled_to_the_end SampleRun.lone (Events.frame 16)
           lone_reachable I).
Defined.
End Progressing.

Section Visibility.
Import Frames Invariants.
Import ParticleSystem.

(** A method called on every address in turn leaves every object as
    the method leaves the object it is called on. *)
Lemma for_each_at_establishes (Q : t -> Prop) f :
  (forall s h s' h', f s h = Some (s', h') -> Q s') ->
  forall m k w w',
    length (Page.heap w) = (k + m)%nat ->
    Forall Q (take k (Page.heap w)) ->
    Page.for_each (seq k m) (fun i => Page.at_ i f) w = Some (tt, w') ->
    Forall Q (Page.heap w').
Proof.
  intros Hf m. induction m as [|m IH]; intros k w w' Hlen Hk H; simpl in H.
  - injection H as <-. rewrite take_ge in Hk by lia. exact Hk.
  - apply bind_Some in H as ([] & w1 & H1 & H).
    apply at_frame in H1 as (s & s' & Hs & Hfs & Hheap & _).
    apply (IH (S k) w1 w'); [| |exact H].
    + rewrite Hheap, length_insert. lia.
    + rewrite Hheap, (take_S_r _ _ s').
      * rewrite take_insert_ge by lia.
        apply list.Forall_app. split; [exact Hk|].
        apply list.Forall_cons. split; [eauto|constructor].
      * apply list_lookup_insert_eq, lookup_lt_is_Some. eauto.
Qed.

Lemma every_establishes (Q : t -> Prop) f w w' :
  (forall s h s' h', f s h = Some (s', h') -> Q s') ->
  Page.every f w = Some (tt, w') -> Forall Q (Page.heap w').
Proof.
  intros Hf H. unfold Page.every, bind, Page.get in H.
  apply (for_each_at_establishes Q f Hf (length (Page.heap w)) 0%nat w w');
    [reflexivity|constructor|exact H].
Qed.

(** X5. When the page is hidden, every system is left without a frame
    handle, and no request that would run [animate] is left pending:
    the systems the manager does not know are paused by their own
    listener. *)
Theorem hidden_page_requests_no_frame (w w' : Page.t) :
  Events.reachable w ->
  Events.step (Events.visibilitychange true) w = Some (tt, w') ->
  Forall (fun s => animationId s = None) (Page.heap w') /\
  no_animation (Host.rafQueue (Page.host w')).
Proof.
  intros Hr H.
  assert (Hw' : wf w').
  { apply reachable_wf. exact (Events.reach_step _ _ _ Hr H). }
  simpl in H. apply bind_Some in H as ([] & w1 & _ & H).
  assert (Hall : Forall (fun s => animationId s = None) (Page.heap w')).
  { apply (every_establishes _ (on_visibilitychange true) w1 w'); [|exact H].
    intros s h s' h' Hp. simpl in Hp. rewrite pause_spec in Hp.
    destruct (animationId s) eqn:E; injection Hp as <- _;
      [reflexivity|exact E]. }
  split; [exact Hall|].
  intros id i Hin.
  pose proof (acc_targets _ _ Hw' id i Hin) as Hlt.
  apply lookup_lt_is_Some in Hlt as [s Hs].
  rewrite list.Forall_forall in Hall.
  assert (Hid : animationId s = None).
  { apply Hall. apply list_elem_of_lookup. eauto. }
  apply outstanding_elem in Hin.
  rewrite (pending_of_tracked w' i s Hw' Hs), Hid in Hin.
  inversion Hin.
Qed.

Lemma hidden_page_requests_no_frame_witness :
  Forall (fun s => animationId s = None) (Page.heap SampleRun.lone_hidden) /\
  no_animation (Host.rafQueue (Page.host SampleRun.lone_hidden)).
Proof.
  exact (hidden_page_requests_no_frame SampleRun.lone SampleRun.lone_hidden
           lone_reachable eq_refl).
Defined.

(** X6. When the page is shown again, every system holds a frame handle
    and has exactly one request pending, whatever it was before: also a
    system that was paused by hand, and one that was destroyed and has
    its canvas detached. *)
Theorem visible_page_restarts_every_system
    (w w' : Page.t) (i : nat) (s' : t) :
  Events.reachable w ->
  Events.step (Events.visibilitychange false) w = Some (tt, w') ->
  Page.heap w' !! i = Some s' ->
  exists id,
    animationId s' = Some id /\
    outstanding i (Host.rafQueue (Page.host w')) = [id].
Proof.
  intros Hr H Hs'.
  assert (Hw' : wf w').
  { apply reachable_wf. exact (Events.reach_step _ _ _ Hr H). }
  simpl in H. apply bind_Some in H as ([] & w1 & _ & H).
  assert (Hall : Forall (fun s => animationId s <> None) (Page.heap w')).
  { apply (every_establishes _ (on_visibilitychange false) w1 w');
      [|exact H].
    intros s h s1 h1 Hp. simpl in Hp.
    destruct (animationId s) as [id|] eqn:E.
    - rewrite (resume_running s h id E) in Hp. injection Hp as <- _.
      congruence.
    - rewrite (resume_paused s h E) in Hp.
      destruct (animate_spec s h) as (ps & cmds & Ha & _).
      rewrite Ha in Hp. injection Hp as <- _. discriminate. }
  rewrite list.Forall_forall in Hall.
  assert (Hid : animationId s' <> None).
  { apply Hall. apply list_elem_of_lookup. eauto. }
  destruct (animationId s') as [id|] eqn:E; [|congruence].
  exists id. split; [reflexivity|].
  rewrite (pending_of_tracked w' i s' Hw' Hs'), E. reflexivity.
Qed.

Lemma destroyed_reachable :
  Events.reachable
    (Page.mk (Host.mk (fun _ => 0%R) 0 (fun _ => Rect.mk 0 0 960 540) 2 [])
       [set_animationId None
          (set_canvas (Canvas.mk (JS.reflect_unsigned_long 300 960)
                                 (JS.reflect_unsigned_long 150 540) false [])
                      SamplePage.started_system)]
       [] true 0 0).
Proof.
  apply (Events.reach_step SamplePage.started (Events.call_destroy 0));
    [exact started_reachable|reflexivity].
Qed.

Lemma visible_page_restarts_every_system_witness :
  exists id,
    animationId SampleRun.revived_system = Some id /\
    outstanding 0 (Host.rafQueue (Page.host SampleRun.revived)) = [id].
Proof.
  exact (visible_page_restarts_every_system _ SampleRun.revived 0
           SampleRun.revived_system destroyed_reachable eq_refl eq_refl).
Defined.
End Visibility.

(** ** The performance check *)

Section Detection.
Local Open Scope R_scope.

(** X7. [detectPerformance] never raises the flag, and leaves it raised
    exactly when a 2D context exists, the window is at least 768 wide,
    the device memory is not reported, or is reported as 0 or as at
    least 4, and the connection is not reported as [slow-2g]. *)
Theorem detectPerformance_keeps_the_flag_iff
    (doc : Document.t) (flag : bool) :
  PerformanceManager.detectPerformance doc flag = true <->
  flag = true /\
  Document.context2d doc = true /\
  768 <= Document.innerWidth doc /\
  (forall m, Document.deviceMemory doc = Some m -> m = 0 \/ 4 <= m) /\
  Document.effectiveType doc <> Some "slow-2g"%string.
Proof.
  unfold PerformanceManager.detectPerformance.
  destruct doc as [rm ctx width mem eff heroes sections]. simpl.
  destruct ctx; simpl; [|split; [discriminate|intros (_ & H & _); discriminate]].
  destruct (JS.lt width 768) eqn:Hw.
  { apply lt_true in Hw.
    split; [discriminate|intros (_ & _ & H & _); lra]. }
  apply lt_false in Hw.
  assert (Heff : forall b : bool,
             match eff with
             | Some e => if String.eqb e "slow-2g" then false else b
             | None => b
             end = true <-> b = true /\ eff <> Some "slow-2g"%string).
  { intros b. destruct eff as [e|].
    - destruct (String.eqb_spec e "slow-2g") as [->|Hne].
      + split; [discriminate|intros [_ H]; congruence].
      + split; [intros ->; split; [reflexivity|congruence]|intros [-> _]; reflexivity].
    - split; [intros ->; split; [reflexivity|discriminate]|intros [-> _]; reflexivity]. }
  rewrite Heff. clear Heff.
  destruct mem as [m|].
  - unfold JS.truthy. destruct (Req_dec_T m 0) as [Hz|Hnz]; simpl.
    + split.
      * intros [-> He]. repeat split; auto.
        intros m' [= <-]. auto.
      * intros (-> & _ & _ & _ & He). auto.
    + destruct (JS.lt m 4) eqn:Hm.
      * apply lt_true in Hm. split; [intros [H _]; discriminate|].
        intros (_ & _ & _ & H & _). destruct (H m eq_refl); lra.
      * apply lt_false in Hm. split.
        -- intros [-> He]. repeat split; auto.
           intros m' [= <-]. auto.
        -- intros (-> & _ & _ & _ & He). auto.
  - split.
    + intros [-> He]. repeat split; auto. intros m' [=].
    + intros (-> & _ & _ & _ & He). auto.
Qed.
Lemma detectPerformance_keeps_the_flag_iff_witness :
  PerformanceManager.detectPerformance SampleRun.wide_document true = true.
Proof.
  apply (proj2 (detectPerformance_keeps_the_flag_iff
                  SampleRun.wide_document true)).
  simpl. repeat split; [lra|intros m [=]|discriminate].
Defined.
End Detection.

(** ** Discovery *)

Section Discovery.
Import Frames Invariants.
Import ParticleSystem.

Lemma fmap_combine_seq {A B} (g : A -> B) (l : list A) (k : nat) :
  (fun e => g (snd e)) <$> combine (seq k (length l)) l = g <$> l.
Proof.
  revert k. induction l as [|a l IH]; intros k; simpl; [reflexivity|].
  f_equal. apply IH.
Qed.

(** A constructor call followed by [systems.set(key, system)] adds one
    object, of the class and on the container the constructor was
    given. *)
Lemma register_shape (s0 : nat -> t) key w w' :
  bind (Page.alloc (fun self => init (s0 self)))
       (fun system =>
          Page.modify (fun w => Page.set_systems
                                  (ParticleManager.set key system
                                                       (Page.systems w)) w))
       w
  = Some (tt, w') ->
  exists s',
    Page.heap w' = Page.heap w ++ [s'] /\
    container s' = container (s0 (length (Page.heap w))) /\
    class s' = class (s0 (length (Page.heap w))).
Proof.
  intros H. apply bind_Some in H as (system & w1 & H1 & H).
  unfold Page.modify in H. injection H as <-.
  unfold Page.alloc in H1.
  destruct (init_spec (s0 (length (Page.heap w))) (Page.host w))
    as (ps & cmds & k & Hi & _).
  rewrite Hi in H1. injection H1 as _ <-.
  eexists. split; [reflexivity|]. split; reflexivity.
Qed.

Lemma for_each_appends {A} (f : A -> M Page.t unit)
    (c : A -> nat) (k : A -> Class) (l : list A) :
  (forall a w w',
      f a w = Some (tt, w') ->
      exists s', Page.heap w' = Page.heap w ++ [s'] /\
                 container s' = c a /\ class s' = k a) ->
  forall w w',
    Page.for_each l f w = Some (tt, w') ->
    container <$> Page.heap w' = (container <$> Page.heap w) ++ (c <$> l) /\
    class <$> Page.heap w' = (class <$> Page.heap w) ++ (k <$> l).
Proof.
  intros Hf. induction l as [|a l IH]; intros w w' H; simpl in H.
  - injection H as <-. simpl. rewrite !app_nil_r. split; reflexivity.
  - apply bind_Some in H as ([] & w1 & H1 & H).
    destruct (Hf a w w1 H1) as (s' & Hh & Hc & Hk).
    destruct (IH w1 w' H) as [IHc IHk].
    rewrite IHc, IHk, Hh, !fmap_app. simpl. rewrite Hc, Hk, <- !app_assoc.
    split; reflexivity.
Qed.

Lemma type_is_geometric (attribute : string) :
  String.eqb (JS.orS (Some attribute) "default") "geometric"
  = String.eqb attribute "geometric".
Proof. destruct attribute; reflexivity. Qed.

Lemma manager_init_shape doc w w' :
  ParticleManager.init doc w = Some (tt, w') ->
  container <$> Page.heap w'
  = (container <$> Page.heap w)
      ++ Document.heroSections doc ++ (fst <$> Document.particleSections doc) /\
  class <$> Page.heap w'
  = (class <$> Page.heap w)
      ++ (const Plain <$> Document.heroSections doc)
      ++ (class_of ∘ snd <$> Document.particleSections doc).
Proof.
  unfold ParticleManager.init. intros H.
  apply bind_Some in H as ([] & w1 & H1 & H2).
  apply (for_each_appends _ (fun e => snd e) (fun e => const Plain (snd e)))
    in H1.
  - apply (for_each_appends _ (fun e => fst (snd e))
             (fun e => (class_of ∘ snd) (snd e))) in H2.
    + destruct H1 as [H1c H1k]. destruct H2 as [H2c H2k].
      rewrite (fmap_combine_seq (fun x => x)) in H1c.
      rewrite (fmap_combine_seq (const Plain)) in H1k.
      rewrite (fmap_combine_seq fst) in H2c.
      rewrite (fmap_combine_seq (class_of ∘ snd)) in H2k.
      rewrite list_fmap_id in H1c.
      rewrite H2c, H2k, H1c, H1k, <- !app_assoc.
      split; reflexivity.
    + intros [index [section attribute]] w0 w0' Hreg. simpl.
      unfold class_of. rewrite <- type_is_geometric.
      cbv zeta in Hreg.
      destruct (String.eqb _ "geometric").
      * apply (register_shape
                 (fun self => mk Geometric self section
                                (Canvas.mk 0 0 false []) [] (Mouse.mk 0 0)
                                None _ false))
          in Hreg as (s' & Hh & Hc & Hk).
        eauto.
      * apply (register_shape
                 (fun self => mk Plain self section
                                (Canvas.mk 0 0 false []) [] (Mouse.mk 0 0)
                                None _ false))
          in Hreg as (s' & Hh & Hc & Hk).
        eauto.
  - intros [index section] w0 w0' Hreg. cbv zeta in Hreg.
    apply (register_shape
             (fun self => mk Plain self section
                            (Canvas.mk 0 0 false []) [] (Mouse.mk 0 0)
                            None _ false))
      in Hreg as (s' & Hh & Hc & Hk).
    eauto.
Qed.

(** X8. The [DOMContentLoaded] listener always returns.  With reduced
    motion preferred, or a performance check that fails, it builds no
    system; otherwise it builds one system for each element the hero
    selector matches and then one for each element the
    [data-particles] selector matches, in document order, each on the
    element it was built for, geometric exactly where the attribute is
    [geometric].  An element that both selectors match is given two
    systems, one by each pass. *)
Theorem one_system_per_matched_element
    (doc : Document.t) (now : R) (entropy : nat -> R)
    (layout : nat -> Rect.t) :
  exists w',
    Events.DOMContentLoaded doc now (Events.loaded entropy layout)
    = Some (tt, w') /\
    container <$> Page.heap w'
    = (if builds_systems doc
       then Document.heroSections doc
              ++ (fst <$> Document.particleSections doc)
       else []) /\
    class <$> Page.heap w'
    = (if builds_systems doc
       then (const Plain <$> Document.heroSections doc)
              ++ (class_of ∘ snd <$> Document.particleSections doc)
       else []) /\
    (builds_systems doc = true ->
     forall c,
       c ∈ Document.heroSections doc ->
       c ∈ fst <$> Document.particleSections doc ->
       exists i j s1 s2,
         (i < j)%nat /\
         Page.heap w' !! i = Some s1 /\
         Page.heap w' !! j = Some s2 /\
         container s1 = c /\
         container s2 = c).
Proof.
  destruct (DOMContentLoaded_total doc now _ (loaded_wf entropy layout))
    as (w' & H & _).
  exists w'. split; [exact H|].
  assert (Hshape :
            container <$> Page.heap w'
            = (if builds_systems doc
               then Document.heroSections doc
                      ++ (fst <$> Document.particleSections doc)
               else []) /\
            class <$> Page.heap w'
            = (if builds_systems doc
               then (const Plain <$> Document.heroSections doc)
                      ++ (class_of ∘ snd <$> Document.particleSections doc)
               else [])).
  { unfold Events.DOMContentLoaded, builds_systems in *.
    destruct (Document.reducedMotion doc); simpl.
    { injection H as <-. split; reflexivity. }
    apply bind_Some in H as ([] & w1 & H1 & H).
    unfold PerformanceManager.init, PerformanceManager.monitorFrameRate,
      bind, Page.modify, Page.on_host, Env.requestAnimationFrame, ret in H1.
    injection H1 as <-.
    unfold bind, Page.get in H. simpl in H.
    destruct (PerformanceManager.detectPerformance doc true).
    - apply manager_init_shape in H. exact H.
    - injection H as <-. split; reflexivity. }
  destruct Hshape as [Hc Hk]. split; [exact Hc|]. split; [exact Hk|].
  intros Hb c Hhero Hsect. rewrite Hb in Hc.
  apply list_elem_of_lookup in Hhero as [i Hi].
  apply list_elem_of_lookup in Hsect as [j Hj].
  assert (H1 : (container <$> Page.heap w') !! i = Some c).
  { rewrite Hc. apply lookup_app_l_Some. exact Hi. }
  assert (H2 : (container <$> Page.heap w')
                 !! (length (Document.heroSections doc) + j)%nat = Some c).
  { rewrite Hc, lookup_app_r by lia.
    replace (length (Document.heroSections doc) + j
             - length (Document.heroSections doc))%nat with j by lia.
    exact Hj. }
  rewrite list_lookup_fmap in H1, H2.
  destruct (Page.heap w' !! i) as [s1|] eqn:E1; [|discriminate].
  destruct (Page.heap w' !! (length (Document.heroSections doc) + j)%nat)
    as [s2|] eqn:E2; [|discriminate].
  injection H1 as H1. injection H2 as H2.
  exists i, (length (Document.heroSections doc) + j)%nat, s1, s2.
  split; [|auto]. apply lookup_lt_Some in Hi. lia.
Qed.

Lemma twice_matched_builds : builds_systems SampleRun.twice_matched = true.
Proof.
  unfold builds_systems, PerformanceManager.detectPerformance. simpl.
  rewrite (proj2 (lt_false 1024 768)) by lra. reflexivity.
Qed.

Lemma one_system_per_matched_element_witness :
  exists w' i j s1 s2,
    Events.DOMContentLoaded SampleRun.twice_matched 0
      (Events.loaded (fun _ => 0%R) (fun _ => Rect.mk 0 0 1920 1080))
    = Some (tt, w') /\
    (i < j)%nat /\
    Page.heap w' !! i = Some s1 /\
    Page.heap w' !! j = Some s2 /\
    container s1 = 0%nat /\
    container s2 = 0%nat.
Proof.
  destruct (one_system_per_matched_element SampleRun.twice_matched 0
              (fun _ => 0%R) (fun _ => Rect.mk 0 0 1920 1080))
    as (w' & H & _ & _ & Hboth).
  destruct (Hboth twice_matched_builds 0%nat)
    as (i & j & s1 & s2 & Hboth').
  - simpl. apply list_elem_of_singleton. reflexivity.
  - simpl. apply list_elem_of_singleton. reflexivity.
  - exists w', i, j, s1, s2. split; [exact H|exact Hboth'].
Defined.
End Discovery.

(** ** The registry *)

Section Registry.
Import Frames Invariants.
Import ParticleSystem.

Lemma string_of_index_inj (i j : nat) :
  DecimalString.NilZero.string_of_uint (Nat.to_uint i)
  = DecimalString.NilZero.string_of_uint (Nat.to_uint j) ->
  i = j.
Proof.
  assert (Hnonnil : forall n, Nat.to_uint n <> Decimal.Nil).
  { intros n. rewrite <- (DecimalNat.Unsigned.of_to n) at 1.
    rewrite DecimalNat.Unsigned.to_of. apply DecimalFacts.unorm_nonnil. }
  intros H. apply (f_equal DecimalString.NilZero.uint_of_string) in H.
  rewrite !DecimalString.NilZero.usu in H by apply Hnonnil.
  injection H as H. exact (DecimalNat.Unsigned.to_uint_inj i j H).
Qed.

Lemma numbered_inj (prefix : string) (i j : nat) :
  ParticleManager.numbered prefix i = ParticleManager.numbered prefix j ->
  i = j.
Proof.
  unfold ParticleManager.numbered. intros H.
  apply string_of_index_inj.
  induction prefix as [|c prefix IH]; simpl in H; [exact H|].
  injection H as H. exact (IH H).
Qed.

(** [Map.prototype.set] under a key the map does not have. *)
Lemma set_fresh key v m :
  key ∉ fst <$> m -> ParticleManager.set key v m = m ++ [(key, v)].
Proof.
  induction m as [|[k v'] m IH]; simpl; intros Hk; [reflexivity|].
  apply not_elem_of_cons in Hk as [Hne Hk].
  destruct (String.eqb_spec k key) as [->|_]; [congruence|].
  rewrite (IH Hk). reflexivity.
Qed.

Lemma register_registry (s0 : nat -> t) key w w' :
  bind (Page.alloc (fun self => init (s0 self)))
       (fun system =>
          Page.modify (fun w => Page.set_systems
                                  (ParticleManager.set key system
                                                       (Page.systems w)) w))
       w
  = Some (tt, w') ->
  key ∉ fst <$> Page.systems w ->
  Page.systems w' = Page.systems w ++ [(key, length (Page.heap w))] /\
  length (Page.heap w') = S (length (Page.heap w)).
Proof.
  intros H Hk. apply bind_Some in H as (system & w1 & H1 & H).
  unfold Page.modify in H. injection H as <-.
  unfold Page.alloc in H1.
  destruct (init (s0 (length (Page.heap w))) (Page.host w)) as [[s' h']|];
    [|discriminate].
  injection H1 as <- <-. simpl.
  rewrite (set_fresh _ _ _ Hk), length_app. simpl. split; [reflexivity|lia].
Qed.

Lemma entries_S prefix k base n :
  entries prefix k base (S n)
  = (ParticleManager.numbered prefix k, base)
      :: entries prefix (S k) (S base) n.
Proof.
  unfold entries. simpl. rewrite !Nat.add_0_r. f_equal.
  rewrite <- fmap_S_seq, <- list_fmap_compose.
  apply list_fmap_ext. intros _ j _. simpl.
  rewrite !Nat.add_succ_r. reflexivity.
Qed.

Lemma snd_entries prefix k base n :
  snd <$> entries prefix k base n = seq base n.
Proof.
  revert k base. induction n as [|n IH]; intros k base; [reflexivity|].
  rewrite entries_S. simpl. f_equal. apply IH.
Qed.

Lemma for_each_registers {A} (prefix : string)
    (f : nat * A -> M Page.t unit) (l : list A) :
  (forall index a w w',
      f (index, a) w = Some (tt, w') ->
      ParticleManager.numbered prefix index ∉ fst <$> Page.systems w ->
      Page.systems w'
      = Page.systems w
          ++ [(ParticleManager.numbered prefix index, length (Page.heap w))] /\
      length (Page.heap w') = S (length (Page.heap w))) ->
  forall k w w',
    (forall j, (k <= j)%nat ->
               ParticleManager.numbered prefix j ∉ fst <$> Page.systems w) ->
    Page.for_each (combine (seq k (length l)) l) f w = Some (tt, w') ->
    Page.systems w'
    = Page.systems w ++ entries prefix k (length (Page.heap w)) (length l) /\
    length (Page.heap w') = (length (Page.heap w) + length l)%nat.
Proof.
  intros Hf. induction l as [|a l IH]; intros k w w' Hk H; simpl in H.
  - injection H as <-. unfold entries. simpl. rewrite app_nil_r.
    split; [reflexivity|lia].
  - apply bind_Some in H as ([] & w1 & H1 & H).
    destruct (Hf k a w w1 H1 (Hk k (le_n k))) as [Hs Hl].
    destruct (IH (S k) w1 w') as [IHs IHl]; [|exact H|].
    + intros j Hj. rewrite Hs, fmap_app. simpl.
      intros Hin. apply elem_of_app in Hin as [Hin|Hin].
      * apply (Hk j); [lia|exact Hin].
      * apply list_elem_of_singleton in Hin.
        apply numbered_inj in Hin. lia.
    + simpl length. rewrite entries_S, IHs, IHl, Hs, Hl, <- app_assoc.
      simpl. split; [reflexivity|lia].
Qed.

Lemma manager_init_registry doc w w' :
  Page.systems w = [] ->
  ParticleManager.init doc w = Some (tt, w') ->
  Page.systems w'
  = entries "hero-" 0 (length (Page.heap w))
            (length (Document.heroSections doc))
      ++ entries "section-" 0
           (length (Page.heap w) + length (Document.heroSections doc))
           (length (Document.particleSections doc)) /\
  length (Page.heap w')
  = (length (Page.heap w) + length (Document.heroSections doc)
     + length (Document.particleSections doc))%nat.
Proof.
  unfold ParticleManager.init. intros Hempty H.
  apply bind_Some in H as ([] & w1 & H1 & H2).
  apply (for_each_registers "hero-") in H1 as [H1s H1l].
  - apply (for_each_registers "section-") in H2 as [H2s H2l].
    + rewrite H2s, H2l, H1s, H1l, Hempty. split; reflexivity.
    + intros index [section attribute] w0 w0' Hreg Hfresh. cbv zeta in Hreg.
      destruct (String.eqb _ "geometric").
      * apply (register_registry
                 (fun self => mk Geometric self section
                                (Canvas.mk 0 0 false []) [] (Mouse.mk 0 0)
                                None _ false)) in Hreg;
          [exact Hreg|exact Hfresh].
      * apply (register_registry
                 (fun self => mk Plain self section
                                (Canvas.mk 0 0 false []) [] (Mouse.mk 0 0)
                                None _ false)) in Hreg;
          [exact Hreg|exact Hfresh].
    + intros j _. rewrite H1s, Hempty. simpl.
      intros Hin. unfold entries in Hin.
      rewrite <- list_fmap_compose in Hin.
      apply list_elem_of_fmap in Hin as (i & Hi & _).
      simpl in Hi. discriminate.
  - intros index section w0 w0' Hreg Hfresh. cbv zeta in Hreg.
    apply (register_registry
             (fun self => mk Plain self section
                            (Canvas.mk 0 0 false []) [] (Mouse.mk 0 0)
                            None _ false)) in Hreg;
      [exact Hreg|exact Hfresh].
  - intros j _. rewrite Hempty. simpl. apply not_elem_of_nil.
Qed.

(** X9. The registry the [DOMContentLoaded] listener leaves holds every
    system it built, each once: the hero systems under [hero-0],
    [hero-1], ... and then the section systems under [section-0],
    [section-1], ..., in the order they were built.  No key overwrites
    another. *)
Theorem every_discovered_system_is_registered
    (doc : Document.t) (now : R) (entropy : nat -> R)
    (layout : nat -> Rect.t) :
  exists w',
    Events.DOMContentLoaded doc now (Events.loaded entropy layout)
    = Some (tt, w') /\
    Page.systems w'
    = (if builds_systems doc
       then entries "hero-" 0 0 (length (Document.heroSections doc))
              ++ entries "section-" 0 (length (Document.heroSections doc))
                   (length (Document.particleSections doc))
       else []) /\
    snd <$> Page.systems w' = seq 0 (length (Page.heap w')).
Proof.
  destruct (DOMContentLoaded_total doc now _ (loaded_wf entropy layout))
    as (w' & H & _).
  exists w'. split; [exact H|].
  unfold Events.DOMContentLoaded, builds_systems in *.
  destruct (Document.reducedMotion doc); simpl.
  { injection H as <-. split; reflexivity. }
  apply bind_Some in H as ([] & w1 & H1 & H).
  unfold PerformanceManager.init, PerformanceManager.monitorFrameRate,
    bind, Page.modify, Page.on_host, Env.requestAnimationFrame, ret in H1.
  injection H1 as <-.
  unfold bind, Page.get in H. simpl in H.
  destruct (PerformanceManager.detectPerformance doc true).
  - apply manager_init_registry in H as [Hs Hl]; [|reflexivity].
    simpl in Hs, Hl. rewrite Hs, Hl. split; [reflexivity|].
    rewrite fmap_app, !snd_entries, seq_app. reflexivity.
  - injection H as <-. split; reflexivity.
Qed.
End Registry.

(** ** Classes and shapes *)

Section Shapes.
Local Open Scope R_scope.
Import Invariants.
Import ParticleSystem.

Lemma floor_below (r : R) (n : nat) :
  0 <= r < 1 -> (0 < n)%nat -> (Z.to_nat (JS.floor (r * INR n)) < n)%nat.
Proof.
  intros Hr Hn. unfold JS.floor.
  destruct (base_Int_part (r * INR n)) as [Hle _].
  assert (Hpos : 0 < INR n) by (apply lt_0_INR; exact Hn).
  assert (Hlt : IZR (Int_part (r * INR n)) < IZR (Z.of_nat n)).
  { rewrite <- INR_IZR_INZ. nra. }
  apply lt_IZR in Hlt. lia.
Qed.

Lemma geometric_new_shaped (x y : R) config h g h' :
  fair (Host.entropy h) ->
  GeometricParticle.new x y config h = Some (g, h') ->
  shaped config g.
Proof.
  intros Hfair H. unfold GeometricParticle.new in H.
  destruct (particle_new_spec x y config h) as [p Hp].
  rewrite (bind_step _ _ _ _ _ Hp) in H.
  unfold bind, Env.random, ret in H. injection H as <- _.
  unfold shaped. simpl.
  destruct (Config.shapes config !! _) as [sh|] eqn:E.
  - apply list_elem_of_lookup. eauto.
  - apply lookup_ge_None in E.
    destruct (Config.shapes config) as [|sh l]; [reflexivity|].
    exfalso.
    pose proof (floor_below (Host.entropy h (Host.cursor (Host.advance 7 h)))
                  (length (sh :: l)) (Hfair _)) as Hlt.
    simpl in *. lia.
Qed.

Lemma new_particle_of_class (c : Class) (x y : R) config h q h' :
  fair (Host.entropy h) ->
  new_particle c x y config h = Some (q, h') ->
  of_class c config q.
Proof.
  intros Hfair H. destruct c; simpl in H.
  - apply bind_Some in H as (p & h1 & _ & H). injection H as <- _. exact I.
  - apply bind_Some in H as (g & h1 & Hg & H). injection H as <- _.
    exact (geometric_new_shaped _ _ _ _ _ _ Hfair Hg).
Qed.

Lemma spawn_of_class (n : nat) (c : Class) canvas config h ps h' :
  fair (Host.entropy h) ->
  spawn n (new_particle c) canvas config h = Some (ps, h') ->
  Forall (of_class c config) ps.
Proof.
  revert h ps h'. induction n as [|n IH]; simpl; intros h ps h' Hfair H.
  - injection H as <- _. constructor.
  - unfold bind at 1 in H. unfold Env.random at 1 in H.
    unfold bind at 1 in H. unfold Env.random at 1 in H.
    apply bind_Some in H as (q & h1 & Hq & H).
    apply bind_Some in H as (rest & h2 & Hrest & H).
    injection H as <- _.
    destruct (new_particle_spec c
                (Host.entropy h (Host.cursor h) * Canvas.w canvas)
                (Host.entropy (Host.advance 1 h) (Host.cursor (Host.advance 1 h))
                 * Canvas.h canvas)
                config (Host.advance 1 (Host.advance 1 h))) as (q0 & k & Hq0).
    pose proof Hq as Hq'. rewrite Hq0 in Hq'. injection Hq' as _ <-.
    constructor.
    + refine (new_particle_of_class _ _ _ _ _ _ _ _ Hq). exact Hfair.
    + refine (IH _ _ _ _ Hrest). exact Hfair.
Qed.

Lemma update_of_class (c : Class) (cfg : Config.t) q q' canvas mouse config :
  update q canvas mouse config = Some q' ->
  of_class c cfg q -> of_class c cfg q'.
Proof.
  destruct q as [p|g]; simpl; intros H.
  - destruct (Particle.update p canvas mouse config); [|discriminate].
    injection H as <-. auto.
  - unfold GeometricParticle.update in H.
    destruct (Particle.update (GeometricParticle.base g) canvas mouse config);
      [|discriminate].
    injection H as <-. auto.
Qed.

Lemma update_and_draw_of_class (c : Class) (cfg : Config.t)
    ps canvas mouse config ps' cmds :
  update_and_draw ps canvas mouse config = Some (ps', cmds) ->
  Forall (of_class c cfg) ps -> Forall (of_class c cfg) ps'.
Proof.
  revert ps' cmds. induction ps as [|q ps IH]; simpl; intros ps' cmds H Hall.
  - injection H as <- _. constructor.
  - apply list.Forall_cons in Hall as [Hq Hall].
    destruct (update q canvas mouse config) as [q'|] eqn:Eq;
      [|discriminate].
    simpl in H.
    destruct (update_and_draw ps canvas mouse config) as [[ps1 cmds1]|];
      [|discriminate].
    simpl in H. injection H as <- _. constructor.
    + exact (update_of_class _ _ _ _ _ _ _ Eq Hq).
    + exact (IH _ _ eq_refl Hall).
Qed.

Lemma animate_typed (s s' : t) (h h' : Host.t) :
  animate s h = Some (s', h') -> typed s -> typed s'.
Proof.
  unfold animate. intros H Hs.
  apply bind_Some in H as (r & h1 & H1 & H).
  apply bind_Some in H as (lines & h2 & H2 & H).
  apply bind_Some in H as (id & h3 & H3 & H).
  injection H as <- _.
  unfold lift in H1.
  destruct (update_and_draw _ _ _ _) as [[ps cmds]|] eqn:E; [|discriminate].
  injection H1 as <- _.
  unfold typed. simpl.
  exact (update_and_draw_of_class _ _ _ _ _ _ _ _ E Hs).
Qed.

Lemma createParticles_typed (s s' : t) (h h' : Host.t) :
  fair (Host.entropy h) ->
  createParticles s h = Some (s', h') -> typed s'.
Proof.
  unfold createParticles. intros Hfair H.
  apply bind_Some in H as (ps & h1 & Hps & H). injection H as <- _.
  exact (spawn_of_class _ _ _ _ _ _ _ Hfair Hps).
Qed.

Lemma init_typed (s s' : t) (h h' : Host.t) :
  fair (Host.entropy h) -> init s h = Some (s', h') -> typed s'.
Proof.
  unfold init, createCanvas. intros Hfair H.
  rewrite (bind_step _ _ _ _ _ (resizeCanvas_spec _ h)) in H.
  apply bind_Some in H as (s2 & h2 & H2 & H).
  apply bind_Some in H as (s3 & h3 & H3 & H).
  unfold bindEvents, ret in H3. injection H3 as <- <-.
  apply (animate_typed _ _ _ _ H).
  exact (createParticles_typed _ _ _ _ Hfair H2).
Qed.

Lemma method_typed f : method f -> keeps fair typed f.
Proof.
  intros Hf s h s' h' Hfair Hs H.
  assert (Hp : forall s1 h1, pause s h = Some (s1, h1) -> typed s1).
  { intros s1 h1 Hp. rewrite pause_spec in Hp.
    destruct (animationId s); injection Hp as <- _; exact Hs. }
  assert (Hr : forall s1 h1, resume s h = Some (s1, h1) -> typed s1).
  { intros s1 h1 Hr. destruct (animationId s) as [id|] eqn:E.
    - rewrite (resume_running s h id E) in Hr. injection Hr as <- _. exact Hs.
    - rewrite (resume_paused s h E) in Hr.
      exact (animate_typed _ _ _ _ Hr Hs). }
  destruct Hf.
  - exact (animate_typed _ _ _ _ H Hs).
  - exact (Hp s' h' H).
  - exact (Hr s' h' H).
  - rewrite destroy_spec in H.
    destruct (animationId s); injection H as <- _; exact Hs.
  - unfold on_resize in H.
    rewrite (bind_step _ _ _ _ _ (resizeCanvas_spec s h)) in H.
    exact (createParticles_typed _ _ _ _ Hfair H).
  - destruct hidden; [exact (Hp s' h' H)|exact (Hr s' h' H)].
  - exact (createParticles_typed _ _ _ _ Hfair H).
  - unfold Events.pointer_moved in H.
    destruct (Events.hears target s); injection H as <- _; exact Hs.
  - unfold Events.pointer_left in H.
    destruct (Events.hears target s); injection H as <- _; exact Hs.
Qed.

(** X10. With [Math.random] in [[0, 1)], on every page the events lead
    to, a plain system holds plain particles only and a geometric system
    geometric particles only, and the shape of a geometric particle is
    one of the shapes of the system's configuration; it is [undefined]
    only where the configuration lists no shape. *)
Theorem particle_classes_match_the_system
    (w : Page.t) (i : nat) (s : t) (q : particle) :
  Events.reachable w ->
  fair (Host.entropy (Page.host w)) ->
  Page.heap w !! i = Some s ->
  q ∈ particles s ->
  match class s, q with
  | Plain, plain _ => True
  | Geometric, geometric g =>
      match GeometricParticle.shape g with
      | Some sh => sh ∈ Config.shapes (config s)
      | None => Config.shapes (config s) = []
      end
  | _, _ => False
  end.
Proof.
  intros Hr Hfair Hs Hq.
  pose proof (reachable_keeps fair typed
                (fun c self container config h s' h' Hf =>
                   init_typed _ s' h h' Hf)
                method_typed w Hr Hfair) as Hall.
  rewrite list.Forall_forall in Hall.
  assert (Hc : typed s).
  { apply Hall. apply list_elem_of_lookup. eauto. }
  unfold typed in Hc. rewrite list.Forall_forall in Hc.
  exact (Hc q Hq).
Qed.

Lemma particle_classes_match_the_system_witness :
  match class SampleRun.lone_system, plain SampleRun.moved with
  | Plain, plain _ => True
  | Geometric, geometric g =>
      match GeometricParticle.shape g with
      | Some sh => sh ∈ Config.shapes (config SampleRun.lone_system)
      | None => Config.shapes (config SampleRun.lone_system) = []
      end
  | _, _ => False
  end.
Proof.
  exact (particle_classes_match_the_system SampleRun.lone 0
           SampleRun.lone_system (plain SampleRun.moved)
           lone_reachable zero_fair eq_refl (list_elem_of_here _ _)).
Defined.
End Shapes.

(** ** Connections *)

Section Connections.
Local Open Scope R_scope.
Import Invariants.
Import ParticleSystem.

Lemma count_cmd_app f (l1 l2 : list Ctx.cmd) :
  count_cmd f (l1 ++ l2) = (count_cmd f l1 + count_cmd f l2)%nat.
Proof. unfold count_cmd. rewrite List.filter_app, length_app. reflexivity. Qed.

Lemma filter_map_length {A B} (P : B -> bool) (g : A -> B) (l : list A) :
  length (List.filter P (List.map g l))
  = length (List.filter (fun a => P (g a)) l).
Proof.
  induction l as [|a l IH]; simpl; [reflexivity|].
  destruct (P (g a)); simpl; rewrite IH; reflexivity.
Qed.

Lemma close_sym config (a b : Particle.t) :
  close config a b = close config b a.
Proof.
  unfold close, distance. do 2 f_equal. ring.
Qed.

Lemma connect_strokes config (a b : Particle.t) :
  exists cmds,
    connect config a b = Some cmds /\
    count_cmd is_stroke cmds = (if close config a b then 1 else 0)%nat /\
    count_cmd is_fill cmds = 0%nat.
Proof.
  unfold close, distance. destruct (JS.lt _ _) eqn:E.
  - apply lt_true in E. eexists.
    split; [apply connect_below; exact E|split; reflexivity].
  - apply lt_false in E. exists [].
    split; [apply connect_beyond; exact E|split; reflexivity].
Qed.

Lemma connect_from_strokes config (a : Particle.t) later :
  exists cmds,
    connect_from config a later = Some cmds /\
    count_cmd is_stroke cmds
    = length (List.filter (fun b => close config a (body b)) later) /\
    count_cmd is_fill cmds = 0%nat.
Proof.
  induction later as [|b later (cs & IH & Hs & Hf)]; simpl.
  - exists []. repeat split.
  - destruct (connect_strokes config a (body b)) as (c & -> & Hc & Hcf).
    rewrite IH. simpl. eexists. split; [reflexivity|].
    rewrite !count_cmd_app, Hc, Hs, Hcf, Hf.
    destruct (close config a (body b)); split; reflexivity.
Qed.

(** X11. [drawConnections] always returns; it strokes one line for each
    unordered pair of particles closer than the connection distance,
    and fills nothing.  Whether a pair is close does not depend on its
    order. *)
Theorem one_line_per_close_pair (config : Config.t) (ps : list particle) :
  exists cmds,
    drawConnections config ps = Some cmds /\
    count_cmd is_stroke cmds
    = length (List.filter
                (fun e => close config (body (fst e)) (body (snd e)))
                (pairs ps)) /\
    count_cmd is_fill cmds = 0%nat /\
    forall a b, close config a b = close config b a.
Proof.
  assert (H : exists cmds,
             drawConnections config ps = Some cmds /\
             count_cmd is_stroke cmds
             = length (List.filter
                         (fun e => close config (body (fst e)) (body (snd e)))
                         (pairs ps)) /\
             count_cmd is_fill cmds = 0%nat).
  { induction ps as [|a later (cs & IH & Hs & Hf)]; simpl.
    - exists []. repeat split.
    - destruct (connect_from_strokes config (body a) later)
        as (c & -> & Hc & Hcf).
      rewrite IH. simpl. eexists. split; [reflexivity|].
      rewrite !count_cmd_app, Hc, Hs, Hcf, Hf.
      rewrite List.filter_app, length_app, filter_map_length.
      split; reflexivity. }
  destruct H as (cmds & H & Hs & Hf).
  exists cmds. repeat split; try assumption. apply close_sym.
Qed.
End Connections.

(** ** What a frame draws *)

Section Inventory.
Local Open Scope R_scope.
Import Invariants.
Import ParticleSystem.

Lemma shape_cases {A} (sh : string) (t s h d : A) :
  match sh with
  | "triangle"%string => t
  | "square"%string => s
  | "hexagon"%string => h
  | _ => d
  end
  = (if String.eqb sh "triangle" then t
     else if String.eqb sh "square" then s
     else if String.eqb sh "hexagon" then h else d).
Proof.
  repeat (destruct sh as [|[[] [] [] [] [] [] [] []] sh]; try reflexivity).
Qed.

Lemma draw_inventory (q : particle) (config : Config.t) :
  count_cmd is_fill (draw q config) = fills q /\
  count_cmd is_save (draw q config) = saves q /\
  count_cmd is_restore (draw q config) = saves q /\
  count_cmd is_stroke (draw q config) = outlines q.
Proof.
  destruct q as [p|g]; simpl; [repeat split|].
  unfold GeometricParticle.draw.
  destruct (GeometricParticle.shape g) as [sh|]; [|repeat split].
  rewrite !shape_cases.
  destruct (String.eqb sh "triangle"); [repeat split|].
  destruct (String.eqb sh "square"); [repeat split|].
  destruct (String.eqb sh "hexagon"); repeat split.
Qed.

Lemma update_and_draw_inventory ps canvas mouse config ps' cmds :
  update_and_draw ps canvas mouse config = Some (ps', cmds) ->
  count_cmd is_fill cmds = sum_list_with fills ps' /\
  count_cmd is_save cmds = sum_list_with saves ps' /\
  count_cmd is_restore cmds = sum_list_with saves ps' /\
  count_cmd is_stroke cmds = sum_list_with outlines ps'.
Proof.
  revert ps' cmds. induction ps as [|q ps IH]; simpl; intros ps' cmds H.
  - injection H as <- <-. repeat split.
  - destruct (update q canvas mouse config) as [q'|]; [|discriminate].
    simpl in H.
    destruct (update_and_draw ps canvas mouse config) as [[ps1 cmds1]|];
      [|discriminate].
    simpl in H. injection H as <- <-.
    destruct (IH _ _ eq_refl) as (Hf & Hs & Hr & Hk).
    destruct (draw_inventory q' config) as (Hf' & Hs' & Hr' & Hk').
    rewrite !count_cmd_app, Hf, Hs, Hr, Hk, Hf', Hs', Hr', Hk'.
    repeat split.
Qed.

Lemma connect_plain config (a b : Particle.t) cmds :
  connect config a b = Some cmds ->
  count_cmd is_save cmds = 0%nat /\ count_cmd is_restore cmds = 0%nat.
Proof.
  unfold connect. destruct (JS.lt _ _); [|intros [= <-]; split; reflexivity].
  destruct (JS.div _ _); simpl; [|discriminate].
  intros [= <-]. split; reflexivity.
Qed.

Lemma connect_from_plain config (a : Particle.t) later cmds :
  connect_from config a later = Some cmds ->
  count_cmd is_save cmds = 0%nat /\ count_cmd is_restore cmds = 0%nat.
Proof.
  revert cmds. induction later as [|b later IH]; simpl; intros cmds H.
  - injection H as <-. split; reflexivity.
  - destruct (connect config a (body b)) as [c|] eqn:Ec; [|discriminate].
    simpl in H.
    destruct (connect_from config a later) as [cs|]; [|discriminate].
    simpl in H. injection H as <-.
    destruct (connect_plain _ _ _ _ Ec) as [H1 H2].
    destruct (IH _ eq_refl) as [H3 H4].
    rewrite !count_cmd_app, H1, H2, H3, H4. split; reflexivity.
Qed.

Lemma drawConnections_plain config ps cmds :
  drawConnections config ps = Some cmds ->
  count_cmd is_save cmds = 0%nat /\ count_cmd is_restore cmds = 0%nat.
Proof.
  revert cmds. induction ps as [|a later IH]; simpl; intros cmds H.
  - injection H as <-. split; reflexivity.
  - destruct (connect_from config (body a) later) as [c|] eqn:Ec;
      [|discriminate].
    simpl in H.
    destruct (drawConnections config later) as [cs|]; [|discriminate].
    simpl in H. injection H as <-.
    destruct (connect_from_plain _ _ _ _ Ec) as [H1 H2].
    destruct (IH _ eq_refl) as [H3 H4].
    rewrite !count_cmd_app, H1, H2, H3, H4. split; reflexivity.
Qed.

Lemma drawConnections_strokes config ps cmds :
  drawConnections config ps = Some cmds ->
  count_cmd is_stroke cmds
  = length (List.filter
              (fun e => close config (body (fst e)) (body (snd e)))
              (pairs ps)) /\
  count_cmd is_fill cmds = 0%nat.
Proof.
  revert cmds. induction ps as [|a later IH]; simpl; intros cmds H.
  - injection H as <-. split; reflexivity.
  - destruct (connect_from_strokes config (body a) later)
      as (c & Ec & Hc & Hcf).
    rewrite Ec in H. simpl in H.
    destruct (drawConnections config later) as [cs|]; [|discriminate].
    simpl in H. injection H as <-.
    destruct (IH _ eq_refl) as [Hs Hf].
    rewrite !count_cmd_app, Hc, Hs, Hcf, Hf.
    rewrite List.filter_app, length_app, filter_map_length.
    split; reflexivity.
Qed.

(** X12. What a frame leaves on the canvas: two fills for each plain
    particle; one saved and one restored context state for each
    geometric particle; one stroke for each geometric particle whose
    shape is [triangle], [square] or [hexagon], and one for each pair of
    particles closer than the connection distance.  Nothing else is
    filled, stroked, saved or restored. *)
Theorem frame_inventory (s s' : t) (h h' : Host.t) :
  animate s h = Some (s', h') ->
  let cmds := Canvas.painted (canvas s') in
  count_cmd is_fill cmds = sum_list_with fills (particles s') /\
  count_cmd is_save cmds = sum_list_with saves (particles s') /\
  count_cmd is_restore cmds = sum_list_with saves (particles s') /\
  count_cmd is_stroke cmds
  = (sum_list_with outlines (particles s')
     + length (List.filter
                 (fun e => close (config s') (body (fst e)) (body (snd e)))
                 (pairs (particles s'))))%nat.
Proof.
  unfold animate. intros H.
  apply bind_Some in H as (r & h1 & H1 & H).
  apply bind_Some in H as (lines & h2 & H2 & H).
  apply bind_Some in H as (id & h3 & H3 & H).
  injection H as <- _.
  unfold lift in H1, H2.
  destruct (update_and_draw _ _ _ _) as [[ps cmds]|] eqn:E; [|discriminate].
  injection H1 as <- _. simpl in *.
  destruct (drawConnections (config s) ps) as [l|] eqn:El; [|discriminate].
  injection H2 as <- _.
  destruct (update_and_draw_inventory _ _ _ _ _ _ E) as (Hf & Hs & Hr & Hk).
  destruct (drawConnections_plain _ _ _ El) as [Ls Lr].
  destruct (drawConnections_strokes _ _ _ El) as [Lk Lf].
  rewrite !count_cmd_app, Hf, Hs, Hr, Hk, Ls, Lr, Lk, Lf.
  repeat split; lia.
Qed.

Lemma frame_inventory_witness :
  let cmds := Canvas.painted (canvas SampleRun.lone_system) in
  count_cmd is_fill cmds
  = sum_list_with fills (particles SampleRun.lone_system) /\
  count_cmd is_save cmds
  = sum_list_with saves (particles SampleRun.lone_system) /\
  count_cmd is_restore cmds
  = sum_list_with saves (particles SampleRun.lone_system) /\
  count_cmd is_stroke cmds
  = (sum_list_with outlines (particles SampleRun.lone_system)
     + length (List.filter
                 (fun e => close (config SampleRun.lone_system)
                                 (body (fst e)) (body (snd e)))
                 (pairs (particles SampleRun.lone_system))))%nat.
Proof.
  exact (frame_inventory SampleRun.lone_born_system SampleRun.lone_system
           (Host.mk (fun _ => 0) 9 (fun _ => Rect.mk 0 0 960 540) 1 [])
           (Page.host SampleRun.lone) eq_refl).
Defined.
End Inventory.

(** ** The look of a particle *)

Section Look.
Local Open Scope R_scope.
Import Invariants.
Import ParticleSystem.

(** A property of particles that the constructors establish and
    [update] keeps holds of every particle of every page. *)
Lemma particlewise (T : particle -> Prop) :
  (forall c x y config h q h',
      fair (Host.entropy h) ->
      new_particle c x y config h = Some (q, h') -> T q) ->
  (forall q canvas mouse config q',
      update q canvas mouse config = Some q' -> T q -> T q') ->
  forall w, Events.reachable w -> fair (Host.entropy (Page.host w)) ->
            Forall (fun s => Forall T (particles s)) (Page.heap w).
Proof.
  intros Hnew Hupd.
  assert (Hspawn : forall n c canvas config h ps h',
             fair (Host.entropy h) ->
             spawn n (new_particle c) canvas config h = Some (ps, h') ->
             Forall T ps).
  { induction n as [|n IH]; simpl; intros c canvas config h ps h' Hfair H.
    - injection H as <- _. constructor.
    - unfold bind at 1 in H. unfold Env.random at 1 in H.
      unfold bind at 1 in H. unfold Env.random at 1 in H.
      apply bind_Some in H as (q & h1 & Hq & H).
      apply bind_Some in H as (rest & h2 & Hrest & H).
      injection H as <- _.
      destruct (new_particle_spec c
                  (Host.entropy h (Host.cursor h) * Canvas.w canvas)
                  (Host.entropy (Host.advance 1 h)
                                (Host.cursor (Host.advance 1 h))
                   * Canvas.h canvas)
                  config (Host.advance 1 (Host.advance 1 h)))
        as (q0 & k & Hq0).
      pose proof Hq as Hq'. rewrite Hq0 in Hq'. injection Hq' as _ <-.
      constructor.
      + refine (Hnew _ _ _ _ _ _ _ _ Hq). exact Hfair.
      + refine (IH _ _ _ _ _ _ _ Hrest). exact Hfair. }
  assert (Hframe : forall ps canvas mouse config ps' cmds,
             update_and_draw ps canvas mouse config = Some (ps', cmds) ->
             Forall T ps -> Forall T ps').
  { induction ps as [|q ps IH]; simpl; intros canvas mouse config ps' cmds H Hall.
    - injection H as <- _. constructor.
    - apply list.Forall_cons in Hall as [Hq Hall].
      destruct (update q canvas mouse config) as [q'|] eqn:Eq;
        [|discriminate].
      simpl in H.
      destruct (update_and_draw ps canvas mouse config) as [[ps1 cmds1]|] eqn:E;
        [|discriminate].
      simpl in H. injection H as <- _. constructor.
      + exact (Hupd _ _ _ _ _ Eq Hq).
      + exact (IH _ _ _ _ _ E Hall). }
  assert (Hanimate : forall s h s' h',
             animate s h = Some (s', h') ->
             Forall T (particles s) -> Forall T (particles s')).
  { unfold animate. intros s h s' h' H Hs.
    apply bind_Some in H as (r & h1 & H1 & H).
    apply bind_Some in H as (lines & h2 & H2 & H).
    apply bind_Some in H as (id & h3 & H3 & H).
    injection H as <- _.
    unfold lift in H1.
    destruct (update_and_draw _ _ _ _) as [[ps cmds]|] eqn:E; [|discriminate].
    injection H1 as <- _. simpl.
    exact (Hframe _ _ _ _ _ _ E Hs). }
  assert (Hcreate : forall s h s' h',
             fair (Host.entropy h) ->
             createParticles s h = Some (s', h') -> Forall T (particles s')).
  { unfold createParticles. intros s h s' h' Hfair H.
    apply bind_Some in H as (ps & h1 & Hps & H). injection H as <- _.
    exact (Hspawn _ _ _ _ _ _ _ Hfair Hps). }
  apply (reachable_keeps fair (fun s => Forall T (particles s))).
  - intros c self container config h s' h' Hfair H.
    unfold init, createCanvas in H.
    rewrite (bind_step _ _ _ _ _ (resizeCanvas_spec _ h)) in H.
    apply bind_Some in H as (s2 & h2 & H2 & H).
    apply bind_Some in H as (s3 & h3 & H3 & H).
    unfold bindEvents, ret in H3. injection H3 as <- <-.
    apply (Hanimate _ _ _ _ H).
    exact (Hcreate _ _ _ _ Hfair H2).
  - intros f Hf s h s' h' Hfair Hs H.
    assert (Hp : forall s1 h1, pause s h = Some (s1, h1) ->
                               Forall T (particles s1)).
    { intros s1 h1 Hp. rewrite pause_spec in Hp.
      destruct (animationId s); injection Hp as <- _; exact Hs. }
    assert (Hr : forall s1 h1, resume s h = Some (s1, h1) ->
                               Forall T (particles s1)).
    { intros s1 h1 Hr. destruct (animationId s) as [id|] eqn:E.
      - rewrite (resume_running s h id E) in Hr. injection Hr as <- _.
        exact Hs.
      - rewrite (resume_paused s h E) in Hr.
        exact (Hanimate _ _ _ _ Hr Hs). }
    destruct Hf.
    + exact (Hanimate _ _ _ _ H Hs).
    + exact (Hp s' h' H).
    + exact (Hr s' h' H).
    + rewrite destroy_spec in H.
      destruct (animationId s); injection H as <- _; exact Hs.
    + unfold on_resize in H.
      rewrite (bind_step _ _ _ _ _ (resizeCanvas_spec s h)) in H.
      exact (Hcreate _ _ _ _ Hfair H).
    + destruct hidden; [exact (Hp s' h' H)|exact (Hr s' h' H)].
    + exact (Hcreate _ _ _ _ Hfair H).
    + unfold Events.pointer_moved in H.
      destruct (Events.hears target s); injection H as <- _; exact Hs.
    + unfold Events.pointer_left in H.
      destruct (Events.hears target s); injection H as <- _; exact Hs.
Qed.

Lemma particle_new_vital (x y : R) config h p h' :
  fair (Host.entropy h) ->
  Particle.new x y config h = Some (p, h') ->
  vital (plain p).
Proof.
  intros Hfair H. unfold Particle.new, bind, Env.random, ret in H.
  injection H as <- _. unfold vital. simpl.
  repeat match goal with
         | |- context [Host.entropy h ?n] =>
             let H := fresh "Hr" in
             pose proof (Hfair n) as H;
             generalize dependent (Host.entropy h n); intros
         end.
  lra.
Qed.

Lemma update_vital q canvas mouse config q' :
  update q canvas mouse config = Some q' -> vital q -> vital q'.
Proof.
  destruct q as [p|g]; simpl; intros H.
  - unfold Particle.update in H.
    destruct (Particle.repel _ _ _ _ _ _); [|discriminate].
    injection H as <-. auto.
  - unfold GeometricParticle.update, Particle.update in H.
    destruct (Particle.repel _ _ _ _ _ _); [|discriminate].
    injection H as <-. auto.
Qed.

Lemma new_particle_vital (c : Class) (x y : R) config h q h' :
  fair (Host.entropy h) ->
  new_particle c x y config h = Some (q, h') -> vital q.
Proof.
  intros Hfair H. destruct c; simpl in H.
  - apply bind_Some in H as (p & h1 & Hp & H). injection H as <- _.
    exact (particle_new_vital _ _ _ _ _ _ Hfair Hp).
  - apply bind_Some in H as (g & h1 & Hg & H). injection H as <- _.
    unfold GeometricParticle.new in Hg.
    apply bind_Some in Hg as (p & h2 & Hp & Hg).
    unfold bind, Env.random, ret in Hg. injection Hg as <- _.
    exact (particle_new_vital _ _ _ _ _ _ Hfair Hp).
Qed.

(** X13. With [Math.random] in [[0, 1)], on every page the events lead
    to, every particle has an opacity between 0.5 and 1, an amplitude
    between 10 and 30 and a frequency between 0.01 and 0.03, bounds
    included: the constructor draws them from these ranges and no frame
    changes them. *)
Theorem particles_keep_their_look
    (w : Page.t) (i : nat) (s : t) (q : particle) :
  Events.reachable w ->
  fair (Host.entropy (Page.host w)) ->
  Page.heap w !! i = Some s ->
  q ∈ particles s ->
  0.5 <= Particle.opacity (body q) <= 1 /\
  10 <= Particle.amplitude (body q) <= 30 /\
  0.01 <= Particle.frequency (body q) <= 0.03.
Proof.
  intros Hr Hfair Hs Hq.
  pose proof (particlewise vital new_particle_vital update_vital w Hr Hfair)
    as Hall.
  rewrite list.Forall_forall in Hall.
  assert (Hc : Forall vital (particles s)).
  { apply Hall. apply list_elem_of_lookup. eauto. }
  rewrite list.Forall_forall in Hc.
  exact (Hc q Hq).
Qed.

Lemma particles_keep_their_look_witness :
  0.5 <= Particle.opacity SampleRun.moved <= 1 /\
  10 <= Particle.amplitude SampleRun.moved <= 30 /\
  0.01 <= Particle.frequency SampleRun.moved <= 0.03.
Proof.
  exact (particles_keep_their_look SampleRun.lone 0 SampleRun.lone_system
           (plain SampleRun.moved) lone_reachable zero_fair eq_refl
           (list_elem_of_here _ _)).
Defined.
End Look.

(** ** The frame-rate monitor *)

Section Monitor.
Import Frames Invariants.
Import ParticleSystem.

Lemma monitors_app q1 q2 :
  monitors (q1 ++ q2) = (monitors q1 + monitors q2)%nat.
Proof. unfold monitors. rewrite List.filter_app, length_app. reflexivity. Qed.

(** Cancelling the handle of an [animate] request removes no monitor
    request. *)
Lemma cancel_monitors q id i :
  NoDup (fst <$> q) ->
  (id, Animate i) ∈ q ->
  monitors (List.filter (fun e => negb (Pos.eqb (fst e) id)) q) = monitors q.
Proof.
  intros Hnd Hin.
  assert (Hcb : forall cb, (id, cb) ∈ q -> cb = Animate i).
  { intros cb Hcb. exact (handle_unique q id _ _ Hnd Hcb Hin). }
  clear Hnd Hin. induction q as [|[id' cb] q IH]; [reflexivity|].
  assert (IH' : monitors (List.filter (fun e => negb (Pos.eqb (fst e) id)) q)
                = monitors q).
  { apply IH. intros cb' Hcb'. apply Hcb. apply elem_of_cons. auto. }
  simpl. destruct (Pos.eqb_spec id' id) as [->|Hne]; simpl.
  - rewrite (Hcb cb) by (apply elem_of_cons; auto).
    unfold monitors in *. simpl. exact IH'.
  - unfold monitors in *. simpl. destruct (is_check (id', cb)); simpl; auto.
Qed.

Lemma gentle_animate : gentle animate.
Proof.
  intros s h s' h' H.
  destruct (animate_spec s h) as (ps & cmds & E & _).
  rewrite E in H. injection H as _ <-. simpl.
  rewrite monitors_app. unfold monitors. simpl. lia.
Qed.

Lemma gentle_resume : gentle resume.
Proof.
  intros s h s' h' H. destruct (animationId s) as [id|] eqn:E.
  - rewrite (resume_running s h id E) in H. injection H as _ <-. reflexivity.
  - rewrite (resume_paused s h E) in H. exact (gentle_animate _ _ _ _ H).
Qed.

Lemma gentle_quiet f : quiet f -> gentle f.
Proof.
  intros Hq s h s' h' H. destruct (Hq s h) as (s1 & k & E & _).
  rewrite E in H. injection H as _ <-. reflexivity.
Qed.

Lemma gentle_init s0 : gentle (fun _ : t => init s0).
Proof.
  intros s h s' h' H.
  destruct (init_spec s0 h) as (ps & cmds & k & E & _).
  rewrite E in H. injection H as _ <-. simpl.
  rewrite monitors_app. unfold monitors. simpl. lia.
Qed.

Lemma calm_ret {A} (a : A) : calm (ret a).
Proof. intros w a' w' [= _ <-]. reflexivity. Qed.

Lemma calm_bind {A B} (m : M Page.t A) (k : A -> M Page.t B) :
  calm m -> (forall a, calm (k a)) -> calm (bind m k).
Proof.
  intros Hm Hk w b w' H. apply bind_Some in H as (a & w1 & H1 & H2).
  rewrite (Hk a _ _ _ H2). exact (Hm _ _ _ H1).
Qed.

Lemma calm_at i f : gentle f -> calm (Page.at_ i f).
Proof.
  intros Hf w a w' H. unfold Page.at_ in H.
  destruct (Page.heap w !! i) as [s|]; [|discriminate].
  destruct (f s (Page.host w)) as [[s' h]|] eqn:E; [|discriminate].
  injection H as _ <-. simpl. exact (Hf _ _ _ _ E).
Qed.

Lemma calm_for_each {A} (l : list A) (f : A -> M Page.t unit) :
  (forall a, calm (f a)) -> calm (Page.for_each l f).
Proof.
  intros Hf. induction l as [|a l IH]; simpl.
  - apply calm_ret.
  - apply calm_bind; [apply Hf|intros _; exact IH].
Qed.

Lemma calm_every f : gentle f -> calm (Page.every f).
Proof.
  intros Hf w a w' H. unfold Page.every, bind, Page.get in H.
  exact (calm_for_each _ _ (fun i => calm_at i f Hf) _ _ _ H).
Qed.

Lemma calm_forEach f : gentle f -> calm (ParticleManager.forEach f).
Proof.
  intros Hf w a w' H. unfold ParticleManager.forEach, bind, Page.get in H.
  exact (calm_for_each _ _ (fun e => calm_at (snd e) f Hf) _ _ _ H).
Qed.

Lemma calm_alloc s0 : calm (Page.alloc (fun self => init (s0 self))).
Proof.
  intros w a w' H. unfold Page.alloc in H.
  destruct (init (s0 (length (Page.heap w))) (Page.host w))
    as [[s h]|] eqn:E; [|discriminate].
  injection H as _ <-. simpl.
  exact (gentle_init _ (s0 0%nat) _ _ _ E).
Qed.

(** The monitor's callback leaves one request more than it finds. *)
Lemma checkFrameRate_monitors now w w' :
  PerformanceManager.checkFrameRate now w = Some (tt, w') ->
  monitors (Host.rafQueue (Page.host w'))
  = S (monitors (Host.rafQueue (Page.host w))).
Proof.
  unfold PerformanceManager.checkFrameRate. intros H.
  apply bind_Some in H as ([] & w1 & H1 & H).
  unfold Page.modify in H1. injection H1 as <-.
  apply bind_Some in H as (w1 & w2 & H2 & H).
  unfold Page.get in H2. injection H2 as <- <-.
  apply bind_Some in H as ([] & w3 & H3 & H).
  apply bind_Some in H as (id & w4 & H4 & H).
  injection H as <-.
  unfold Page.on_host, Env.requestAnimationFrame in H4.
  injection H4 as _ <-. simpl.
  rewrite monitors_app. unfold monitors at 2. simpl.
  assert (Hmid : monitors (Host.rafQueue (Page.host w3))
                 = monitors (Host.rafQueue (Page.host w))).
  { destruct (JS.ge _ 1000); [|injection H3 as <-; reflexivity].
    apply bind_Some in H3 as ([] & w5 & H5 & H3).
    unfold Page.modify in H5. injection H5 as <-.
    destruct (_ && _); [|injection H3 as <-; reflexivity].
    apply bind_Some in H3 as ([] & w6 & H6 & H3).
    unfold Page.modify in H6. injection H6 as <-.
    apply (calm_forEach _ (gentle_quiet _ quiet_shrink)) in H3.
    exact H3. }
  rewrite Hmid. lia.
Qed.

(** A frame runs the monitor once for each of its pending requests. *)
Lemma callbacks_monitors now (l : list (positive * Callback)) w w' :
  Page.for_each l (fun e => Events.run_callback now (snd e)) w
  = Some (tt, w') ->
  monitors (Host.rafQueue (Page.host w'))
  = (monitors (Host.rafQueue (Page.host w)) + monitors l)%nat.
Proof.
  revert w. induction l as [|[id cb] l IH]; simpl; intros w H.
  - injection H as <-. unfold monitors at 3. simpl. lia.
  - apply bind_Some in H as ([] & w1 & H1 & H).
    rewrite (IH _ H). destruct cb as [i|]; simpl in H1.
    + rewrite (calm_at i animate gentle_animate _ _ _ H1).
      unfold monitors at 4. simpl. reflexivity.
    + rewrite (checkFrameRate_monitors _ _ _ H1).
      unfold monitors at 4. simpl. fold (monitors l). lia.
Qed.

Lemma pause_monitors w i s s' h' :
  wf w ->
  Page.heap w !! i = Some s ->
  pause s (Page.host w) = Some (s', h') ->
  monitors (Host.rafQueue h') = monitors (Host.rafQueue (Page.host w)).
Proof.
  intros Hw Hs H. rewrite pause_spec in H.
  destruct (animationId s) as [id|] eqn:E; injection H as _ <-;
    [|reflexivity].
  simpl. apply (cancel_monitors _ id i); [apply (acc_nodup _ _ Hw)|].
  apply outstanding_elem.
  rewrite (pending_of_tracked w i s Hw Hs), E. apply list_elem_of_here.
Qed.

Lemma destroy_monitors w i s s' h' :
  wf w ->
  Page.heap w !! i = Some s ->
  destroy s (Page.host w) = Some (s', h') ->
  monitors (Host.rafQueue h') = monitors (Host.rafQueue (Page.host w)).
Proof.
  intros Hw Hs H. rewrite destroy_spec in H.
  destruct (animationId s) as [id|] eqn:E; injection H as _ <-;
    [|reflexivity].
  simpl. apply (cancel_monitors _ id i); [apply (acc_nodup _ _ Hw)|].
  apply outstanding_elem.
  rewrite (pending_of_tracked w i s Hw Hs), E. apply list_elem_of_here.
Qed.

Lemma at_pause_monitored n w i :
  monitored n w ->
  (i < length (Page.heap w))%nat ->
  exists w',
    Page.at_ i pause w = Some (tt, w') /\
    monitored n w' /\ same_shape w w'.
Proof.
  intros [Hw Hn] Hi.
  destruct (at_pause w i Hw Hi) as (w' & H & Hw' & Hsh).
  exists w'. split; [exact H|]. split; [|exact Hsh].
  split; [exact Hw'|].
  apply at_frame in H as (s & s' & Hs & Hf & _).
  rewrite (pause_monitors w i s s' _ Hw Hs Hf). exact Hn.
Qed.

Lemma at_destroy_monitored n w i :
  monitored n w ->
  (i < length (Page.heap w))%nat ->
  exists w',
    Page.at_ i destroy w = Some (tt, w') /\
    monitored n w' /\ same_shape w w'.
Proof.
  intros [Hw Hn] Hi.
  destruct (at_destroy w i Hw Hi) as (w' & H & Hw' & Hsh).
  exists w'. split; [exact H|]. split; [|exact Hsh].
  split; [exact Hw'|].
  apply at_frame in H as (s & s' & Hs & Hf & _).
  rewrite (destroy_monitors w i s s' _ Hw Hs Hf). exact Hn.
Qed.

Lemma pauseAll_monitors w w' :
  wf w ->
  ParticleManager.pauseAll w = Some (tt, w') ->
  wf w' /\
  monitors (Host.rafQueue (Page.host w'))
  = monitors (Host.rafQueue (Page.host w)).
Proof.
  intros Hw H.
  destruct (forEach_total (monitored (monitors (Host.rafQueue (Page.host w))))
              pause w)
    as (w1 & H1 & [Hw1 Hn1] & _);
    [apply at_pause_monitored|apply Hw|split; [exact Hw|reflexivity]|].
  unfold ParticleManager.pauseAll in H. rewrite H1 in H.
  injection H as <-. auto.
Qed.

Lemma every_pause_monitors w w' :
  wf w ->
  Page.every pause w = Some (tt, w') ->
  monitors (Host.rafQueue (Page.host w'))
  = monitors (Host.rafQueue (Page.host w)).
Proof.
  intros Hw H.
  destruct (every_total (monitored (monitors (Host.rafQueue (Page.host w))))
              pause w)
    as (w1 & H1 & [Hw1 Hn1] & _);
    [apply at_pause_monitored|split; [exact Hw|reflexivity]|].
  rewrite H1 in H. injection H as <-. exact Hn1.
Qed.

Lemma destroyAll_monitors w w' :
  wf w ->
  ParticleManager.destroyAll w = Some (tt, w') ->
  monitors (Host.rafQueue (Page.host w'))
  = monitors (Host.rafQueue (Page.host w)).
Proof.
  intros Hw H. unfold ParticleManager.destroyAll in H.
  destruct (forEach_total (monitored (monitors (Host.rafQueue (Page.host w))))
              destroy w)
    as (w1 & H1 & [Hw1 Hn1] & _);
    [apply at_destroy_monitored|apply Hw|split; [exact Hw|reflexivity]|].
  rewrite (bind_step _ _ _ _ _ H1) in H.
  unfold Page.modify in H. injection H as <-. exact Hn1.
Qed.

(** No event starts or stops the monitor. *)
Lemma step_monitors (e : Events.event) w w' :
  wf w ->
  Events.step e w = Some (tt, w') ->
  monitors (Host.rafQueue (Page.host w'))
  = monitors (Host.rafQueue (Page.host w)).
Proof.
  intros Hw H. destruct e; simpl in H.
  - unfold Events.run_frame in H.
    apply bind_Some in H as (w0 & w1 & H0 & H).
    unfold Page.get in H0. injection H0 as <- <-.
    apply bind_Some in H as ([] & w1 & H1 & H).
    unfold Page.modify in H1. injection H1 as <-.
    rewrite (callbacks_monitors _ _ _ _ H). reflexivity.
  - apply bind_Some in H as ([] & w1 & H1 & H).
    unfold Page.modify in H1. injection H1 as <-.
    exact (calm_every _ (gentle_quiet _ quiet_on_resize) _ _ _ H).
  - apply bind_Some in H as ([] & w1 & H1 & H). destruct hidden.
    + destruct (pauseAll_monitors _ _ Hw H1) as [Hw1 Hn1].
      rewrite <- Hn1. exact (every_pause_monitors _ _ Hw1 H).
    + rewrite (calm_every _ gentle_resume _ _ _ H).
      exact (calm_forEach _ gentle_resume _ _ _ H1).
  - exact (calm_every _ (gentle_quiet _ (quiet_pointer_moved _ _ _)) _ _ _ H).
  - exact (calm_every _ (gentle_quiet _ (quiet_pointer_left _)) _ _ _ H).
  - exact (destroyAll_monitors _ _ Hw H).
  - apply bind_Some in H as (a & w1 & H1 & H). injection H as <-.
    unfold new in H1. exact (calm_alloc _ _ _ _ H1).
  - destruct (at_pause_monitored _ w system (conj Hw eq_refl))
      as (w1 & H1 & [_ Hn1] & _).
    { unfold Page.at_ in H.
      destruct (Page.heap w !! system) eqn:E; [|discriminate].
      apply lookup_lt_is_Some. eauto. }
    rewrite H1 in H. injection H as <-. exact Hn1.
  - exact (calm_at _ _ gentle_resume _ _ _ H).
  - destruct (at_destroy_monitored _ w system (conj Hw eq_refl))
      as (w1 & H1 & [_ Hn1] & _).
    { unfold Page.at_ in H.
      destruct (Page.heap w !! system) eqn:E; [|discriminate].
      apply lookup_lt_is_Some. eauto. }
    rewrite H1 in H. injection H as <-. exact Hn1.
  - exact (proj2 (pauseAll_monitors _ _ Hw H)).
  - exact (calm_forEach _ gentle_resume _ _ _ H).
  - exact (destroyAll_monitors _ _ Hw H).
Qed.

Lemma manager_init_calm doc : calm (ParticleManager.init doc).
Proof.
  unfold ParticleManager.init.
  apply calm_bind; [|intros _]; apply calm_for_each.
  - intros [index section]. apply calm_bind.
    + apply (calm_alloc
               (fun self => mk Plain self section (Canvas.mk 0 0 false []) []
                              (Mouse.mk 0 0) None _ false)).
    + intros system w a w' [= _ <-]. reflexivity.
  - intros [index [section attribute]]. cbv zeta. apply calm_bind.
    + destruct (String.eqb _ "geometric").
      * apply (calm_alloc
                 (fun self => mk Geometric self section
                                (Canvas.mk 0 0 false []) []
                                (Mouse.mk 0 0) None _ false)).
      * apply (calm_alloc
                 (fun self => mk Plain self section (Canvas.mk 0 0 false []) []
                                (Mouse.mk 0 0) None _ false)).
    + intros system w a w' [= _ <-]. reflexivity.
Qed.

Lemma DOMContentLoaded_monitors doc now entropy layout w' :
  Events.DOMContentLoaded doc now (Events.loaded entropy layout)
  = Some (tt, w') ->
  monitors (Host.rafQueue (Page.host w'))
  = (if Document.reducedMotion doc then 0 else 1)%nat.
Proof.
  unfold Events.DOMContentLoaded. intros H.
  destruct (Document.reducedMotion doc).
  { injection H as <-. reflexivity. }
  apply bind_Some in H as ([] & w1 & H1 & H).
  unfold PerformanceManager.init, PerformanceManager.monitorFrameRate,
    bind, Page.modify, Page.on_host, Env.requestAnimationFrame, ret in H1.
  injection H1 as <-.
  unfold bind, Page.get in H. simpl in H.
  destruct (PerformanceManager.detectPerformance doc true).
  - rewrite (manager_init_calm doc _ _ _ H). reflexivity.
  - injection H as <-. reflexivity.
Qed.

(** X14. The frame-rate monitor is started by the [DOMContentLoaded]
    listener and by nothing else, and it is never stopped: an event
    leaves as many monitor requests pending as it finds, whatever
    handles it cancels, and there is never more than one. *)
Theorem monitor_requests_are_conserved
    (w w' : Page.t) (e : Events.event) :
  Events.reachable w ->
  Events.step e w = Some (tt, w') ->
  monitors (Host.rafQueue (Page.host w'))
  = monitors (Host.rafQueue (Page.host w)) /\
  (monitors (Host.rafQueue (Page.host w)) <= 1)%nat.
Proof.
  intros Hr H. split; [exact (step_monitors e w w' (reachable_wf w Hr) H)|].
  clear H. induction Hr as [entropy layout|entropy layout doc now w1 H
                            |w0 e0 w1 Hr IH H].
  - simpl. unfold monitors. simpl. lia.
  - rewrite (DOMContentLoaded_monitors _ _ _ _ _ H).
    destruct (Document.reducedMotion doc); lia.
  - rewrite (step_monitors e0 w0 w1 (reachable_wf w0 Hr) H). exact IH.
Qed.

Lemma watched_reachable : Events.reachable SampleRun.watched.
Proof.
  apply (Events.reach_ready (fun _ => 0%R) (fun _ => Rect.mk 0 0 960 540)
           SampleRun.plain_document 0%R).
  reflexivity.
Qed.

Lemma watched_lone_reachable : Events.reachable SampleRun.watched_lone.
Proof.
  apply (Events.reach_step SampleRun.watched
           (Events.call_new 0 SampleRun.lone_options)).
  - apply watched_reachable.
  - reflexivity.
Qed.

Lemma watched_hidden_reachable : Events.reachable SampleRun.watched_hidden.
Proof.
  apply (Events.reach_step SampleRun.watched_lone
           (Events.visibilitychange true)).
  - apply watched_lone_reachable.
  - reflexivity.
Qed.

Lemma monitor_requests_are_conserved_witness :
  Host.rafQueue (Page.host SampleRun.watched_lone)
  = [(1%positive, CheckFrameRate); (2%positive, Animate 0)] /\
  Host.rafQueue (Page.host SampleRun.watched_hidden)
  = [(1%positive, CheckFrameRate)] /\
  Host.rafQueue (Page.host SampleRun.watched_shown)
  = [(1%positive, CheckFrameRate); (3%positive, Animate 0)] /\
  (monitors (Host.rafQueue (Page.host SampleRun.watched_hidden))
   = monitors (Host.rafQueue (Page.host SampleRun.watched_lone)) /\
   (monitors (Host.rafQueue (Page.host SampleRun.watched_lone)) <= 1)%nat) /\
  (monitors (Host.rafQueue (Page.host SampleRun.watched_shown))
   = monitors (Host.rafQueue (Page.host SampleRun.watched_hidden)) /\
   (monitors (Host.rafQueue (Page.host SampleRun.watched_hidden)) <= 1)%nat).
Proof.
  split; [reflexivity|]. split; [reflexivity|]. split; [reflexivity|].
  split.
  - exact (monitor_requests_are_conserved SampleRun.watched_lone
             SampleRun.watched_hidden (Events.visibilitychange true)
             watched_lone_reachable eq_refl).
  - exact (monitor_requests_are_conserved SampleRun.watched_hidden
             SampleRun.watched_shown (Events.visibilitychange false)
             watched_hidden_reachable eq_refl).
Defined.
End Monitor.

(** ** Unloading *)

Section Unloading.
Import Frames Invariants.
Import ParticleSystem.

(** X15. The [beforeunload] listener empties the registry and destroys
    the systems that were registered, each left without a frame handle
    and with its canvas detached; a system the registry does not hold,
    built by another script through [window.ParticleSystem], is left as
    it was. *)
Theorem unload_destroys_the_registered_systems (w w' : Page.t) :
  Events.reachable w ->
  Events.step Events.beforeunload w = Some (tt, w') ->
  Page.systems w' = [] /\
  (forall e, e ∈ Page.systems w ->
             exists s',
               Page.heap w' !! snd e = Some s' /\
               animationId s' = None /\
               Canvas.attached (canvas s') = false) /\
  (forall j, j ∉ snd <$> Page.systems w ->
             Page.heap w' !! j = Page.heap w !! j).
Proof.
  intros Hr H. simpl in H. unfold ParticleManager.destroyAll in H.
  apply bind_Some in H as ([] & w1 & H1 & H).
  unfold Page.modify in H. injection H as <-.
  unfold ParticleManager.forEach, bind, Page.get in H1.
  destruct (for_each_at_effect snd destroy (Page.systems w)
              (proj2 (reachable_registry w Hr)) w w1 H1)
    as (Heach & Hother & _).
  split; [reflexivity|]. split; [|exact Hother].
  intros e He. destruct (Heach e He) as (s & s' & h & h' & _ & Hd & Hs').
  exists s'. split; [exact Hs'|].
  destruct (destroy_leaves s s' h h' Hd) as (Hid & Hat & _). auto.
Qed.

Lemma unload_run :
  Events.step Events.beforeunload SampleRun.discovered
  = Some (tt, SampleRun.unloaded).
Proof.
  destruct (step_total Events.beforeunload SampleRun.discovered
              (reachable_wf _ discovered_reachable) I) as (w' & H & _).
  unfold SampleRun.unloaded, SampleRun.after. rewrite H. reflexivity.
Qed.

Lemma discovered_registry :
  Page.systems SampleRun.discovered = [("hero-0"%string, 0%nat)].
Proof.
  destruct discovered_page as (s & k & _ & Hw & _). rewrite Hw. reflexivity.
Qed.

Lemma unload_destroys_the_registered_systems_witness :
  Page.systems SampleRun.discovered = [("hero-0"%string, 0%nat)] /\
  Page.systems SampleRun.unloaded = [] /\
  (forall e, e ∈ Page.systems SampleRun.discovered ->
             exists s',
               Page.heap SampleRun.unloaded !! snd e = Some s' /\
               animationId s' = None /\
               Canvas.attached (canvas s') = false) /\
  (forall j, j ∉ snd <$> Page.systems SampleRun.discovered ->
             Page.heap SampleRun.unloaded !! j
             = Page.heap SampleRun.discovered !! j).
Proof.
  split; [exact discovered_registry|].
  exact (unload_destroys_the_registered_systems SampleRun.discovered
           SampleRun.unloaded discovered_reachable unload_run).
Defined.
End Unloading.

(** ** The parked pointer *)

Section Parked.
Local Open Scope R_scope.
Import Invariants.
Import ParticleSystem.

(** X16. Once the pointer has left the container, a frame moves every
    particle as it would with mouse interaction switched off: the
    pointer is parked at [(-1000, -1000)], below the bound [-500] of
    [update]. *)
Theorem pointer_that_left_repels_nothing
    (s s' : t) (h h' : Host.t) (q : particle) (c : Canvas.t) :
  on_mouseleave s h = Some (s', h') ->
  mouse s' = Mouse.mk (-1000) (-1000) /\
  update q c (mouse s') (config s')
  = update q c (mouse s')
      (Config.set_mouseInteraction false (config s')).
Proof.
  unfold on_mouseleave, ret. intros [= <- _].
  split; [reflexivity|].
  destruct q as [p|g];
    unfold update, GeometricParticle.update, Particle.update;
    rewrite repel_guarded by (simpl; lra);
    rewrite repel_disabled by reflexivity; reflexivity.
Qed.

Lemma pointer_that_left_repels_nothing_witness :
  mouse (set_mouse (Mouse.mk (-1000) (-1000)) SampleRun.lone_system)
  = Mouse.mk (-1000) (-1000) /\
  update (plain SampleRun.moved) SampleRun.lone_canvas
         (mouse (set_mouse (Mouse.mk (-1000) (-1000)) SampleRun.lone_system))
         (config (set_mouse (Mouse.mk (-1000) (-1000)) SampleRun.lone_system))
  = update (plain SampleRun.moved) SampleRun.lone_canvas
      (mouse (set_mouse (Mouse.mk (-1000) (-1000)) SampleRun.lone_system))
      (Config.set_mouseInteraction false
         (config (set_mouse (Mouse.mk (-1000) (-1000))
                            SampleRun.lone_system))).
Proof.
  exact (pointer_that_left_repels_nothing SampleRun.lone_system _
           (Sample.host 960 540) (Sample.host 960 540)
           (plain SampleRun.moved) SampleRun.lone_canvas eq_refl).
Defined.
End Parked.

(** ** The count over time *)

Section Ratchet.
Local Open Scope R_scope.
Import Frames Invariants.
Import ParticleSystem.

Lemma thinner_refl s : thinner s s.
Proof. unfold thinner. lia. Qed.

Lemma thinner_trans s1 s2 s3 : thinner s1 s2 -> thinner s2 s3 -> thinner s1 s3.
Proof. unfold thinner. lia. Qed.

Lemma density_scaled (count : Z) (ratio : R) :
  0 <= ratio <= 1 ->
  (Z.max 0 (JS.floor (IZR count * ratio)) <= Z.max 0 count)%Z.
Proof.
  intros Hr. unfold JS.floor.
  destruct (base_Int_part (IZR count * ratio)) as [Hle _].
  destruct (Z_le_gt_dec 0 count) as [Hc|Hc].
  - apply IZR_le in Hc as Hc'.
    assert (H : IZR (Int_part (IZR count * ratio)) <= IZR count) by nra.
    apply le_IZR in H. lia.
  - assert (Hc' : IZR count <= 0) by (apply IZR_le; lia).
    assert (H : IZR (Int_part (IZR count * ratio)) <= IZR 0) by nra.
    apply le_IZR in H. lia.
Qed.

Lemma thinner_same f :
  (forall s h s' h', f s h = Some (s', h') -> config s' = config s) ->
  respects thinner f.
Proof.
  intros Hf s h s' h' H. unfold thinner, density.
  rewrite (Hf s h s' h' H). lia.
Qed.

Lemma thinner_animate : respects thinner animate.
Proof.
  apply thinner_same. intros s h s' h' H.
  destruct (animate_spec s h) as (ps & cmds & E & _).
  rewrite E in H. injection H as <- _. reflexivity.
Qed.

Lemma thinner_pause : respects thinner pause.
Proof.
  apply thinner_same. intros s h s' h' H. rewrite pause_spec in H.
  destruct (animationId s); injection H as <- _; reflexivity.
Qed.

Lemma thinner_resume : respects thinner resume.
Proof.
  intros s h s' h' H. destruct (animationId s) as [id|] eqn:E.
  - rewrite (resume_running s h id E) in H. injection H as <- _.
    apply thinner_refl.
  - rewrite (resume_paused s h E) in H. exact (thinner_animate s h s' h' H).
Qed.

Lemma thinner_destroy : respects thinner destroy.
Proof.
  apply thinner_same. intros s h s' h' H. rewrite destroy_spec in H.
  destruct (animationId s); injection H as <- _; reflexivity.
Qed.

Lemma thinner_shrink : respects thinner PerformanceManager.shrink.
Proof.
  intros s h s' h' H. unfold thinner, density.
  destruct (shrink_spec _ _ _ _ H) as [-> _].
  apply density_scaled. lra.
Qed.

Lemma thinner_pointer_moved target clientX clientY :
  respects thinner (Events.pointer_moved target clientX clientY).
Proof.
  apply thinner_same. intros s h s' h' H. unfold Events.pointer_moved in H.
  destruct (Events.hears target s); injection H as <- _; reflexivity.
Qed.

Lemma thinner_pointer_left target :
  respects thinner (Events.pointer_left target).
Proof.
  apply thinner_same. intros s h s' h' H. unfold Events.pointer_left in H.
  destruct (Events.hears target s); injection H as <- _; reflexivity.
Qed.

(** The resize listener, where the container measures no less than
    nothing. *)
Lemma thinner_on_resize (s s' : t) (h h' : Host.t) :
  measurable (Host.layout h) ->
  on_resize s h = Some (s', h') ->
  thinner s s' /\ measurable (Host.layout h').
Proof.
  intros Hm H.
  destruct (on_resize_spec s h) as (ps & k & E & _).
  rewrite E in H. injection H as <- <-. split; [|exact Hm].
  unfold thinner, density. simpl.
  unfold Sample.resized_count, Sample.rescaled.
  destruct (Config.responsive (config s)); [|lia].
  apply density_scaled. unfold JS.min.
  destruct (Hm (container s)) as [Hw Hh]. split.
  - apply Rmin_glb; [|lra].
    apply Rmult_le_pos; [nra|].
    apply Rlt_le, Rinv_0_lt_compat. lra.
  - apply Rmin_r.
Qed.

Lemma heap_rel_trans (R : t -> t -> Prop) w1 w2 w3 :
  (forall a b c, R a b -> R b c -> R a c) ->
  heap_rel R w1 w2 -> heap_rel R w2 w3 -> heap_rel R w1 w3.
Proof.
  intros Htrans H12 H23 i s Hs.
  destruct (H12 i s Hs) as (s2 & Hs2 & R12).
  destruct (H23 i s2 Hs2) as (s3 & Hs3 & R23).
  exists s3. split; [exact Hs3|exact (Htrans _ _ _ R12 R23)].
Qed.

(** A method called on several addresses in turn, under a condition on
    the host that it keeps. *)
Lemma for_each_at_relates (R : t -> t -> Prop) (G : Host.t -> Prop) f :
  (forall s, R s s) ->
  (forall a b c, R a b -> R b c -> R a c) ->
  (forall s h s' h', G h -> f s h = Some (s', h') -> R s s' /\ G h') ->
  forall (l : list nat) w w',
    G (Page.host w) ->
    Page.for_each l (fun i => Page.at_ i f) w = Some (tt, w') ->
    heap_rel R w w' /\ G (Page.host w').
Proof.
  intros Hrefl Htrans Hf l.
  induction l as [|i l IH]; intros w w' Hg H; simpl in H.
  - injection H as <-. split; [|exact Hg].
    intros j s Hs. exists s. auto.
  - apply bind_Some in H as ([] & w1 & H1 & H).
    apply at_frame in H1 as (s & s' & Hs & Hfs & Hheap & _).
    destruct (Hf _ _ _ _ Hg Hfs) as [HR Hg1].
    destruct (IH w1 w' Hg1 H) as [Hrel Hg'].
    split; [|exact Hg'].
    apply (heap_rel_trans R w w1 w'); [exact Htrans| |exact Hrel].
    intros j sj Hj. rewrite Hheap.
    destruct (Nat.eq_dec i j) as [<-|Hne].
    + exists s'. split.
      * apply list_lookup_insert_eq, lookup_lt_is_Some. eauto.
      * rewrite Hs in Hj. injection Hj as <-. exact HR.
    + exists sj. split; [|apply Hrefl].
      rewrite list_lookup_insert_ne by exact Hne. exact Hj.
Qed.

Lemma resize_thins layout w w' :
  measurable layout ->
  Events.step (Events.resize layout) w = Some (tt, w') ->
  heap_rel thinner w w'.
Proof.
  intros Hm H. simpl in H.
  apply bind_Some in H as ([] & w1 & H1 & H).
  unfold Page.modify in H1. injection H1 as <-.
  unfold Page.every, bind, Page.get in H.
  apply (for_each_at_relates thinner (fun h => measurable (Host.layout h)))
    in H as [H _];
    [exact H|exact thinner_refl|exact thinner_trans
    |exact (fun s h s' h' => thinner_on_resize s s' h h')|exact Hm].
Qed.

Lemma methods_thin (e : Events.event) :
  match e with Events.resize _ => False | _ => True end ->
  Forall (respects thinner) (methods_of e).
Proof.
  destruct e as [now|layout|hidden| | | | | | | | | |]; simpl; intros He;
    try contradiction; repeat constructor;
    auto using thinner_animate, thinner_pause, thinner_resume,
               thinner_destroy, thinner_shrink,
               thinner_pointer_moved, thinner_pointer_left.
  destruct hidden; [apply thinner_pause|apply thinner_resume].
Qed.

Lemma step_thins e w w' :
  measurable_event e ->
  Events.step e w = Some (tt, w') ->
  heap_rel thinner w w'.
Proof.
  intros Hm H.
  assert (Hother : match e with Events.resize _ => False | _ => True end ->
                   heap_rel thinner w w').
  { intros He.
    exact (proj1 (step_evolves thinner thinner_refl thinner_trans e w w'
                    (methods_thin e He) H)). }
  destruct e; try exact (Hother I).
  exact (resize_thins layout w w' Hm H).
Qed.

(** X17. Whatever events a page goes through, where the resized
    containers measure no less than nothing, every system it holds is
    still there, and the number of particles its count stands for has
    not grown: the resize listener and the mitigation lower a count, and
    nothing raises it again. *)
Theorem particle_count_never_grows_back
    (es : list Events.event) (w w' : Page.t) (i : nat) (s : t) :
  run es w = Some (tt, w') ->
  Forall measurable_event es ->
  Page.heap w !! i = Some s ->
  exists s',
    Page.heap w' !! i = Some s' /\
    (Z.max 0 (Config.particleCount (config s'))
     <= Z.max 0 (Config.particleCount (config s)))%Z.
Proof.
  intros H Hes. revert i s.
  change (heap_rel thinner w w').
  revert w H. induction es as [|e es IH]; intros w H; simpl in H.
  - injection H as <-. intros i s Hs. exists s. split; [exact Hs|].
    apply thinner_refl.
  - apply list.Forall_cons in Hes as [He Hes].
    apply bind_Some in H as ([] & w1 & H1 & H).
    apply (heap_rel_trans thinner w w1 w'); [exact thinner_trans| |].
    + exact (step_thins e w w1 He H1).
    + exact (IH Hes w1 H).
Qed.

Lemma particle_count_never_grows_back_witness :
  exists s',
    Page.heap SampleRun.narrowed !! 0%nat = Some s' /\
    (Z.max 0 (Config.particleCount (config s'))
     <= Z.max 0 (Config.particleCount (config SamplePage.started_system)))%Z.
Proof.
  apply (particle_count_never_grows_back
           [Events.resize (fun _ => Rect.mk 0 0 480 270)]
           SamplePage.started SampleRun.narrowed 0 SamplePage.started_system).
  - reflexivity.
  - constructor; [|constructor]. intros c. simpl. lra.
  - reflexivity.
Defined.
End Ratchet.

(** ** The push of the pointer *)

Section Push.
Local Open Scope R_scope.
Import ParticleSystem.

(** X18. The mouse block of [update] always returns.  What it subtracts
    from a particle's velocity in one frame is at most 0.5 in absolute
    value on each axis, and is never directed away from the pointer: the
    block never pulls a particle towards the pointer. *)
Theorem pointer_pushes_away_and_gently
    (x y vx vy : R) (mouse : Mouse.t) (config : Config.t) :
  exists ix iy,
    Particle.repel x y vx vy mouse config = Some (vx - ix, vy - iy) /\
    -0.5 <= ix <= 0.5 /\
    -0.5 <= iy <= 0.5 /\
    0 <= ix * (Mouse.x mouse - x) + iy * (Mouse.y mouse - y).
Proof.
  set (dx := Mouse.x mouse - x). set (dy := Mouse.y mouse - y).
  set (d := sqrt (dx * dx + dy * dy)).
  set (r := Config.mouseRadius config).
  assert (Hstill : Particle.repel x y vx vy mouse config = Some (vx, vy) ->
                   exists ix iy,
                     Particle.repel x y vx vy mouse config
                     = Some (vx - ix, vy - iy) /\
                     -0.5 <= ix <= 0.5 /\ -0.5 <= iy <= 0.5 /\
                     0 <= ix * dx + iy * dy).
  { intros ->. exists 0, 0. rewrite !Rminus_0_r.
    split; [reflexivity|]. repeat split; lra. }
  destruct (Config.mouseInteraction config) eqn:Hon;
    [|apply Hstill, repel_disabled, Hon].
  destruct (Rlt_dec (-500) (Mouse.x mouse)) as [Hx|Hx];
    [|apply Hstill, repel_guarded; lra].
  destruct (Rlt_dec d r) as [Hd|Hd].
  - destruct (repel_within x y vx vy mouse config Hon Hx Hd)
      as (Hr & Hf & Hdir).
    fold dx dy d r in Hr, Hf, Hdir.
    set (force := (r - d) / r) in *. set (a := JS.atan2 dy dx) in *.
    assert (Hd0 : 0 <= d) by apply sqrt_pos.
    assert (Hf1 : force <= 1).
    { unfold force. apply Rmult_le_reg_r with (r := r); [lra|].
      unfold Rdiv. rewrite Rmult_assoc, Rinv_l by lra. lra. }
    pose proof (COS_bound a) as [Hc1 Hc2].
    pose proof (SIN_bound a) as [Hs1 Hs2].
    exists (cos a * force * 0.5), (sin a * force * 0.5).
    split; [exact Hr|]. repeat split; try nra; exact Hdir.
  - apply Hstill. unfold Particle.repel. rewrite Hon.
    rewrite (proj2 (gt_true _ _) Hx). simpl. fold dx dy d r.
    rewrite (proj2 (lt_false _ _)) by lra. reflexivity.
Qed.
End Push.

(** ** The size of the canvas *)

Section Fitting.
Local Open Scope R_scope.
Import ParticleSystem.

(** Below [2^31] the assignment to [canvas.width] keeps the whole part
    of the number. *)
Lemma reflect_whole_part (default : N) (r : R) :
  0 <= r < 2147483648 ->
  Z.of_N (JS.reflect_unsigned_long default r) = Int_part r.
Proof.
  intros [Hlo Hhi].
  destruct (base_Int_part r) as [Hle Hgt].
  assert (H0 : (0 <= Int_part r)%Z).
  { assert (H : IZR (-1) < IZR (Int_part r)) by lra.
    apply lt_IZR in H. lia. }
  assert (H1 : (Int_part r < 2147483648)%Z).
  { apply lt_IZR. lra. }
  unfold JS.reflect_unsigned_long, JS.to_unsigned_long, JS.trunc.
  destruct (Rle_dec 0 r) as [_|Hn]; [|lra].
  rewrite Z.mod_small by lia.
  destruct (N.leb_spec (Z.to_N (Int_part r)) 2147483647) as [_|Hbig];
    [apply Z2N.id; exact H0|lia].
Qed.

(** X19. [resizeCanvas] clears the canvas and sizes it to the whole part
    of the container's measures: where these are below [2^31], the
    canvas is no larger than the container and less than one pixel
    smaller in each direction. *)
Theorem canvas_fits_its_container (s s' : t) (h h' : Host.t) :
  resizeCanvas s h = Some (s', h') ->
  0 <= Rect.width (Host.layout h (container s)) < 2147483648 ->
  0 <= Rect.height (Host.layout h (container s)) < 2147483648 ->
  Rect.width (Host.layout h (container s)) - 1 < Canvas.w (canvas s')
  <= Rect.width (Host.layout h (container s)) /\
  Rect.height (Host.layout h (container s)) - 1 < Canvas.h (canvas s')
  <= Rect.height (Host.layout h (container s)) /\
  Canvas.painted (canvas s') = [].
Proof.
  intros H Hw Hh. rewrite resizeCanvas_spec in H. injection H as <- _.
  unfold Canvas.w, Canvas.h. simpl.
  rewrite !reflect_whole_part by assumption.
  destruct (base_Int_part (Rect.width (Host.layout h (container s)))).
  destruct (base_Int_part (Rect.height (Host.layout h (container s)))).
  repeat split; lra.
Qed.

Lemma canvas_fits_its_container_witness :
  exists s' h',
    resizeCanvas SampleRun.lone_system (Sample.host 960.5 540) = Some (s', h') /\
    960.5 - 1 < Canvas.w (canvas s') <= 960.5 /\
    540 - 1 < Canvas.h (canvas s') <= 540 /\
    Canvas.painted (canvas s') = [].
Proof.
  eexists _, _. split; [apply resizeCanvas_spec|].
  apply (canvas_fits_its_container SampleRun.lone_system _
           (Sample.host 960.5 540) _
           (resizeCanvas_spec SampleRun.lone_system (Sample.host 960.5 540)));
    simpl; lra.
Defined.
End Fitting.

(** ** The counts of the discovered systems *)

Section Counts.
Local Open Scope R_scope.
Import Invariants.

Lemma type_cases {A} (type : string) (a b c d : A) :
  match type with
  | "subtle"%string => a
  | "geometric"%string => b
  | "floating"%string => c
  | _ => d
  end
  = (if String.eqb type "subtle" then a
     else if String.eqb type "geometric" then b
     else if String.eqb type "floating" then c else d).
Proof.
  repeat (destruct type as [|[[] [] [] [] [] [] [] []] type];
          try reflexivity).
Qed.

(** [Math.floor] does not exceed an integer its argument does not
    exceed. *)
Lemma floor_le (r : R) (z : Z) : r <= IZR z -> (JS.floor r <= z)%Z.
Proof.
  intros H. apply le_IZR. unfold JS.floor.
  destruct (base_Int_part r) as [Hb _]. lra.
Qed.

(** A constructor whose options ask for responsive scaling builds at
    most the count it is passed, and exactly that count in a container
    of at least the reference area. *)
Lemma built_count (c : ParticleSystem.Class) (self container : nat)
    (config : Config.t) (h : Host.t) :
  Config.responsive config = true ->
  (0 <= Config.particleCount config)%Z ->
  let rect := Host.layout h container in
  exists s h',
    ParticleSystem.init (blank c self container config) h = Some (s, h') /\
    (Config.particleCount (ParticleSystem.config s)
     <= Config.particleCount config)%Z /\
    (1920 * 1080 <= Rect.width rect * Rect.height rect ->
     Config.particleCount (ParticleSystem.config s)
     = Config.particleCount config) /\
    length (ParticleSystem.particles s)
    = Z.to_nat (Config.particleCount (ParticleSystem.config s)).
Proof.
  intros Hr Hc rect.
  destruct (init_spec (blank c self container config) h)
    as (ps & cmds & k & E & Hlen).
  eexists _, _. split; [exact E|]. simpl in *.
  unfold Sample.resized_count in *. rewrite Hr in *. fold rect in Hlen |- *.
  split; [|split; [|exact Hlen]].
  - apply floor_le. apply IZR_le in Hc. unfold JS.min.
    pose proof (Rmin_r (Rect.width rect * Rect.height rect / (1920 * 1080)) 1).
    nra.
  - intros Hfull. apply rescaled_full. exact Hfull.
Qed.

Ltac built_from_count :=
  match goal with
  | |- exists s h', ParticleSystem.new ?self ?container ?o ?h = _ /\ _ =>
      destruct (built_count ParticleSystem.Plain self container
                  (ParticleSystem.make_config o) h eq_refl)
        as (s & h' & E & Hle & Hfull & Hlen);
      [simpl; lia|exists s, h'; split; [exact E|]; simpl in Hle, Hfull; auto]
  | |- exists s h',
        GeometricParticleSystem.new ?self ?container ?o ?h = _ /\ _ =>
      destruct (built_count ParticleSystem.Geometric self container
                  (ParticleSystem.make_config
                     (GeometricParticleSystem.super_options o)) h eq_refl)
        as (s & h' & E & Hle & Hfull & Hlen);
      [simpl; lia|exists s, h'; split; [exact E|]; simpl in Hle, Hfull; auto]
  end.

(** X20. The systems of the [DOMContentLoaded] listener are built only
    on a window at least 768 wide, and the counts for a narrower window,
    30 for a hero section and 20 for a section of the default or the
    floating kind, are then chosen only at a width of exactly 768: at
    every other width the options passed to the constructor of a hero
    system carry the count 60, and those of a section's system 25, 20
    or 40 by its kind.  The constructor scales the count it is passed
    before it builds a particle: the system has at most that count,
    exactly that count in a container of at least 1920 by 1080, and as
    many particles as its count. *)
Theorem narrow_counts_need_width_768
    (doc : Document.t) (type : string) (self container : nat) (h : Host.t) :
  builds_systems doc = true ->
  Document.innerWidth doc <> 768 ->
  let width := Document.innerWidth doc in
  let rect := Host.layout h container in
  let n := if String.eqb type "subtle" then 25%Z
           else if String.eqb type "geometric" then 20%Z else 40%Z in
  Options.particleCount (ParticleManager.hero_options width) = Some 60%Z /\
  Options.particleCount (ParticleManager.getOptionsForType width type)
  = Some n /\
  (exists s h',
      ParticleSystem.new self container (ParticleManager.hero_options width) h
      = Some (s, h') /\
      (Config.particleCount (ParticleSystem.config s) <= 60)%Z /\
      (1920 * 1080 <= Rect.width rect * Rect.height rect ->
       Config.particleCount (ParticleSystem.config s) = 60%Z) /\
      length (ParticleSystem.particles s)
      = Z.to_nat (Config.particleCount (ParticleSystem.config s))) /\
  (exists s h',
      (if String.eqb type "geometric"
       then GeometricParticleSystem.new self container
              (ParticleManager.getOptionsForType width type)
       else ParticleSystem.new self container
              (ParticleManager.getOptionsForType width type)) h
      = Some (s, h') /\
      (Config.particleCount (ParticleSystem.config s) <= n)%Z /\
      (1920 * 1080 <= Rect.width rect * Rect.height rect ->
       Config.particleCount (ParticleSystem.config s) = n) /\
      length (ParticleSystem.particles s)
      = Z.to_nat (Config.particleCount (ParticleSystem.config s))).
Proof.
  intros Ha Hne width rect n.
  unfold builds_systems, PerformanceManager.detectPerformance in Ha.
  destruct (Document.reducedMotion doc); [discriminate|]. simpl in Ha.
  destruct (negb (Document.context2d doc)); [discriminate|]. simpl in Ha.
  destruct (JS.lt (Document.innerWidth doc) 768) eqn:Hw; [discriminate|].
  apply lt_false in Hw.
  assert (Hgt : JS.gt width 768 = true).
  { apply gt_true. unfold width. lra. }
  unfold ParticleManager.hero_options, ParticleManager.getOptionsForType.
  rewrite Hgt, type_cases. subst n.
  split; [reflexivity|]. split; [|split].
  - destruct (String.eqb type "subtle"); [reflexivity|].
    destruct (String.eqb type "geometric"); [reflexivity|].
    destruct (String.eqb type "floating"); reflexivity.
  - built_from_count.
  - destruct (String.eqb type "subtle") eqn:E1.
    { apply String.eqb_eq in E1. subst type. simpl. built_from_count. }
    destruct (String.eqb type "geometric"); [built_from_count|].
    destruct (String.eqb type "floating"); built_from_count.
Qed.

Lemma narrow_counts_need_width_768_witness :
  let width := Document.innerWidth SampleRun.wide_document in
  let h := Sample.host 960 540 in
  let rect := Host.layout h 0 in
  Options.particleCount (ParticleManager.hero_options width) = Some 60%Z /\
  Options.particleCount (ParticleManager.getOptionsForType width "floating")
  = Some 40%Z /\
  (exists s h',
      ParticleSystem.new 0 0 (ParticleManager.hero_options width) h
      = Some (s, h') /\
      (Config.particleCount (ParticleSystem.config s) <= 60)%Z /\
      (1920 * 1080 <= Rect.width rect * Rect.height rect ->
       Config.particleCount (ParticleSystem.config s) = 60%Z) /\
      length (ParticleSystem.particles s)
      = Z.to_nat (Config.particleCount (ParticleSystem.config s))) /\
  (exists s h',
      ParticleSystem.new 0 0
        (ParticleManager.getOptionsForType width "floating") h
      = Some (s, h') /\
      (Config.particleCount (ParticleSystem.config s) <= 40)%Z /\
      (1920 * 1080 <= Rect.width rect * Rect.height rect ->
       Config.particleCount (ParticleSystem.config s) = 40%Z) /\
      length (ParticleSystem.particles s)
      = Z.to_nat (Config.particleCount (ParticleSystem.config s))).
Proof.
  apply (narrow_counts_need_width_768 SampleRun.wide_document "floating"
           0 0 (Sample.host 960 540)).
  - unfold builds_systems, PerformanceManager.detectPerformance. simpl.
    rewrite (proj2 (lt_false 1024 768)) by lra. reflexivity.
  - simpl. lra.
Defined.
End Counts.
